(** * WoW Quest TTS batch generator: a shallow embedding of
      [scripts/tts_batch_generator.py] and the properties of its
      specification.

    The script is orchestration around one remote call: load a JSON list of
    quests, drop the quests whose audio file already exists, and render
    the remaining ones one after the other.  The embedding keeps that shape:

    - Python values read from JSON are [pyval]s (the dataclass does not check
      the declared field types, so a field holds whatever the file gave);
    - a JSON object is a [gmap string pyval], a Python set of ints a [gset Z];
    - the effects (output directory, remote service, standard output, sleeps,
      exceptions) are threaded by a small state-and-exception monad [M]. *)

From Stdlib Require Import ZArith NArith QArith_base Ascii String List.
From Stdlib Require Import DecimalString DecimalZ DecimalPos Lia.
From stdpp Require Import base option list gmap sets strings.

Local Open Scope string_scope.
Local Open Scope Z_scope.

(** ** Python strings

    A [str] is modelled as a [string] whose characters are the code points
    below 256; the list view is used by the character-level functions. *)

Definition chars (s : string) : list ascii := list_ascii_of_string s.
Definition text_of (l : list ascii) : string := string_of_list_ascii l.

(** [str.isspace] on the code points below 256: U+0009..U+000D,
    U+001C..U+0020, U+0085 and U+00A0. *)
Definition isspace (c : ascii) : bool :=
  let n := nat_of_ascii c in
  (((9 <=? n) && (n <=? 13)) || ((28 <=? n) && (n <=? 32))
   || (n =? 133) || (n =? 160))%nat.

Fixpoint lstrip (l : list ascii) : list ascii :=
  match l with
  | [] => []
  | c :: r => if isspace c then lstrip r else l
  end.

Definition rstrip (l : list ascii) : list ascii := rev (lstrip (rev l)).

(** [s.strip()] *)
Definition py_strip (s : string) : string := text_of (rstrip (lstrip (chars s))).

(** [l] starts with [p] *)
Fixpoint starts_with (p l : list ascii) : bool :=
  match p, l with
  | [], _ => true
  | _ :: _, [] => false
  | a :: p', b :: l' => if Ascii.eqb a b then starts_with p' l' else false
  end.

Definition ends_with (p l : list ascii) : bool := starts_with (rev p) (rev l).

(** [s.replace(old, new)] for a non-empty [old]: the occurrences are taken
    from the left and do not overlap.  [skip] counts the characters of a
    match that are still to be dropped. *)
Fixpoint replace_go (old new : list ascii) (skip : nat) (l : list ascii)
  : list ascii :=
  match l with
  | [] => []
  | c :: r =>
      match skip with
      | S k => replace_go old new k r
      | O => if starts_with old l
             then new ++ replace_go old new (length old - 1) r
             else c :: replace_go old new O r
      end
  end.

Definition py_replace (old new s : string) : string :=
  text_of (replace_go (chars old) (chars new) O (chars s)).

(** [s[:n]] for a non-negative [n] *)
Definition py_prefix (n : nat) (s : string) : string :=
  text_of (firstn n (chars s)).

(** *** [int(s)] on a string, base 10

    Surrounding whitespace is dropped, one sign is allowed, and the digits
    may be grouped by single underscores placed between two digits. *)

Definition digit_of (c : ascii) : option N :=
  let n := N_of_ascii c in
  if ((48 <=? n) && (n <=? 57))%N then Some (n - 48)%N else None.

Fixpoint digits_value (acc : N) (after_digit : bool) (l : list ascii)
  : option N :=
  match l with
  | [] => if after_digit then Some acc else None
  | c :: r =>
      match digit_of c with
      | Some d => digits_value (acc * 10 + d)%N true r
      | None =>
          if Ascii.eqb c "_" && after_digit
          then digits_value acc false r
          else None
      end
  end.

(** The whitespace [int] drops around the digits: U+0009..U+000D, U+0020,
    U+0085 and U+00A0.  The separators U+001C..U+001F, which [str.strip]
    drops, are not among them: [int] raises on them. *)
Definition int_space (c : ascii) : bool :=
  let n := nat_of_ascii c in
  (((9 <=? n) && (n <=? 13)) || (n =? 32) || (n =? 133) || (n =? 160))%nat.

Fixpoint int_lstrip (l : list ascii) : list ascii :=
  match l with
  | [] => []
  | c :: r => if int_space c then int_lstrip r else l
  end.

Definition int_rstrip (l : list ascii) : list ascii :=
  rev (int_lstrip (rev l)).

(** [None] stands for [ValueError]. *)
Definition py_int (s : string) : option Z :=
  match int_rstrip (int_lstrip (chars s)) with
  | c :: r =>
      if Ascii.eqb c "-" then Z.opp <$> (Z.of_N <$> digits_value 0 false r)
      else if Ascii.eqb c "+" then Z.of_N <$> digits_value 0 false r
      else Z.of_N <$> digits_value 0 false (c :: r)
  | [] => None
  end.

(** [str(z)] for an int: decimal digits, with a minus sign when negative. *)
Definition str_of_int (z : Z) : string := NilZero.string_of_int (Z.to_int z).

(** ** Python values, as [json.load] produces them for the fields of a quest

    Floating-point numbers, lists and nested objects are left out. *)

Inductive pyval : Type :=
| PNone
| PBool (b : bool)
| PInt (z : Z)
| PStr (s : string).

#[global] Instance pyval_eq_dec : EqDecision pyval.
Proof. solve_decision. Defined.

(** truth value of [v] *)
Definition truthy (v : pyval) : bool :=
  match v with
  | PNone => false
  | PBool b => b
  | PInt z => negb (z =? 0)
  | PStr s => negb (String.eqb s "")
  end.

(** [a or b] *)
Definition py_or (a b : pyval) : pyval := if truthy a then a else b.

(** [str(v)], which is what an f-string puts for [{v}] *)
Definition py_str (v : pyval) : string :=
  match v with
  | PNone => "None"
  | PBool true => "True"
  | PBool false => "False"
  | PInt z => str_of_int z
  | PStr s => s
  end.

(** [v == n] for an int [n]: [True == 1] and [False == 0] hold in Python,
    a string or [None] equals no int. *)
Definition as_int (v : pyval) : option Z :=
  match v with
  | PInt z => Some z
  | PBool b => Some (Z.b2z b)
  | _ => None
  end.

(** [v in ids] for a list of ints *)
Definition py_in_list (v : pyval) (ids : list Z) : bool :=
  match as_int v with
  | Some z => bool_decide (z ∈ ids)
  | None => false
  end.

(** [v in ids] for a set of ints *)
Definition py_in_set (v : pyval) (ids : gset Z) : bool :=
  match as_int v with
  | Some z => bool_decide (z ∈ ids)
  | None => false
  end.

(** ** Quest *)

Record Quest : Type := mkQuest {
  quest_id : pyval;
  title : pyval;
  description : pyval;
  objectives : pyval;
  completion : pyval;
  zone : pyval;
  is_main_story : pyval;
}.

#[global] Instance Quest_eq_dec : EqDecision Quest.
Proof. solve_decision. Defined.

(** The declared field types: [quest_id: int], [title: str], ... *)
Definition is_int (v : pyval) : Prop := ∃ z, v = PInt z.
Definition is_str (v : pyval) : Prop := ∃ s, v = PStr s.

(** [Quest.tts_text] *)
Definition tts_text (self : Quest) : pyval :=
  if truthy (title self)
  then PStr (py_str (title self) +:+ ". "
             +:+ py_str (py_or (description self) (PStr "")))
  else py_or (description self) (PStr "").

(** [data.get(key, default)] *)
Definition dict_get (data : gmap string pyval) (key : string) (dflt : pyval)
  : pyval :=
  default dflt (data !! key).

(** [Quest.from_dict] *)
Definition from_dict (data : gmap string pyval) : Quest :=
  {| quest_id := dict_get data "quest_id" (PInt 0);
     title := dict_get data "title" (PStr "");
     description := dict_get data "description" (PStr "");
     objectives := dict_get data "objectives" (PStr "");
     completion := dict_get data "completion" (PStr "");
     zone := dict_get data "zone" (PStr "");
     is_main_story := dict_get data "is_main_story" (PBool false) |}.

(** ** File names of the output directory *)

(** The split of a name at its last dot, when it has one. *)
Fixpoint split_last_dot (l : list ascii) : option (list ascii * list ascii) :=
  match l with
  | [] => None
  | c :: r =>
      match split_last_dot r with
      | Some (pre, suf) => Some (c :: pre, suf)
      | None => if Ascii.eqb c "." then Some ([], r) else None
      end
  end.

(** [Path.stem]: with [i] the index of the last dot of the name, the stem is
    [name[:i]] when [0 < i < len(name) - 1] and the whole name otherwise. *)
Definition path_stem (name : string) : string :=
  match split_last_dot (chars name) with
  | Some ((_ :: _) as pre, _ :: _) => text_of pre
  | _ => name
  end.

(** A name matches the pattern [pre*suf] when it starts with [pre], ends with
    [suf] and is long enough for the two not to overlap. *)
Definition glob_star (pre suf name : string) : bool :=
  starts_with (chars pre) (chars name)
  && ends_with (chars suf) (chars name)
  && (length (chars pre) + length (chars suf) <=? length (chars name))%nat.

(** The name the audio of a quest is written to: [f"quest_{quest_id}.mp3"] *)
Definition audio_file_name (quest : Quest) : string :=
  "quest_" +:+ py_str (quest_id quest) +:+ ".mp3".

(** A name can be created in a directory without subdirectories when it has
    no path separator and no NUL character. *)
Definition plain_file_name (name : string) : bool :=
  forallb (fun c => negb (Ascii.eqb c "/") && negb (Ascii.eqb c "000"))
          (chars name).

(** ** Configuration

    The JSON settings object, restricted to the keys the script reads.  A key
    the file does not have is [None]; subscripting it raises [KeyError].  The
    section [elevenlabs] and its [api_key] are read by the constructor, so
    a generator only exists for a configuration that has them. *)

Record ElevenLabsSection : Type := {
  api_key : string;
  voice_id : option string;
  model_id : option string;
  voice_settings : option string;
}.

Record VoiceProfile : Type := { profile_voice_id : option string }.

Record PathsSection : Type := {
  quests_json : option string;
  batch_export : option string;
  audio_output : option string;
}.

Record Config : Type := {
  elevenlabs : ElevenLabsSection;
  voice_profiles : option (gmap string VoiceProfile);
  paths : option PathsSection;
}.

Record Client : Type := { client_key : string }.

Record Generator : Type := {
  project_root : string;
  config : Config;
  client : option Client;
}.

(** ** Exceptions and the world *)

Inductive exn : Type :=
| KeyError (key : string)
| AttributeError (msg : string)
| TypeError (msg : string)
| ValueError (msg : string)
| FileNotFoundError (msg : string)
| FileExistsError (msg : string)
| OSError (msg : string)
| OverflowError (msg : string)
| ApiError (msg : string).

(** [str(e)] *)
Definition exn_str (e : exn) : string :=
  match e with
  | KeyError key => "'" +:+ key +:+ "'"
  | AttributeError msg | TypeError msg | ValueError msg
  | FileNotFoundError msg | FileExistsError msg | OSError msg
  | OverflowError msg | ApiError msg => msg
  end.

(** The arguments of [client.text_to_speech.convert]. *)
Record ApiCall : Type := {
  call_voice_id : string;
  call_text : string;
  call_model_id : string;
  call_voice_settings : string;
}.

(** What the remote service does with a call: [convert] raises, or it returns
    a stream that yields some chunks and then ends or raises. *)
Inductive ApiOutcome : Type :=
| ConvertRaises (e : exn)
| AudioStream (chunks : list (list Byte.byte)) (failure : option exn).

(** The output directory named by [paths.audio_output]: not there yet, not
    creatable (a regular file has that name, or the parent is read-only), or
    a directory with its files. *)
Inductive DirState : Type :=
| DirAbsent
| DirBlocked
| DirPresent (files : gmap string (list Byte.byte)).

Definition dir_files (d : DirState) : gmap string (list Byte.byte) :=
  match d with
  | DirPresent files => files
  | _ => ∅
  end.

(** What the file system does when a file of the output directory is
    opened for writing and written, when it does not just take it: [open]
    raises (the name is longer than the file system allows, no permission,
    no space for the entry), or a write raises after some bytes have
    reached the file (no space left, an input/output error). *)
Inductive FileFault : Type :=
| OpenFails (e : exn)
| WriteFails (kept : nat) (e : exn).

(** The world the script runs in.  [service] answers the [n]-th call of a
    run; [file_fault] tells for the name of a file what goes wrong when it
    is written, if anything; [sleep_fault] tells for a delay what
    [time.sleep] raises on this platform when it cannot wait that long
    ([OverflowError] beyond the range of the clock, [OSError] when the
    system call rejects the time); [api_log] lists the calls made, each with
    the quest it was made for (the quest itself is not sent). *)
Record World : Type := {
  audio_dir : DirState;
  quests_file : option (list (gmap string pyval));
  export_file : option (list (gmap string pyval));
  service : nat → ApiCall → ApiOutcome;
  file_fault : string → option FileFault;
  sleep_fault : Q → option exn;
  api_log : list (Quest * ApiCall);
  stdout : list string;
  sleeps : list Q;
}.

Definition set_audio_dir (d : DirState) (w : World) : World :=
  {| audio_dir := d; quests_file := quests_file w;
     export_file := export_file w; service := service w;
     file_fault := file_fault w; sleep_fault := sleep_fault w;
     api_log := api_log w; stdout := stdout w; sleeps := sleeps w |}.

Definition add_api_log (entry : Quest * ApiCall) (w : World) : World :=
  {| audio_dir := audio_dir w; quests_file := quests_file w;
     export_file := export_file w; service := service w;
     file_fault := file_fault w; sleep_fault := sleep_fault w;
     api_log := api_log w ++ [entry]; stdout := stdout w;
     sleeps := sleeps w |}.

Definition add_stdout (line : string) (w : World) : World :=
  {| audio_dir := audio_dir w; quests_file := quests_file w;
     export_file := export_file w; service := service w;
     file_fault := file_fault w; sleep_fault := sleep_fault w;
     api_log := api_log w; stdout := stdout w ++ [line];
     sleeps := sleeps w |}.

Definition add_sleep (delay : Q) (w : World) : World :=
  {| audio_dir := audio_dir w; quests_file := quests_file w;
     export_file := export_file w; service := service w;
     file_fault := file_fault w; sleep_fault := sleep_fault w;
     api_log := api_log w; stdout := stdout w;
     sleeps := sleeps w ++ [delay] |}.

(** ** The monad of the script: state, and exceptions that keep the state *)

Inductive result (A : Type) : Type :=
| Ok (a : A)
| Raise (e : exn).
Arguments Ok {A} a.
Arguments Raise {A} e.

Definition M (A : Type) : Type := World → result A * World.

#[global] Instance M_ret : MRet M := λ A a w, (Ok a, w).

#[global] Instance M_bind : MBind M := λ A B f m w,
  match m w with
  | (Ok a, w') => f a w'
  | (Raise e, w') => (Raise e, w')
  end.

Definition raise {A : Type} (e : exn) : M A := λ w, (Raise e, w).

(** [try: body  except Exception as e: handler] *)
Definition try_except {A : Type} (body : M A) (handler : exn → M A) : M A :=
  λ w, match body w with
       | (Ok a, w') => (Ok a, w')
       | (Raise e, w') => handler e w'
       end.

Definition get_world : M World := λ w, (Ok w, w).
Definition modify_world (f : World → World) : M unit := λ w, (Ok tt, f w).

(** [d[key]] for a key that may be missing *)
Definition subscript {A : Type} (key : string) (o : option A) : M A :=
  match o with
  | Some a => mret a
  | None => raise (KeyError key)
  end.

Definition print (line : string) : M unit := modify_world (add_stdout line).

(** What [time.sleep(delay)] raises, if anything: the error of the platform
    for a delay it cannot handle, and [ValueError] for any other negative
    delay. *)
Definition sleep_error (w : World) (delay : Q) : option exn :=
  match sleep_fault w delay with
  | Some e => Some e
  | None =>
      if Qle_bool 0 delay then None
      else Some (ValueError "sleep length must be non-negative")
  end.

(** [time.sleep(delay)] *)
Definition sleep (delay : Q) : M unit := λ w,
  match sleep_error w delay with
  | None => (Ok tt, add_sleep delay w)
  | Some e => (Raise e, w)
  end.

(** ** The generator *)

Definition nl : string := String "010" "".
Definition U_umlaut : string := String "220" "".
Definition u_umlaut : string := String "252" "".

Definition str_of_nat (n : nat) : string := str_of_int (Z.of_nat n).

(** *** Paths, as [pathlib] has them on POSIX

    A path is kept as its text.  The text of a path has an anchor (nothing,
    one slash, or two slashes when the text starts with exactly two) and the
    components between the slashes, without the empty ones and the dots. *)

(** The pieces of a text between its slashes. *)
Fixpoint components (l : list ascii) : list (list ascii) :=
  match l with
  | [] => [[]]
  | c :: r =>
      if Ascii.eqb c "/" then [] :: components r
      else match components r with
           | piece :: rest => (c :: piece) :: rest
           | [] => [[c]]
           end
  end.

Definition is_part (piece : list ascii) : bool :=
  match piece with
  | [] => false
  | [c] => negb (Ascii.eqb c ".")
  | _ => true
  end.

Definition path_parts (s : string) : list (list ascii) :=
  List.filter is_part (components (chars s)).

Definition path_anchor (s : string) : string :=
  match s with
  | String "/" (String "/" (String "/" _)) => "/"
  | String "/" (String "/" _) => "//"
  | String "/" _ => "/"
  | _ => ""
  end.

Fixpoint join_parts (parts : list (list ascii)) : string :=
  match parts with
  | [] => ""
  | [piece] => text_of piece
  | piece :: rest => text_of piece +:+ "/" +:+ join_parts rest
  end.

(** [str(path)] *)
Definition path_text (anchor : string) (parts : list (list ascii)) : string :=
  match parts with
  | [] => if String.eqb anchor "" then "." else anchor
  | _ => anchor +:+ join_parts parts
  end.

(** [str(root / sub)]: an absolute [sub] replaces [root]. *)
Definition path_join (root sub : string) : string :=
  if String.eqb (path_anchor sub) ""
  then path_text (path_anchor root) (path_parts root ++ path_parts sub)
  else path_text (path_anchor sub) (path_parts sub).

(** [TTSBatchGenerator._init_client] *)
Definition _init_client (config_path : string) (cfg : Config)
  : M (option Client) :=
  let key := api_key (elevenlabs cfg) in
  if String.eqb key "YOUR_ELEVENLABS_API_KEY_HERE"
  then print "WARNUNG: Kein API-Key konfiguriert!";;
       print ("Bitte trage deinen Key in " +:+ config_path +:+ " ein.");;
       mret None
  else mret (Some {| client_key := key |}).

(** [TTSBatchGenerator.__init__], for a settings file that exists and holds
    [cfg]. *)
Definition new_generator (root config_path : string) (cfg : Config)
  : M Generator :=
  c ← _init_client config_path cfg;
  mret {| project_root := root; config := cfg; client := c |}.

(** [self.project_root / self.config["paths"][key]] *)
Definition config_path_of (self : Generator) (key : string)
    (field : PathsSection → option string) : M string :=
  section ← subscript "paths" (paths (config self));
  sub ← subscript key (field section);
  mret (path_join (project_root self) sub).

(** [TTSBatchGenerator.load_quests], called without a file name *)
Definition load_quests (self : Generator) : M (list Quest) :=
  quest_path ← config_path_of self "quests_json" quests_json;
  w ← get_world;
  match quests_file w with
  | None => raise (FileNotFoundError ("Quest-Datei nicht gefunden: " +:+ quest_path))
  | Some data => mret (from_dict <$> data)
  end.

(** [TTSBatchGenerator.load_batch_export] *)
Definition load_batch_export (self : Generator)
  : M (list (gmap string pyval)) :=
  export_path ← config_path_of self "batch_export" batch_export;
  w ← get_world;
  match export_file w with
  | None =>
      raise (FileNotFoundError
               ("Batch-Export nicht gefunden: " +:+ export_path +:+ nl
                +:+ "Bitte exportiere zuerst Quests aus der WPF-App."))
  | Some data => mret data
  end.

(** [audio_dir.mkdir(parents=True, exist_ok=True)] *)
Definition mkdir_audio_dir : M unit := λ w,
  match audio_dir w with
  | DirAbsent => (Ok tt, set_audio_dir (DirPresent ∅) w)
  | DirPresent _ => (Ok tt, w)
  | DirBlocked => (Raise (FileExistsError "File exists"), w)
  end.

(** The names [audio_dir.glob("quest_*.mp3")] yields, on a file system that
    tells upper case from lower case. *)
Definition glob_audio_dir : M (list string) := λ w,
  (Ok (filter (λ name, glob_star "quest_" ".mp3" name = true)
              (elements (dom (dir_files (audio_dir w))))), w).

(** The body of the scanning loop: the id of one file is added unless
    [int] raises [ValueError]. *)
Definition scan_file (existing : gset Z) (file : string) : gset Z :=
  match py_int (py_replace "quest_" "" (path_stem file)) with
  | Some id => existing ∪ {[ id ]}
  | None => existing
  end.

(** [TTSBatchGenerator.get_existing_audio_files] *)
Definition get_existing_audio_files (self : Generator) : M (gset Z) :=
  _ ← config_path_of self "audio_output" audio_output;
  mkdir_audio_dir;;
  files ← glob_audio_dir;
  mret (foldl scan_file ∅ files).

(** [text.strip()] *)
Definition strip_method (text : pyval) : M string :=
  match text with
  | PStr s => mret (py_strip s)
  | _ => raise (AttributeError "object has no attribute 'strip'")
  end.

(** [client.text_to_speech.convert(...)]: the call is logged and the service
    answers. *)
Definition convert (quest : Quest) (call : ApiCall)
  : M (list (list Byte.byte) * option exn) := λ w,
  let w' := add_api_log (quest, call) w in
  match service w (length (api_log w)) call with
  | ConvertRaises e => (Raise e, w')
  | AudioStream chunks failure => (Ok (chunks, failure), w')
  end.

(** [open(output_path, "wb")] followed by the writes of the chunks the
    stream yields: the file is created (or emptied) and holds the chunks
    written so far, unless the file system refuses: then [open] raises and
    nothing changes, or a write raises and the file holds the bytes that
    reached it. *)
Definition write_file (name : string) (chunks : list (list Byte.byte))
  : M unit := λ w,
  match audio_dir w with
  | DirPresent files =>
      if plain_file_name name
      then match file_fault w name with
           | None =>
               (Ok tt,
                set_audio_dir (DirPresent (<[name := concat chunks]> files)) w)
           | Some (OpenFails e) => (Raise e, w)
           | Some (WriteFails kept e) =>
               (Raise e,
                set_audio_dir
                  (DirPresent (<[name := take kept (concat chunks)]> files)) w)
           end
      else (Raise (FileNotFoundError "No such file or directory"), w)
  | _ => (Raise (FileNotFoundError "No such file or directory"), w)
  end.

(** The voice of [generate_audio]: the one of the profile when a profile name
    is given and is a key of the profile table, the default one otherwise. *)
Definition resolve_voice (self : Generator) (voice_profile : option string)
  : M string :=
  match voice_profile with
  | Some name =>
      if negb (String.eqb name "")
      then table ← subscript "voice_profiles" (voice_profiles (config self));
           match table !! name with
           | Some profile => subscript "voice_id" (profile_voice_id profile)
           | None => subscript "voice_id" (voice_id (elevenlabs (config self)))
           end
      else subscript "voice_id" (voice_id (elevenlabs (config self)))
  | None => subscript "voice_id" (voice_id (elevenlabs (config self)))
  end.

(** The line the handler of [generate_audio] prints. *)
Definition error_line (quest : Quest) (e : exn) : string :=
  "  Fehler bei Quest " +:+ py_str (quest_id quest) +:+ ": " +:+ exn_str e.

(** The [try] block of [generate_audio] with its handler. *)
Definition synthesize (self : Generator) (quest : Quest)
    (voice text output_path : string) : M (option string) :=
  try_except
    (model ← subscript "model_id" (model_id (elevenlabs (config self)));
     settings ← subscript "voice_settings"
                  (voice_settings (elevenlabs (config self)));
     audio ← convert quest
               {| call_voice_id := voice; call_text := text;
                  call_model_id := model; call_voice_settings := settings |};
     write_file (audio_file_name quest) audio.1;;
     match audio.2 with
     | Some e => raise e
     | None => mret (Some output_path)
     end)
    (λ e, print (error_line quest e);;
          mret None).

(** The part of [generate_audio] after the two guards: voice, output path,
    and the [try] block. *)
Definition render (self : Generator) (quest : Quest)
    (voice_profile : option string) (text : string) : M (option string) :=
  voice ← resolve_voice self voice_profile;
  dir ← config_path_of self "audio_output" audio_output;
  mkdir_audio_dir;;
  synthesize self quest voice text (path_join dir (audio_file_name quest)).

(** The line [generate_audio] prints when it skips a quest without text. *)
Definition skip_line (quest : Quest) : string :=
  "  " +:+ U_umlaut +:+ "berspringe Quest " +:+ py_str (quest_id quest)
  +:+ ": Kein Text vorhanden".

(** [TTSBatchGenerator.generate_audio] *)
Definition generate_audio (self : Generator) (quest : Quest)
    (voice_profile : option string) : M (option string) :=
  match client self with
  | None =>
      print "Fehler: ElevenLabs-Client nicht initialisiert.";;
      mret None
  | Some _ =>
      let text := tts_text quest in
      stripped ← strip_method text;
      if String.eqb stripped ""
      then print (skip_line quest);;
           mret None
      else render self quest voice_profile (py_str text)
  end.

(** Which [return] of [run_batch] was reached.  Python returns [None] on each
    of them; [Completed] carries the two counters the last line prints. *)
Inductive BatchOutcome : Type :=
| NothingToDo
| DryRunPreview
| Completed (successful failed : nat).

(** The generation loop of [run_batch], with its two counters ([tqdm] only
    draws a progress bar around the list). *)
Fixpoint batch_loop (self : Generator) (voice_profile : option string)
    (delay : Q) (quests : list Quest) (successful failed : nat)
  : M (nat * nat) :=
  match quests with
  | [] => mret (successful, failed)
  | quest :: rest =>
      result ← generate_audio self quest voice_profile;
      let counters :=
        match result with
        | Some _ => (S successful, failed)
        | None => (successful, S failed)
        end in
      sleep delay;;
      batch_loop self voice_profile delay rest counters.1 counters.2
  end.

(** [q.title[:50]] *)
Definition title_prefix (q : Quest) : M string :=
  match title q with
  | PStr s => mret (py_prefix 50 s)
  | _ => raise (TypeError "object is not subscriptable")
  end.

(** The preview loop of the dry run. *)
Fixpoint preview_loop (quests : list Quest) : M unit :=
  match quests with
  | [] => mret tt
  | q :: rest =>
      t ← title_prefix q;
      print ("  - Quest " +:+ py_str (quest_id q) +:+ ": " +:+ t +:+ "...");;
      preview_loop rest
  end.

(** The first part of [run_batch]: the quests are loaded, from the export or
    from the quest file, where a non-empty [quest_ids] selects. *)
Definition load_selected (self : Generator) (quest_ids : option (list Z))
    (from_export : bool) : M (list Quest) :=
  if from_export
  then export_data ← load_batch_export self;
       let quests := from_dict <$> export_data in
       print ("Geladene Quests aus Batch-Export: " +:+ str_of_nat (length quests));;
       mret quests
  else all_quests ← load_quests self;
       let quests :=
         match quest_ids with
         | Some ((_ :: _) as ids) =>
             filter (λ q, py_in_list (quest_id q) ids = true) all_quests
         | _ => all_quests
         end in
       print ("Geladene Quests: " +:+ str_of_nat (length quests));;
       mret quests.

(** The second part: quests that already have audio are dropped. *)
Definition filter_existing (self : Generator) (skip_existing : bool)
    (quests : list Quest) : M (list Quest) :=
  if skip_existing
  then existing ← get_existing_audio_files self;
       let quests :=
         filter (λ q, negb (py_in_set (quest_id q) existing) = true) quests in
       print ("Nach Filterung (ohne bereits vorhandene): "
              +:+ str_of_nat (length quests));;
       mret quests
  else mret quests.

(** The last line of a run: the two counters. *)
Definition summary_line (successful failed : nat) : string :=
  nl +:+ "Abgeschlossen: " +:+ str_of_nat successful +:+ " erfolgreich, "
  +:+ str_of_nat failed +:+ " fehlgeschlagen".

(** The line printed before the generation loop. *)
Definition start_line (n : nat) : string :=
  nl +:+ "Starte Generierung f" +:+ u_umlaut +:+ "r " +:+ str_of_nat n
  +:+ " Quests...".

(** The last part: nothing to do, the preview of a dry run, or the
    generation. *)
Definition dispatch (self : Generator) (dry_run : bool)
    (voice_profile : option string) (delay : Q) (quests : list Quest)
  : M BatchOutcome :=
  match quests with
  | [] => print "Keine Quests zu verarbeiten.";; mret NothingToDo
  | _ :: _ =>
      if dry_run
      then print (nl +:+ "[DRY-RUN] Folgende Quests w" +:+ u_umlaut
                  +:+ "rden verarbeitet:");;
           preview_loop (firstn 20 quests);;
           (if (20 <? length quests)%nat
            then print ("  ... und " +:+ str_of_nat (length quests - 20)
                        +:+ " weitere")
            else mret tt);;
           mret DryRunPreview
      else print (start_line (length quests));;
           counters ← batch_loop self voice_profile delay quests 0 0;
           print (summary_line counters.1 counters.2);;
           mret (Completed counters.1 counters.2)
  end.

(** [TTSBatchGenerator.run_batch] *)
Definition run_batch (self : Generator) (quest_ids : option (list Z))
    (from_export skip_existing dry_run : bool)
    (voice_profile : option string) (delay : Q) : M BatchOutcome :=
  loaded ← load_selected self quest_ids from_export;
  quests ← filter_existing self skip_existing loaded;
  dispatch self dry_run voice_profile delay quests.

(** [TTSBatchGenerator._load_config]: [settings] holds the settings files
    that exist, by path, each with the object [json.load] reads from it. *)
Definition _load_config (settings : gmap string Config) (config_path : string)
  : M Config :=
  match settings !! config_path with
  | Some cfg => mret cfg
  | None =>
      raise (FileNotFoundError ("Config nicht gefunden: " +:+ config_path))
  end.

(** [config_path or self.project_root / "config" / "tts_config.json"] *)
Definition config_path_or_default (root : string) (config_path : option string)
  : string :=
  match config_path with
  | Some p =>
      if String.eqb p ""
      then path_join (path_join root "config") "tts_config.json"
      else p
  | None => path_join (path_join root "config") "tts_config.json"
  end.

(** [TTSBatchGenerator.__init__]; [root] is the directory above the one of
    the script. *)
Definition __init__ (root : string) (settings : gmap string Config)
    (config_path : option string) : M Generator :=
  let path := config_path_or_default root config_path in
  cfg ← _load_config settings path;
  c ← _init_client path cfg;
  mret {| project_root := root; config := cfg; client := c |}.

(** The namespace [parser.parse_args()] returns. *)
Record Args : Type := {
  arg_quest_id : option (list Z);
  arg_from_export : bool;
  arg_skip_existing : bool;
  arg_no_skip_existing : bool;
  arg_dry_run : bool;
  arg_voice : string;
  arg_delay : Q;
  arg_config : option string;
}.

(** The namespace of a command line without options: the defaults of the
    [add_argument] calls. *)
Definition default_args : Args :=
  {| arg_quest_id := None; arg_from_export := false;
     arg_skip_existing := true; arg_no_skip_existing := false;
     arg_dry_run := false; arg_voice := "neutral_male";
     arg_delay := 1 # 2; arg_config := None |}.

(** The two handlers of [main]: the message, then [sys.exit(1)]. *)
Definition exit_handler (e : exn) : M Z :=
  match e with
  | FileNotFoundError _ => print ("Fehler: " +:+ exn_str e);; mret 1
  | _ => print ("Unerwarteter Fehler: " +:+ exn_str e);; mret 1
  end.

(** The [try] block of [main]: the generator is built and runs the batch
    with the options of the command line. *)
Definition construct_and_run (root : string) (settings : gmap string Config)
    (args : Args) : M BatchOutcome :=
  generator ← __init__ root settings (arg_config args);
  run_batch generator (arg_quest_id args) (arg_from_export args)
            (negb (arg_no_skip_existing args)) (arg_dry_run args)
            (Some (arg_voice args)) (arg_delay args).

(** [main] after [parse_args]; the value is the exit status of the
    process, 0 when [main] returns. *)
Definition main (root : string) (settings : gmap string Config) (args : Args)
  : M Z :=
  try_except (construct_and_run root settings args;; mret 0) exit_handler.

(** ** Notions used by the statements *)

(** Every run of [m] relates the world it starts in to the world it ends in,
    whether it returns or raises. *)
Definition keeps {A : Type} (R : relation World) (m : M A) : Prop :=
  ∀ w r w', m w = (r, w') → R w w'.

(** No call is made and the files of the output directory are the same. *)
Definition quiet (w w' : World) : Prop :=
  api_log w' = api_log w
  ∧ dir_files (audio_dir w') = dir_files (audio_dir w).

(** The log of calls grows by entries that satisfy [P]. *)
Definition log_grows (P : Quest * ApiCall → Prop) (w w' : World) : Prop :=
  ∃ new, api_log w' = (api_log w ++ new)%list ∧ Forall P new.

(** The calls a run from [w] to [w'] has made. *)
Definition new_calls (w w' : World) : list (Quest * ApiCall) :=
  drop (length (api_log w)) (api_log w').

(** The files of the output directory stay (their contents may change). *)
Definition files_stay (w w' : World) : Prop :=
  dom (dir_files (audio_dir w)) ⊆ dom (dir_files (audio_dir w')).

(** The test [not text.strip()] of [generate_audio] holds: the derived text
    is a string that is empty or made of whitespace. *)
Definition blank_text (quest : Quest) : bool :=
  match tts_text quest with
  | PStr s => String.eqb (py_strip s) ""
  | _ => false
  end.

(** The ids the scanner finds among the files of a directory. *)
Definition existing_ids (files : gmap string (list Byte.byte)) : gset Z :=
  foldl scan_file ∅
        (filter (λ name, glob_star "quest_" ".mp3" name = true)
                (elements (dom files))).

(** The quests [run_batch] goes on to process: the loaded ones, without
    those that already have audio when [skip_existing] is set. *)
Definition selected_quests (self : Generator) (quest_ids : option (list Z))
    (from_export skip_existing : bool) : M (list Quest) :=
  loaded ← load_selected self quest_ids from_export;
  filter_existing self skip_existing loaded.

(** The configuration names the output directory. *)
Definition has_audio_output (cfg : Config) : Prop :=
  ∃ section dir, paths cfg = Some section ∧ audio_output section = Some dir.

(** The world after the scanner has made sure the output directory is there. *)
Definition with_audio_dir (w : World) : World :=
  match audio_dir w with
  | DirAbsent => set_audio_dir (DirPresent ∅) w
  | _ => w
  end.

(** The quests for which the generation loop, started in [w], gets a path
    from [generate_audio]. *)
Fixpoint rendered_by_loop (self : Generator) (voice_profile : option string)
    (delay : Q) (quests : list Quest) (w : World) : list Quest :=
  match quests with
  | [] => []
  | quest :: rest =>
      match generate_audio self quest voice_profile w with
      | (Ok result, w1) =>
          match result with Some _ => [quest] | None => [] end
          ++ match sleep delay w1 with
             | (Ok _, w2) => rendered_by_loop self voice_profile delay rest w2
             | (Raise _, _) => []
             end
      | (Raise _, _) => []
      end
  end.

(** The quests a [run_batch] without [dry_run] renders. *)
Definition rendered_by_run (self : Generator) (quest_ids : option (list Z))
    (from_export skip_existing : bool) (voice_profile : option string)
    (delay : Q) (w : World) : list Quest :=
  match selected_quests self quest_ids from_export skip_existing w with
  | (Ok quests, w1) =>
      rendered_by_loop self voice_profile delay quests
                       (add_stdout (start_line (length quests)) w1)
  | (Raise _, _) => []
  end.

(** The file system takes a file of that name in the output directory: the
    name is one of a plain file and nothing goes wrong at [open] or at a
    write. *)
Definition writable (w : World) (name : string) : bool :=
  plain_file_name name
  && match file_fault w name with None => true | Some _ => false end.

(** The answer of the service is a failure: [convert] raised, or the stream
    raised before its end. *)
Definition api_fails (answer : ApiOutcome) : Prop :=
  match answer with
  | ConvertRaises _ => True
  | AudioStream _ (Some _) => True
  | AudioStream _ None => False
  end.

(** The configuration has the voices [generate_audio] looks up outside its
    [try] block: a default voice, and a profile table whose entries have a
    voice. *)
Definition voices_configured (cfg : Config) : Prop :=
  is_Some (voice_id (elevenlabs cfg))
  ∧ ∃ table, voice_profiles cfg = Some table
             ∧ ∀ name profile, table !! name = Some profile →
                               is_Some (profile_voice_id profile).

(** *** A small installation, used to run the definitions *)

Definition example_config : Config :=
  {| elevenlabs := {| api_key := "sk-example"; voice_id := Some "D0";
                      model_id := Some "eleven_multilingual_v2";
                      voice_settings := Some "{}" |};
     voice_profiles :=
       Some {[ "epic_narrator" := {| profile_voice_id := Some "X1" |} ]};
     paths := Some {| quests_json := Some "data/quests.json";
                      batch_export := Some "data/batch_export.json";
                      audio_output := Some "audio" |} |}.

Definition example_generator : Generator :=
  {| project_root := "/srv/tts"; config := example_config;
     client := Some {| client_key := "sk-example" |} |}.

(** A service that answers every call with the same two chunks. *)
Definition example_service (n : nat) (call : ApiCall) : ApiOutcome :=
  AudioStream [[Byte.x49; Byte.x44]; [Byte.x33]] None.

Definition example_world (records : list (gmap string pyval)) : World :=
  {| audio_dir := DirAbsent; quests_file := Some records;
     export_file := None; service := example_service;
     file_fault := λ _, None; sleep_fault := λ _, None;
     api_log := []; stdout := []; sleeps := [] |}.

(** The same installation with a profile table whose only key is the empty
    name, and with no profile table at all. *)
Definition unnamed_profile_generator : Generator :=
  {| project_root := "/srv/tts";
     config :=
       {| elevenlabs := elevenlabs example_config;
          voice_profiles :=
            Some {[ "" := {| profile_voice_id := Some "X1" |} ]};
          paths := paths example_config |};
     client := Some {| client_key := "sk-example" |} |}.

Definition no_profiles_generator : Generator :=
  {| project_root := "/srv/tts";
     config :=
       {| elevenlabs := elevenlabs example_config;
          voice_profiles := None;
          paths := paths example_config |};
     client := Some {| client_key := "sk-example" |} |}.

(** The record of the example of the specification, and two more: one with
    an empty title and no description, one with a title only. *)
Definition record_1 : gmap string pyval :=
  {[ "quest_id" := PInt 1; "title" := PStr "A"; "description" := PStr "B" ]}.
Definition record_2 : gmap string pyval :=
  {[ "quest_id" := PInt 2; "title" := PStr "" ]}.
Definition record_3 : gmap string pyval :=
  {[ "quest_id" := PInt 3; "title" := PStr "C" ]}.

(** What the platform refuses is the same. *)
Definition same_faults (w w' : World) : Prop :=
  sleep_fault w' = sleep_fault w ∧ file_fault w' = file_fault w.

(** The list of waits is the same. *)
Definition same_sleeps (w w' : World) : Prop := sleeps w' = sleeps w.

(** The input files are the same. *)
Definition same_inputs (w w' : World) : Prop :=
  quests_file w' = quests_file w ∧ export_file w' = export_file w.

(** The world after the lines have been printed. *)
Definition print_lines (lines : list string) (w : World) : World :=
  foldl (λ w0 line, add_stdout line w0) w lines.

(** The line the preview of a dry run prints for a quest. *)
Definition preview_line (q : Quest) : string :=
  "  - Quest " +:+ py_str (quest_id q) +:+ ": "
  +:+ py_prefix 50 (py_str (title q)) +:+ "...".

(** The output directory is there. *)
Definition dir_present (w : World) : Prop :=
  ∃ files, audio_dir w = DirPresent files.

(** An output directory that is there stays. *)
Definition dir_stays (w w' : World) : Prop := dir_present w → dir_present w'.

(** The installation with the key of the settings template. *)
Definition template_config : Config :=
  {| elevenlabs := {| api_key := "YOUR_ELEVENLABS_API_KEY_HERE";
                      voice_id := Some "D0";
                      model_id := Some "eleven_multilingual_v2";
                      voice_settings := Some "{}" |};
     voice_profiles := voice_profiles example_config;
     paths := paths example_config |}.



(** A record whose text is made of whitespace: a space, a tab, the
    separator U+001C and a no-break space. *)
Definition record_2w : gmap string pyval :=
  {[ "quest_id" := PInt 2; "title" := PStr "";
     "description" :=
       PStr (String " " (String "009" (String "028" (String "160" "")))) ]}.

(** A record whose title is [null]. *)
Definition record_4n : gmap string pyval :=
  {[ "quest_id" := PInt 4; "title" := PNone; "description" := PStr "D" ]}.

(** The first line of the preview of a dry run, and the line after the
    twenty quests it shows. *)
Definition preview_header : string :=
  nl +:+ "[DRY-RUN] Folgende Quests w" +:+ u_umlaut +:+ "rden verarbeitet:".

Definition preview_rest (quests : list Quest) : list string :=
  if (20 <? length quests)%nat
  then ["  ... und " +:+ str_of_nat (length quests - 20) +:+ " weitere"]
  else [].

(** A record whose id is the string "7", as a JSON file may have it. *)
Definition record_7s : gmap string pyval :=
  {[ "quest_id" := PStr "7"; "title" := PStr "G" ]}.

Example tts_text_A_B :
  tts_text (from_dict {[ "quest_id" := PInt 1; "title" := PStr "A";
                         "description" := PStr "B" ]}) = PStr "A. B".
Proof. vm_compute. reflexivity. Qed.

Example py_int_examples :
  py_int "12" = Some 12 ∧ py_int " -7 " = Some (-7) ∧ py_int "1_000" = Some 1000
  ∧ py_int "1__0" = None ∧ py_int "" = None ∧ py_int "abc" = None
  ∧ py_int "+" = None ∧ py_int "007" = Some 7 ∧ str_of_int (-40) = "-40"
  ∧ py_replace "quest_" "" "quest_quest_5" = "5"
  ∧ path_stem "quest_1.mp3" = "quest_1" ∧ path_stem ".mp3" = ".mp3"
  ∧ path_stem "quest_1." = "quest_1." ∧ path_stem "a.b.c" = "a.b"
  ∧ glob_star "quest_" ".mp3" "quest_.mp3" = true
  ∧ glob_star "quest_" ".mp3" "quest.mp3" = false.
Proof. vm_compute. repeat split; reflexivity. Qed.

(** * Properties *)

(** ** Reasoning about runs *)

Lemma bind_run {A B : Type} (m : M A) (f : A → M B) (w : World) :
  (m ≫= f) w = match m w with
               | (Ok a, w') => f a w'
               | (Raise e, w') => (Raise e, w')
               end.
Proof. reflexivity. Qed.

Lemma bind_inv {A B : Type} (m : M A) (f : A → M B) w r w' :
  (m ≫= f) w = (r, w') →
  (∃ a w1, m w = (Ok a, w1) ∧ f a w1 = (r, w'))
  ∨ (∃ e, m w = (Raise e, w') ∧ r = Raise e).
Proof.
  rewrite bind_run. destruct (m w) as [[a|e] w1]; intros H.
  - left. eauto.
  - right. inversion H; subst. eauto.
Qed.

Lemma unfold_M_ret {A : Type} (a : A) (w : World) :
  @mret M _ A a w = (Ok a, w).
Proof. reflexivity. Qed.

Section keeps.
Context (R : relation World) `{!PreOrder R}.

Lemma keeps_ret {A : Type} (a : A) : keeps R (mret a).
Proof. intros w r w' H. inversion H; subst. reflexivity. Qed.

Lemma keeps_raise {A : Type} (e : exn) : keeps R (@raise A e).
Proof. intros w r w' H. inversion H; subst. reflexivity. Qed.

Lemma keeps_get_world : keeps R get_world.
Proof. intros w r w' H. inversion H; subst. reflexivity. Qed.

Lemma keeps_bind {A B : Type} (m : M A) (f : A → M B) :
  keeps R m → (∀ a, keeps R (f a)) → keeps R (m ≫= f).
Proof.
  intros Hm Hf w r w' H.
  destruct (bind_inv _ _ _ _ _ H) as [(a & w1 & H1 & H2)|(e & H1 & _)].
  - transitivity w1; [exact (Hm _ _ _ H1) | exact (Hf _ _ _ _ H2)].
  - exact (Hm _ _ _ H1).
Qed.

Lemma keeps_try {A : Type} (body : M A) (handler : exn → M A) :
  keeps R body → (∀ e, keeps R (handler e)) →
  keeps R (try_except body handler).
Proof.
  intros Hb Hh w r w' H. unfold try_except in H.
  destruct (body w) as [[a|e] w1] eqn:E.
  - inversion H; subst. exact (Hb _ _ _ E).
  - transitivity w1; [exact (Hb _ _ _ E) | exact (Hh _ _ _ _ H)].
Qed.

Lemma keeps_subscript {A : Type} key (o : option A) :
  keeps R (subscript key o).
Proof. destruct o; [apply keeps_ret | apply keeps_raise]. Qed.

Lemma keeps_modify (f : World → World) :
  (∀ w, R w (f w)) → keeps R (modify_world f).
Proof. intros Hf w r w' H. inversion H; subst. apply Hf. Qed.

Lemma keeps_glob_audio_dir : keeps R glob_audio_dir.
Proof. intros w r w' H. inversion H; subst. reflexivity. Qed.

Lemma keeps_config_path_of self key field :
  keeps R (config_path_of self key field).
Proof.
  unfold config_path_of.
  repeat (apply keeps_bind; [apply keeps_subscript | intros ?]).
  apply keeps_ret.
Qed.
End keeps.

#[local] Instance quiet_preorder : PreOrder quiet.
Proof.
  split.
  - intros w. split; reflexivity.
  - intros w1 w2 w3 [H1 H2] [H3 H4]. split; congruence.
Qed.

#[local] Instance log_grows_preorder P : PreOrder (log_grows P).
Proof.
  split.
  - intros w. exists []. split; [by rewrite app_nil_r | constructor].
  - intros w1 w2 w3 (n1 & H1 & F1) (n2 & H2 & F2). exists (n1 ++ n2)%list.
    split; [by rewrite H2, H1, app_assoc | by apply Forall_app].
Qed.

#[local] Instance files_stay_preorder : PreOrder files_stay.
Proof.
  split.
  - intros w. unfold files_stay. set_solver.
  - intros w1 w2 w3. unfold files_stay. set_solver.
Qed.

(** The steps that only print or wait relate the worlds by each of the three
    relations. *)
Section quiet_steps.
Context (R : relation World) `{!PreOrder R}.
Hypothesis R_stdout : ∀ line w, R w (add_stdout line w).
Hypothesis R_sleep : ∀ delay w, R w (add_sleep delay w).
Hypothesis R_mkdir : ∀ w, R w (set_audio_dir (DirPresent ∅) w) ∨ audio_dir w ≠ DirAbsent.

Lemma keeps_print line : keeps R (print line).
Proof. apply (keeps_modify R); auto. Qed.

Lemma keeps_sleep delay : keeps R (sleep delay).
Proof.
  intros w r w' H. unfold sleep in H.
  destruct (sleep_error w delay); inversion H; subst;
    [reflexivity | apply R_sleep].
Qed.

Lemma keeps_mkdir : keeps R mkdir_audio_dir.
Proof.
  intros w r w' H. unfold mkdir_audio_dir in H.
  destruct (audio_dir w) eqn:E; inversion H; subst; try reflexivity.
  destruct (R_mkdir w) as [?|?]; [done | congruence].
Qed.

Lemma keeps_load_quests self : keeps R (load_quests self).
Proof.
  unfold load_quests.
  apply (keeps_bind R); [apply (keeps_config_path_of R); done | intros ?].
  apply (keeps_bind R); [apply (keeps_get_world R); done | intros w0].
  destruct (quests_file w0); [apply (keeps_ret R) | apply (keeps_raise R)]; done.
Qed.

Lemma keeps_load_batch_export self : keeps R (load_batch_export self).
Proof.
  unfold load_batch_export.
  apply (keeps_bind R); [apply (keeps_config_path_of R); done | intros ?].
  apply (keeps_bind R); [apply (keeps_get_world R); done | intros w0].
  destruct (export_file w0); [apply (keeps_ret R) | apply (keeps_raise R)]; done.
Qed.

Lemma keeps_load_selected self quest_ids from_export :
  keeps R (load_selected self quest_ids from_export).
Proof.
  unfold load_selected. destruct from_export.
  - apply (keeps_bind R); [apply keeps_load_batch_export | intros ?].
    apply (keeps_bind R); [apply keeps_print | intros ?]. by apply (keeps_ret R).
  - apply (keeps_bind R); [apply keeps_load_quests | intros ?].
    apply (keeps_bind R); [apply keeps_print | intros ?]. by apply (keeps_ret R).
Qed.

Lemma keeps_get_existing self : keeps R (get_existing_audio_files self).
Proof.
  unfold get_existing_audio_files.
  apply (keeps_bind R); [by apply (keeps_config_path_of R) | intros ?].
  apply (keeps_bind R); [apply keeps_mkdir | intros ?].
  apply (keeps_bind R); [by apply (keeps_glob_audio_dir R) | intros ?].
  by apply (keeps_ret R).
Qed.

Lemma keeps_filter_existing self skip_existing quests :
  keeps R (filter_existing self skip_existing quests).
Proof.
  unfold filter_existing. destruct skip_existing; [| by apply (keeps_ret R)].
  apply (keeps_bind R); [apply keeps_get_existing | intros ?].
  apply (keeps_bind R); [apply keeps_print | intros ?]. by apply (keeps_ret R).
Qed.

Lemma keeps_preview_loop quests : keeps R (preview_loop quests).
Proof.
  induction quests as [|q rest IH]; simpl; [by apply (keeps_ret R) |].
  apply (keeps_bind R).
  { unfold title_prefix. destruct (title q);
      (apply (keeps_ret R) || apply (keeps_raise R)). }
  intros ?. apply (keeps_bind R); [apply keeps_print | intros ?]. exact IH.
Qed.
End quiet_steps.

(** ** What one [generate_audio] does to the world *)

Lemma keeps_bind_dep (R : relation World) `{!PreOrder R} {A B : Type}
    (m : M A) (f : A → M B) :
  keeps R m → (∀ a w w1, m w = (Ok a, w1) → keeps R (f a)) →
  keeps R (m ≫= f).
Proof.
  intros Hm Hf w r w' H.
  destruct (bind_inv _ _ _ _ _ H) as [(a & w1 & H1 & H2)|(e & H1 & _)].
  - transitivity w1; [exact (Hm _ _ _ H1) | exact (Hf _ _ _ H1 _ _ _ H2)].
  - exact (Hm _ _ _ H1).
Qed.

(** The lookups of [resolve_voice] leave the world as it is. *)
Lemma resolve_voice_pure self voice_profile :
  ∃ r, ∀ w, resolve_voice self voice_profile w = (r, w).
Proof.
  unfold resolve_voice, subscript.
  destruct voice_profile as [name|]; [destruct (negb (String.eqb name ""))|].
  - destruct (voice_profiles (config self)) as [table|];
      [|eexists; intros w; reflexivity].
    destruct (table !! name) as [[[v|]]|] eqn:E;
      try (eexists; intros w; rewrite bind_run, unfold_M_ret, E; reflexivity).
    destruct (voice_id (elevenlabs (config self)));
      eexists; intros w; rewrite bind_run, unfold_M_ret, E; reflexivity.
  - destruct (voice_id (elevenlabs (config self)));
      eexists; intros w; reflexivity.
  - destruct (voice_id (elevenlabs (config self)));
      eexists; intros w; reflexivity.
Qed.

Section render_steps.
Context (R : relation World) `{!PreOrder R}.
Context (calls : Quest * ApiCall → Prop).
Hypothesis R_stdout : ∀ line w, R w (add_stdout line w).
Hypothesis R_sleep : ∀ delay w, R w (add_sleep delay w).
Hypothesis R_mkdir :
  ∀ w, R w (set_audio_dir (DirPresent ∅) w) ∨ audio_dir w ≠ DirAbsent.
Hypothesis R_call : ∀ entry w, calls entry → R w (add_api_log entry w).
Hypothesis R_write : ∀ name content files w,
  audio_dir w = DirPresent files →
  R w (set_audio_dir (DirPresent (<[name := content]> files)) w).

Lemma keeps_resolve_voice self voice_profile :
  keeps R (resolve_voice self voice_profile).
Proof.
  destruct (resolve_voice_pure self voice_profile) as [r0 Hr].
  intros w r w' H. rewrite Hr in H. inversion H; subst. reflexivity.
Qed.

Lemma keeps_convert quest call :
  calls (quest, call) → keeps R (convert quest call).
Proof.
  intros Hc w r w' H. unfold convert in H.
  destruct (service w (length (api_log w)) call);
    inversion H; subst; by apply R_call.
Qed.

Lemma keeps_write_file name chunks : keeps R (write_file name chunks).
Proof.
  intros w r w' H. unfold write_file in H.
  destruct (audio_dir w) eqn:E; try (inversion H; subst; reflexivity).
  destruct (plain_file_name name); [|inversion H; subst; reflexivity].
  destruct (file_fault w name) as [[e|kept e]|]; inversion H; subst;
    [reflexivity | by apply R_write | by apply R_write].
Qed.

Lemma keeps_synthesize self quest voice text output_path :
  (∀ model settings,
      calls (quest, {| call_voice_id := voice; call_text := text;
                       call_model_id := model;
                       call_voice_settings := settings |})) →
  keeps R (synthesize self quest voice text output_path).
Proof.
  intros Hc. unfold synthesize. apply (keeps_try R).
  - apply (keeps_bind R); [apply (keeps_subscript R) | intros model].
    apply (keeps_bind R); [apply (keeps_subscript R) | intros settings].
    apply (keeps_bind R); [apply keeps_convert, Hc | intros audio].
    apply (keeps_bind R); [apply keeps_write_file | intros ?].
    destruct (audio.2); [apply (keeps_raise R) | apply (keeps_ret R)].
  - intros e. apply (keeps_bind R); [by apply keeps_print | intros ?].
    apply (keeps_ret R).
Qed.

Lemma keeps_generate_audio self quest voice_profile :
  (∀ call w,
      blank_text quest = false →
      tts_text quest = PStr (call_text call) →
      resolve_voice self voice_profile w = (Ok (call_voice_id call), w) →
      calls (quest, call)) →
  keeps R (generate_audio self quest voice_profile).
Proof.
  intros Hc. unfold generate_audio. destruct (client self) as [c|].
  2:{ apply (keeps_bind R); [by apply keeps_print | intros ?].
      apply (keeps_ret R). }
  unfold blank_text in Hc.
  apply (keeps_bind_dep R).
  { unfold strip_method.
    destruct (tts_text quest); (apply (keeps_ret R) || apply (keeps_raise R)). }
  intros stripped w0 w1 Hs.
  destruct (tts_text quest) as [| | |s] eqn:Et; try discriminate Hs.
  injection Hs as <- _. simpl.
  destruct (String.eqb (py_strip s) "") eqn:Es.
  { apply (keeps_bind R); [by apply keeps_print | intros ?].
    apply (keeps_ret R). }
  unfold render.
  apply (keeps_bind_dep R); [apply keeps_resolve_voice | intros voice w w2 Hv].
  apply (keeps_bind R); [apply (keeps_config_path_of R) | intros dir].
  apply (keeps_bind R); [by apply keeps_mkdir | intros ?].
  apply keeps_synthesize. intros model settings.
  destruct (resolve_voice_pure self voice_profile) as [r0 Hr].
  apply (Hc _ w); simpl; [done | done |].
  rewrite Hr in Hv |- *. by inversion Hv.
Qed.

Lemma keeps_batch_loop self voice_profile delay quests :
  (∀ quest call w,
      quest ∈ quests →
      blank_text quest = false →
      tts_text quest = PStr (call_text call) →
      resolve_voice self voice_profile w = (Ok (call_voice_id call), w) →
      calls (quest, call)) →
  ∀ successful failed,
    keeps R (batch_loop self voice_profile delay quests successful failed).
Proof.
  induction quests as [|quest rest IH]; intros Hc successful failed; simpl.
  { apply (keeps_ret R). }
  apply (keeps_bind R).
  { apply keeps_generate_audio. intros call w. apply Hc. left. }
  intros result. apply (keeps_bind R); [by apply keeps_sleep | intros ?].
  apply IH. intros q call w Hq. apply Hc. by right.
Qed.
End render_steps.

Section dry_run_steps.
Context (R : relation World) `{!PreOrder R}.
Hypothesis R_stdout : ∀ line w, R w (add_stdout line w).
Hypothesis R_mkdir :
  ∀ w, R w (set_audio_dir (DirPresent ∅) w) ∨ audio_dir w ≠ DirAbsent.

Lemma keeps_dispatch_dry_run self voice_profile delay quests :
  keeps R (dispatch self true voice_profile delay quests).
Proof.
  unfold dispatch. destruct quests as [|q rest].
  { apply (keeps_bind R); [by apply keeps_print | intros ?].
    apply (keeps_ret R). }
  apply (keeps_bind R); [by apply keeps_print | intros ?].
  apply (keeps_bind R); [by apply keeps_preview_loop | intros ?].
  apply (keeps_bind R); [| intros ?; apply (keeps_ret R)].
  destruct (20 <? length (q :: rest))%nat;
    [by apply keeps_print | apply (keeps_ret R)].
Qed.

Lemma keeps_run_batch_dry_run self quest_ids from_export skip_existing
    voice_profile delay :
  keeps R (run_batch self quest_ids from_export skip_existing true
                     voice_profile delay).
Proof.
  unfold run_batch.
  apply (keeps_bind R); [by apply keeps_load_selected | intros loaded].
  apply (keeps_bind R); [by apply keeps_filter_existing | intros quests].
  apply keeps_dispatch_dry_run.
Qed.
End dry_run_steps.

Section run_steps.
Context (R : relation World) `{!PreOrder R}.
Context (calls : Quest * ApiCall → Prop).
Hypothesis R_stdout : ∀ line w, R w (add_stdout line w).
Hypothesis R_sleep : ∀ delay w, R w (add_sleep delay w).
Hypothesis R_mkdir :
  ∀ w, R w (set_audio_dir (DirPresent ∅) w) ∨ audio_dir w ≠ DirAbsent.
Hypothesis R_call : ∀ entry w, calls entry → R w (add_api_log entry w).
Hypothesis R_write : ∀ name content files w,
  audio_dir w = DirPresent files →
  R w (set_audio_dir (DirPresent (<[name := content]> files)) w).

Lemma keeps_dispatch self dry_run voice_profile delay quests :
  (∀ quest call w,
      quest ∈ quests →
      blank_text quest = false →
      tts_text quest = PStr (call_text call) →
      resolve_voice self voice_profile w = (Ok (call_voice_id call), w) →
      calls (quest, call)) →
  keeps R (dispatch self dry_run voice_profile delay quests).
Proof.
  intros Hc. destruct dry_run; [by apply keeps_dispatch_dry_run |].
  unfold dispatch. destruct quests as [|q rest].
  { apply (keeps_bind R); [by apply keeps_print | intros ?].
    apply (keeps_ret R). }
  apply (keeps_bind R); [by apply keeps_print | intros ?].
  apply (keeps_bind R); [by apply (keeps_batch_loop R calls) | intros ?].
  apply (keeps_bind R); [by apply keeps_print | intros ?].
  apply (keeps_ret R).
Qed.

Lemma keeps_run_batch self quest_ids from_export skip_existing dry_run
    voice_profile delay :
  (∀ quest call w,
      blank_text quest = false →
      tts_text quest = PStr (call_text call) →
      resolve_voice self voice_profile w = (Ok (call_voice_id call), w) →
      calls (quest, call)) →
  keeps R (run_batch self quest_ids from_export skip_existing dry_run
                     voice_profile delay).
Proof.
  intros Hc. unfold run_batch.
  apply (keeps_bind R); [by apply keeps_load_selected | intros loaded].
  apply (keeps_bind R); [by apply keeps_filter_existing | intros quests].
  apply keeps_dispatch. intros quest call w _. apply Hc.
Qed.
End run_steps.

(** The three relations have the properties the sections above ask for. *)

Lemma quiet_stdout line w : quiet w (add_stdout line w).
Proof. by split. Qed.

Lemma quiet_sleep delay w : quiet w (add_sleep delay w).
Proof. by split. Qed.

Lemma quiet_mkdir w :
  quiet w (set_audio_dir (DirPresent ∅) w) ∨ audio_dir w ≠ DirAbsent.
Proof.
  destruct (audio_dir w) eqn:E; [left | by right | by right].
  split; simpl; [done | by rewrite E].
Qed.

Lemma log_grows_stdout P line w : log_grows P w (add_stdout line w).
Proof. exists []. simpl. by rewrite app_nil_r. Qed.

Lemma log_grows_sleep P delay w : log_grows P w (add_sleep delay w).
Proof. exists []. simpl. by rewrite app_nil_r. Qed.

Lemma log_grows_set_dir P d w : log_grows P w (set_audio_dir d w).
Proof. exists []. simpl. by rewrite app_nil_r. Qed.

Lemma log_grows_call (P : Quest * ApiCall → Prop) entry w :
  P entry → log_grows P w (add_api_log entry w).
Proof. intros H. exists [entry]. simpl. split; [done | by constructor]. Qed.

Lemma files_stay_stdout line w : files_stay w (add_stdout line w).
Proof. by unfold files_stay. Qed.

Lemma files_stay_sleep delay w : files_stay w (add_sleep delay w).
Proof. by unfold files_stay. Qed.

Lemma files_stay_call entry w : files_stay w (add_api_log entry w).
Proof. by unfold files_stay. Qed.

Lemma files_stay_mkdir w :
  files_stay w (set_audio_dir (DirPresent ∅) w) ∨ audio_dir w ≠ DirAbsent.
Proof.
  destruct (audio_dir w) eqn:E; [left | by right | by right].
  unfold files_stay. simpl. rewrite E. simpl. set_solver.
Qed.

Lemma files_stay_write name content files w :
  audio_dir w = DirPresent files →
  files_stay w (set_audio_dir (DirPresent (<[name := content]> files)) w).
Proof.
  intros E. unfold files_stay. simpl. rewrite E. simpl.
  rewrite dom_insert_L. set_solver.
Qed.

(** ** The stages of [run_batch] *)

Lemma run_batch_stages self quest_ids from_export skip_existing dry_run
    voice_profile delay w :
  run_batch self quest_ids from_export skip_existing dry_run voice_profile
            delay w
  = (selected_quests self quest_ids from_export skip_existing
     ≫= dispatch self dry_run voice_profile delay) w.
Proof.
  unfold run_batch, selected_quests. rewrite !bind_run.
  destruct (load_selected self quest_ids from_export w) as [[loaded|e] w1];
    [|reflexivity].
  rewrite bind_run. reflexivity.
Qed.

Lemma new_calls_app w w' new :
  api_log w' = (api_log w ++ new)%list → new_calls w w' = new.
Proof. intros H. unfold new_calls. rewrite H. apply drop_app_length. Qed.

(** ** Dry run *)

(** C4: a [run_batch] with [dry_run] set makes no call to the remote service
    and leaves the files of the output directory as they were, whatever the
    quests and the other options are. *)
Theorem dry_run_calls_nothing_writes_nothing self quest_ids from_export
    skip_existing voice_profile delay w :
  let w' := (run_batch self quest_ids from_export skip_existing true
                       voice_profile delay w).2 in
  api_log w' = api_log w
  ∧ dir_files (audio_dir w') = dir_files (audio_dir w).
Proof.
  intros w'.
  apply (keeps_run_batch_dry_run quiet quiet_stdout quiet_mkdir self quest_ids
           from_export skip_existing voice_profile delay w
           (run_batch self quest_ids from_export skip_existing true
                      voice_profile delay w).1).
  apply surjective_pairing.
Qed.

(** ** Strings *)

Lemma text_of_chars s : text_of (chars s) = s.
Proof. apply string_of_list_ascii_of_string. Qed.

Lemma chars_text_of l : chars (text_of l) = l.
Proof. apply list_ascii_of_string_of_list_ascii. Qed.

Lemma chars_app s1 s2 : chars (s1 +:+ s2) = (chars s1 ++ chars s2)%list.
Proof. induction s1 as [|c s1 IH]; simpl; [done | by rewrite <- IH]. Qed.

Lemma text_of_nil_iff l : text_of l = "" ↔ l = [].
Proof. destruct l; simpl; split; congruence. Qed.

Lemma lstrip_nil_iff l : lstrip l = [] ↔ Forall (λ c, isspace c = true) l.
Proof.
  induction l as [|c l IH]; simpl; [by split |].
  destruct (isspace c) eqn:E.
  - rewrite IH. split; [by constructor | by inversion 1].
  - split; [done | inversion 1; congruence].
Qed.

Lemma lstrip_head l :
  lstrip l = [] ∨ ∃ c r, lstrip l = c :: r ∧ isspace c = false.
Proof.
  induction l as [|c l IH]; simpl; [by left |].
  destruct (isspace c) eqn:E; [exact IH | right; eauto].
Qed.

(** [s.strip()] is empty exactly when every character of [s] is whitespace. *)
Lemma strip_nil_iff l :
  rstrip (lstrip l) = [] ↔ Forall (λ c, isspace c = true) l.
Proof.
  unfold rstrip. split.
  - intros H. apply (f_equal (@rev ascii)) in H. rewrite rev_involutive in H.
    simpl in H. apply lstrip_nil_iff in H.
    apply lstrip_nil_iff.
    destruct (lstrip_head l) as [?|(c & r & Hc & Hs)]; [done |].
    rewrite Hc in H. apply Forall_forall with (x := c) in H; [congruence |].
    apply list_elem_of_In, in_rev. rewrite rev_involutive. by left.
  - intros H. apply lstrip_nil_iff in H. rewrite H. reflexivity.
Qed.

Lemma py_strip_empty_iff s :
  py_strip s = "" ↔ Forall (λ c, isspace c = true) (chars s).
Proof. unfold py_strip. by rewrite text_of_nil_iff, strip_nil_iff. Qed.

Lemma strip_unchanged l :
  Forall (λ c, isspace c = false) l → rstrip (lstrip l) = l.
Proof.
  assert (∀ k, Forall (λ c, isspace c = false) k → lstrip k = k) as Hl.
  { intros [|c k] H; [done |]. simpl. inversion H; subst. by rewrite H2. }
  intros H. unfold rstrip. rewrite (Hl l H), Hl, rev_involutive; [done |].
  apply Forall_forall. intros c Hc. apply (proj1 (Forall_forall _ _) H).
  apply list_elem_of_In, in_rev, list_elem_of_In in Hc. exact Hc.
Qed.

(** ** Quests without text *)

Lemma generate_audio_blank self quest voice_profile w :
  blank_text quest = true →
  ∃ line, generate_audio self quest voice_profile w
          = (Ok None, add_stdout line w).
Proof.
  unfold blank_text, generate_audio. intros Hb.
  destruct (client self); [|by eexists].
  destruct (tts_text quest) as [| | |s]; try discriminate Hb.
  rewrite bind_run. simpl. rewrite Hb. by eexists.
Qed.

Lemma batch_loop_counters self voice_profile delay quests :
  ∀ s0 f0 w s f w',
    batch_loop self voice_profile delay quests s0 f0 w = (Ok (s, f), w') →
    (s + f = s0 + f0 + length quests)%nat
    ∧ (f0 + length (filter (λ q, blank_text q = true) quests) ≤ f)%nat
    ∧ (s ≤ s0 + length (filter (λ q, blank_text q = false) quests))%nat.
Proof.
  induction quests as [|q rest IH]; intros s0 f0 w s f w' H; simpl in H.
  { inversion H; subst. simpl. lia. }
  apply bind_inv in H as [(result & w1 & Hg & H)|(e & _ & ?)]; [|done].
  apply bind_inv in H as [([] & w2 & _ & H)|(e & _ & ?)]; [|done].
  apply IH in H as (H1 & H2 & H3).
  rewrite !filter_cons. destruct (blank_text q) eqn:Hb.
  - destruct (generate_audio_blank self q voice_profile w Hb) as [line Hl].
    rewrite Hl in Hg. inversion Hg; subst.
    repeat case_decide; try done. simpl in *. lia.
  - repeat case_decide; try done. destruct result; simpl in *; lia.
Qed.

Lemma dispatch_completed self dry_run voice_profile delay quests w s f w' :
  dispatch self dry_run voice_profile delay quests w = (Ok (Completed s f), w') →
  (s + f = length quests)%nat
  ∧ (length (filter (λ q, blank_text q = true) quests) ≤ f)%nat
  ∧ (s ≤ length (filter (λ q, blank_text q = false) quests))%nat.
Proof.
  unfold dispatch. intros H. destruct quests as [|q rest].
  { apply bind_inv in H as [(? & ? & _ & H)|(e & _ & ?)]; [|done].
    inversion H. }
  destruct dry_run.
  { repeat (apply bind_inv in H as [(? & ? & _ & H)|(e & _ & ?)]; [|done]).
    inversion H. }
  apply bind_inv in H as [(? & ? & _ & H)|(e & _ & ?)]; [|done].
  apply bind_inv in H as [([s1 f1] & w2 & Hl & H)|(e & _ & ?)]; [|done].
  apply bind_inv in H as [(? & ? & _ & H)|(e & _ & ?)]; [|done].
  inversion H; subst. simpl.
  apply batch_loop_counters in Hl. simpl in Hl. lia.
Qed.

Lemma blank_text_iff quest :
  blank_text quest = true
  ↔ ∃ s, tts_text quest = PStr s ∧ Forall (λ c, isspace c = true) (chars s).
Proof.
  unfold blank_text. destruct (tts_text quest) as [| |z|s].
  - split; [done | by intros (s & ? & _)].
  - split; [done | by intros (s & ? & _)].
  - split; [done | by intros (s & ? & _)].
  - rewrite String.eqb_eq, py_strip_empty_iff. split.
    + intros H. by exists s.
    + by intros (s' & [= <-] & H).
Qed.

Lemma dispatch_completed_summary self dry_run voice_profile delay quests w s
    f w' :
  dispatch self dry_run voice_profile delay quests w
  = (Ok (Completed s f), w') →
  last (stdout w') = Some (summary_line s f).
Proof.
  unfold dispatch. intros H. destruct quests as [|q rest].
  { apply bind_inv in H as [(? & ? & _ & H)|(e & _ & ?)]; [|done].
    inversion H. }
  destruct dry_run.
  { repeat (apply bind_inv in H as [(? & ? & _ & H)|(e & _ & ?)]; [|done]).
    inversion H. }
  apply bind_inv in H as [(? & ? & _ & H)|(e & _ & ?)]; [|done].
  apply bind_inv in H as [([s1 f1] & w2 & _ & H)|(e & _ & ?)]; [|done].
  inversion H; subst. simpl. apply last_snoc.
Qed.

(** C3: a quest whose derived text is empty or made of whitespace only is
    not sent to the remote service: [generate_audio] returns [None] for it
    without a call, no call of a [run_batch] is for such a quest, and when
    [run_batch] reaches its summary, the last line it prints gives the two
    counters, where every such quest among those processed is in the
    number of the failed and none is in the number of the successful.  The
    test of the code, [not text.strip()], holds exactly for a text all of
    whose characters are whitespace. *)
Theorem blank_text_not_sent_and_counted_failed self quest_ids from_export
    skip_existing dry_run voice_profile delay w :
  (∀ quest,
     blank_text quest = true
     ↔ ∃ s, tts_text quest = PStr s
            ∧ Forall (λ c, isspace c = true) (chars s))
  ∧ (∀ quest s w0,
       tts_text quest = PStr s → Forall (λ c, isspace c = true) (chars s) →
       (generate_audio self quest voice_profile w0).1 = Ok None
       ∧ api_log (generate_audio self quest voice_profile w0).2 = api_log w0)
  ∧ Forall (λ entry,
              ¬ ∃ s, tts_text entry.1 = PStr s
                     ∧ Forall (λ c, isspace c = true) (chars s))
           (new_calls w (run_batch self quest_ids from_export skip_existing
                                   dry_run voice_profile delay w).2)
  ∧ ∀ successful failed,
      (run_batch self quest_ids from_export skip_existing dry_run
                 voice_profile delay w).1 = Ok (Completed successful failed) →
      last (stdout (run_batch self quest_ids from_export skip_existing
                              dry_run voice_profile delay w).2)
      = Some (nl +:+ "Abgeschlossen: " +:+ str_of_nat successful
              +:+ " erfolgreich, " +:+ str_of_nat failed
              +:+ " fehlgeschlagen")
      ∧ ∃ quests w1,
          selected_quests self quest_ids from_export skip_existing w
          = (Ok quests, w1)
          ∧ (successful + failed = length quests)%nat
          ∧ (length (filter (λ q, blank_text q = true) quests) ≤ failed)%nat
          ∧ (successful
             ≤ length (filter (λ q, blank_text q = false) quests))%nat.
Proof.
  split; [apply blank_text_iff |]. split; [|split].
  - intros quest s w0 Ht Hs.
    assert (blank_text quest = true) as Hb
      by (apply blank_text_iff; by exists s).
    destruct (generate_audio_blank self quest voice_profile w0 Hb) as [l ->].
    by split.
  - set (run := run_batch _ _ _ _ _ _ _ w).
    assert (log_grows (λ entry, blank_text entry.1 = false) w run.2)
      as (new & Hnew & Hall).
    { apply (keeps_run_batch (log_grows (λ entry, blank_text entry.1 = false))
               (λ entry, blank_text entry.1 = false)
               (log_grows_stdout _) (log_grows_sleep _)
               (λ w, or_introl (log_grows_set_dir _ _ w))
               (log_grows_call _)
               (λ name content files w _, log_grows_set_dir _ _ w)
               self quest_ids from_export skip_existing dry_run voice_profile
               delay) with (r := run.1) (w := w).
      - intros quest call w0 Hb _ _. exact Hb.
      - apply surjective_pairing. }
    rewrite (new_calls_app _ _ _ Hnew).
    eapply Forall_impl; [exact Hall |]. intros entry Hb Hw.
    apply blank_text_iff in Hw. congruence.
  - intros s f H. rewrite run_batch_stages, bind_run in H |- *.
    destruct (selected_quests self quest_ids from_export skip_existing w)
      as [[quests|e] w1]; [|done].
    assert (dispatch self dry_run voice_profile delay quests w1
            = (Ok (Completed s f),
               (dispatch self dry_run voice_profile delay quests w1).2))
      as Hd.
    { rewrite (surjective_pairing (dispatch _ _ _ _ _ _)). f_equal. exact H. }
    split; [exact (dispatch_completed_summary _ _ _ _ _ _ _ _ _ Hd) |].
    exists quests, w1. split; [done |].
    exact (dispatch_completed _ _ _ _ _ _ _ _ _ Hd).
Qed.

Lemma blank_text_not_sent_and_counted_failed_witness :
  let w := example_world [record_1; record_2w; record_3] in
  let out := run_batch example_generator None false true false
                       (Some "epic_narrator") (1 # 2) w in
  (generate_audio example_generator (from_dict record_2w)
                  (Some "epic_narrator") w).1 = Ok None
  ∧ (new_calls w out.2).*1 = [from_dict record_1; from_dict record_3]
  ∧ last (stdout out.2)
    = Some (nl +:+ "Abgeschlossen: 2 erfolgreich, 1 fehlgeschlagen").
Proof.
  intros w out.
  destruct (blank_text_not_sent_and_counted_failed example_generator None
              false true false (Some "epic_narrator") (1 # 2) w)
    as (_ & Hnone & _ & Hsum).
  split.
  { apply (Hnone (from_dict record_2w)
                 (String " " (String "009" (String "028" (String "160" ""))))
                 w); [reflexivity |].
    repeat constructor. }
  split; [vm_compute; reflexivity |].
  destruct (Hsum 2%nat 1%nat) as [Hlast _]; [vm_compute; reflexivity |].
  exact Hlast.
Defined.

(** ** The scanner of the output directory *)

Lemma scan_files_spec names : ∀ acc z,
  z ∈ foldl scan_file acc names
  ↔ z ∈ acc
    ∨ ∃ name, name ∈ names
              ∧ py_int (py_replace "quest_" "" (path_stem name)) = Some z.
Proof.
  induction names as [|name rest IH]; intros acc z; simpl.
  { split; [by left | intros [H|(n & Hn & _)]; [done | by inversion Hn]]. }
  rewrite IH. unfold scan_file at 1.
  destruct (py_int (py_replace "quest_" "" (path_stem name))) as [id|] eqn:E.
  - rewrite elem_of_union, elem_of_singleton. split.
    + intros [[H| ->]|(n & Hn & Hz)]; [by left | | ].
      * right. exists name. split; [left | done].
      * right. exists n. split; [by right | done].
    + intros [H|(n & Hn & Hz)]; [by left; left |].
      apply elem_of_cons in Hn as [->|Hn].
      * left. right. congruence.
      * right. by exists n.
  - split.
    + intros [H|(n & Hn & Hz)]; [by left |].
      right. exists n. split; [by right | done].
    + intros [H|(n & Hn & Hz)]; [by left |].
      apply elem_of_cons in Hn as [->|Hn]; [congruence |].
      right. by exists n.
Qed.

Lemma existing_ids_spec files z :
  z ∈ existing_ids files
  ↔ ∃ name, name ∈ dom files
            ∧ glob_star "quest_" ".mp3" name = true
            ∧ py_int (py_replace "quest_" "" (path_stem name)) = Some z.
Proof.
  unfold existing_ids. rewrite scan_files_spec. split.
  - intros [H|(name & Hn & Hz)]; [set_solver |].
    apply list_elem_of_filter in Hn as [Hg Hn].
    apply elem_of_elements in Hn. by exists name.
  - intros (name & Hn & Hg & Hz). right. exists name. split; [|done].
    apply list_elem_of_filter. split; [done | by apply elem_of_elements].
Qed.

Lemma subscript_inv {A : Type} key (o : option A) w a w' :
  subscript key o w = (Ok a, w') → o = Some a ∧ w' = w.
Proof. destruct o; intros H; inversion H; by subst. Qed.

Lemma config_path_of_inv self key field w dir w' :
  config_path_of self key field w = (Ok dir, w') →
  w' = w ∧ ∃ section sub, paths (config self) = Some section
                          ∧ field section = Some sub
                          ∧ dir = path_join (project_root self) sub.
Proof.
  unfold config_path_of. intros H.
  apply bind_inv in H as [(s1 & w1 & H1 & H)|(e & _ & ?)]; [|done].
  apply subscript_inv in H1 as [Hs ->].
  apply bind_inv in H as [(s2 & w2 & H2 & H)|(e & _ & ?)]; [|done].
  apply subscript_inv in H2 as [Hf ->].
  inversion H; subst. eauto 10.
Qed.

Lemma config_path_of_runs self key field w section sub :
  paths (config self) = Some section → field section = Some sub →
  config_path_of self key field w = (Ok (path_join (project_root self) sub), w).
Proof.
  intros Hs Hf. unfold config_path_of. rewrite Hs. simpl.
  rewrite bind_run. simpl. rewrite Hf. reflexivity.
Qed.

Lemma mkdir_audio_dir_inv w u w' :
  mkdir_audio_dir w = (Ok u, w') →
  w' = with_audio_dir w ∧ audio_dir w ≠ DirBlocked.
Proof.
  unfold mkdir_audio_dir, with_audio_dir. intros H.
  destruct (audio_dir w); inversion H; subst; done.
Qed.

Lemma dir_files_with_audio_dir w :
  dir_files (audio_dir (with_audio_dir w)) = dir_files (audio_dir w).
Proof. unfold with_audio_dir. by destruct (audio_dir w) eqn:E; simpl; rewrite ?E. Qed.

Lemma get_existing_audio_files_inv self w existing w' :
  get_existing_audio_files self w = (Ok existing, w') →
  existing = existing_ids (dir_files (audio_dir w)) ∧ w' = with_audio_dir w
  ∧ audio_dir w ≠ DirBlocked ∧ has_audio_output (config self).
Proof.
  unfold get_existing_audio_files. intros H.
  apply bind_inv in H as [(dir & w1 & Hp & H)|(e & _ & ?)]; [|done].
  apply config_path_of_inv in Hp as (-> & section & sub & Hs & Hf & _).
  apply bind_inv in H as [(u & w2 & Hm & H)|(e & _ & ?)]; [|done].
  apply mkdir_audio_dir_inv in Hm as (-> & Hb).
  apply bind_inv in H as [(names & w3 & Hg & H)|(e & _ & ?)]; [|done].
  inversion Hg; subst. inversion H; subst.
  rewrite dir_files_with_audio_dir.
  repeat split; [done | by exists section, sub].
Qed.

Lemma get_existing_audio_files_runs self w :
  has_audio_output (config self) → audio_dir w ≠ DirBlocked →
  get_existing_audio_files self w
  = (Ok (existing_ids (dir_files (audio_dir w))), with_audio_dir w).
Proof.
  intros (section & dir & Hs & Hd) Hb.
  unfold get_existing_audio_files.
  rewrite bind_run, (config_path_of_runs _ _ _ _ _ _ Hs Hd), bind_run.
  assert (mkdir_audio_dir w = (Ok tt, with_audio_dir w)) as ->.
  { unfold mkdir_audio_dir, with_audio_dir. by destruct (audio_dir w). }
  rewrite bind_run. unfold glob_audio_dir.
  rewrite dir_files_with_audio_dir. reflexivity.
Qed.

Lemma filter_existing_inv self loaded w quests w' :
  filter_existing self true loaded w = (Ok quests, w') →
  quests = filter (λ q, py_in_set (quest_id q)
                          (existing_ids (dir_files (audio_dir w))) = false)
                  loaded
  ∧ w' = add_stdout ("Nach Filterung (ohne bereits vorhandene): "
                     +:+ str_of_nat (length quests)) (with_audio_dir w)
  ∧ audio_dir w ≠ DirBlocked ∧ has_audio_output (config self).
Proof.
  unfold filter_existing. intros H.
  apply bind_inv in H as [(existing & w1 & He & H)|(e & _ & ?)]; [|done].
  apply get_existing_audio_files_inv in He as (-> & -> & Hb & Hc).
  apply bind_inv in H as [(u & w2 & Hp & H)|(e & _ & ?)]; [|done].
  inversion Hp; subst. inversion H; subst.
  assert (∀ l : list Quest,
    filter (λ q, negb (py_in_set (quest_id q)
                         (existing_ids (dir_files (audio_dir w)))) = true) l
    = filter (λ q, py_in_set (quest_id q)
                     (existing_ids (dir_files (audio_dir w))) = false) l)
    as Hf.
  { intros l. apply list_filter_iff. intros q.
    by destruct (py_in_set _ _). }
  rewrite !Hf. done.
Qed.

Lemma filter_existing_runs self loaded w :
  has_audio_output (config self) → audio_dir w ≠ DirBlocked →
  ∃ quests w', filter_existing self true loaded w = (Ok quests, w').
Proof.
  intros Hc Hb. unfold filter_existing.
  rewrite bind_run, (get_existing_audio_files_runs _ _ Hc Hb), bind_run.
  simpl. eauto.
Qed.



(** ** Selection by explicit ids *)

Lemma load_quests_runs self w section sub data :
  paths (config self) = Some section → quests_json section = Some sub →
  quests_file w = Some data →
  load_quests self w = (Ok (from_dict <$> data), w).
Proof.
  intros Hs Hq Hd. unfold load_quests.
  rewrite bind_run, (config_path_of_runs _ _ _ _ _ _ Hs Hq), bind_run.
  unfold get_world. rewrite Hd. reflexivity.
Qed.

Lemma load_selected_ids self ids w section sub data :
  ids ≠ [] →
  paths (config self) = Some section → quests_json section = Some sub →
  quests_file w = Some data →
  let selected :=
    filter (λ q, py_in_list (quest_id q) ids = true) (from_dict <$> data) in
  load_selected self (Some ids) false w
  = (Ok selected,
     add_stdout ("Geladene Quests: " +:+ str_of_nat (length selected)) w).
Proof.
  intros Hne Hs Hq Hd selected. unfold load_selected.
  rewrite bind_run, (load_quests_runs _ _ _ _ _ Hs Hq Hd).
  destruct ids as [|z rest]; [done |]. rewrite bind_run. reflexivity.
Qed.

Lemma py_in_list_spec v ids :
  py_in_list v ids = true ↔ ∃ z, as_int v = Some z ∧ z ∈ ids.
Proof.
  unfold py_in_list. destruct (as_int v) as [z|].
  - rewrite bool_decide_eq_true. split; [eauto | by intros (? & [= <-] & ?)].
  - split; [done | by intros (? & ? & ?)].
Qed.

(** C10: given a non-empty list of ids, and not loading from the export,
    the quests selected are those of the quest file whose id is in the list,
    in the order of the file; the order of the list and its repetitions do
    not matter, and an id that no quest of the file has changes neither the
    result nor what is printed: the only line is the number selected. *)
Theorem explicit_ids_select_in_file_order self ids w section sub data :
  ids ≠ [] →
  paths (config self) = Some section → quests_json section = Some sub →
  quests_file w = Some data →
  let all_quests := from_dict <$> data in
  let selected :=
    filter (λ q, py_in_list (quest_id q) ids = true) all_quests in
  load_selected self (Some ids) false w
  = (Ok selected,
     add_stdout ("Geladene Quests: " +:+ str_of_nat (length selected)) w)
  ∧ (∀ q, q ∈ selected
          ↔ q ∈ all_quests ∧ ∃ z, as_int (quest_id q) = Some z ∧ z ∈ ids)
  ∧ selected `sublist_of` all_quests
  ∧ (∀ ids', ids' ≠ [] → (∀ z, z ∈ ids' ↔ z ∈ ids) →
       load_selected self (Some ids') false w
       = load_selected self (Some ids) false w)
  ∧ (∀ z, (∀ q, q ∈ all_quests → as_int (quest_id q) ≠ Some z) →
       load_selected self (Some (z :: ids)) false w
       = load_selected self (Some ids) false w).
Proof.
  intros Hne Hs Hq Hd all_quests selected.
  pose proof (load_selected_ids self ids w section sub data Hne Hs Hq Hd)
    as Hsel.
  split; [exact Hsel |]. split; [|split; [|split]].
  - intros q. unfold selected. rewrite list_elem_of_filter, py_in_list_spec.
    tauto.
  - apply sublist_filter.
  - intros ids' Hne' Hsame.
    rewrite Hsel, (load_selected_ids self ids' w section sub data Hne' Hs Hq Hd).
    assert (filter (λ q, py_in_list (quest_id q) ids' = true) (from_dict <$> data)
            = selected) as ->; [|done].
    apply list_filter_iff. intros q. rewrite !py_in_list_spec.
    by setoid_rewrite Hsame.
  - intros z Hz.
    rewrite Hsel, (load_selected_ids self (z :: ids) w section sub data
                     ltac:(done) Hs Hq Hd).
    assert (∀ l : list Quest, (∀ q, q ∈ l → as_int (quest_id q) ≠ Some z) →
              filter (λ q, py_in_list (quest_id q) (z :: ids) = true) l
              = filter (λ q, py_in_list (quest_id q) ids = true) l) as Hf.
    { induction l as [|q l IH]; intros Hl; [done |].
      rewrite !filter_cons, IH by (intros q' Hq'; apply Hl; by right).
      assert (py_in_list (quest_id q) (z :: ids) = py_in_list (quest_id q) ids)
        as ->; [|done].
      unfold py_in_list. specialize (Hl q ltac:(left)).
      destruct (as_int (quest_id q)) as [z'|]; [|done].
      apply bool_decide_ext. rewrite elem_of_cons.
      split; [intros [->|?]; [done | done] | by right]. }
    fold all_quests. rewrite (Hf all_quests Hz). done.
Qed.

Lemma explicit_ids_select_in_file_order_witness :
  load_selected example_generator (Some [3; 7; 1]) false
                (example_world [record_1; record_2; record_3])
  = (Ok [from_dict record_1; from_dict record_3],
     add_stdout "Geladene Quests: 2"
                (example_world [record_1; record_2; record_3])).
Proof.
  destruct (explicit_ids_select_in_file_order example_generator [3; 7; 1]
              (example_world [record_1; record_2; record_3])
              {| quests_json := Some "data/quests.json";
                 batch_export := Some "data/batch_export.json";
                 audio_output := Some "audio" |}
              "data/quests.json" [record_1; record_2; record_3])
    as [H _]; [discriminate | reflexivity | reflexivity | reflexivity |].
  exact H.
Defined.

(** ** Records *)

(** C8: [Quest.from_dict] gives a quest for every dictionary: a key that is
    there gives its value, a missing key gives the default (0 for the id,
    the empty string for the text fields, [False] for the main-story flag);
    so two records without an id both get the id 0 and the file name
    [quest_0.mp3]. *)
Theorem from_dict_substitutes_defaults (data data' : gmap string pyval) :
  quest_id (from_dict data) = default (PInt 0) (data !! "quest_id")
  ∧ title (from_dict data) = default (PStr "") (data !! "title")
  ∧ description (from_dict data) = default (PStr "") (data !! "description")
  ∧ objectives (from_dict data) = default (PStr "") (data !! "objectives")
  ∧ completion (from_dict data) = default (PStr "") (data !! "completion")
  ∧ zone (from_dict data) = default (PStr "") (data !! "zone")
  ∧ is_main_story (from_dict data)
    = default (PBool false) (data !! "is_main_story")
  ∧ (data !! "quest_id" = None → data' !! "quest_id" = None →
     quest_id (from_dict data) = PInt 0
     ∧ quest_id (from_dict data') = PInt 0
     ∧ audio_file_name (from_dict data) = "quest_0.mp3"
     ∧ audio_file_name (from_dict data') = "quest_0.mp3").
Proof.
  repeat split; try reflexivity;
    unfold audio_file_name, from_dict, dict_get; simpl;
    by rewrite ?H, ?H0.
Qed.

Lemma from_dict_substitutes_defaults_witness :
  quest_id (from_dict {[ "title" := PStr "A" ]}) = PInt 0
  ∧ quest_id (from_dict {[ "zone" := PStr "Elwynn" ]}) = PInt 0
  ∧ audio_file_name (from_dict {[ "title" := PStr "A" ]}) = "quest_0.mp3"
  ∧ audio_file_name (from_dict {[ "zone" := PStr "Elwynn" ]}) = "quest_0.mp3".
Proof.
  apply (from_dict_substitutes_defaults {[ "title" := PStr "A" ]}
           {[ "zone" := PStr "Elwynn" ]}); reflexivity.
Defined.

(** ** The empty-text check *)

(** With a client, [generate_audio] raises when the derived text is not a
    string, skips when it is blank, and renders otherwise. *)
Lemma generate_audio_with_client self quest voice_profile w c :
  client self = Some c →
  generate_audio self quest voice_profile w
  = match tts_text quest with
    | PStr s =>
        if blank_text quest
        then (Ok None, add_stdout (skip_line quest) w)
        else render self quest voice_profile s w
    | _ => (Raise (AttributeError "object has no attribute 'strip'"), w)
    end.
Proof.
  intros Hc. unfold generate_audio, blank_text. rewrite Hc.
  destruct (tts_text quest) as [| | |s]; try reflexivity.
  rewrite bind_run. simpl. by destruct (String.eqb (py_strip s) "").
Qed.

Lemma tts_text_titled q t :
  title q = PStr t → t ≠ "" →
  tts_text q = PStr (t +:+ ". " +:+ py_str (py_or (description q) (PStr ""))).
Proof.
  intros Ht Hne. unfold tts_text. rewrite Ht. simpl.
  destruct (String.eqb t "") eqn:E; [by apply String.eqb_eq in E |].
  reflexivity.
Qed.

Lemma tts_text_untitled q d :
  title q = PStr "" → description q = PStr d → tts_text q = PStr d.
Proof.
  intros Ht Hd. unfold tts_text, py_or. rewrite Ht, Hd. simpl.
  destruct (String.eqb d "") eqn:E; [|done].
  apply String.eqb_eq in E. by subst.
Qed.

Lemma blank_text_spec q s :
  tts_text q = PStr s → (blank_text q = true ↔ py_strip s = "").
Proof. intros H. unfold blank_text. rewrite H. apply String.eqb_eq. Qed.

(** The text check for a quest whose title is a string. *)
Lemma text_check_for_string_title q t :
  title q = PStr t →
  (t ≠ "" →
   ∃ s, tts_text q = PStr s ∧ "."%char ∈ chars s ∧ py_strip s ≠ ""
        ∧ blank_text q = false
        ∧ ∀ self c voice_profile w, client self = Some c →
            generate_audio self q voice_profile w
            = render self q voice_profile s w)
  ∧ (∀ d, description q = PStr d →
       (blank_text q = true ↔ t = "" ∧ py_strip d = "")
       ∧ ∀ self c voice_profile w, client self = Some c →
           (generate_audio self q voice_profile w
            = (Ok None, add_stdout (skip_line q) w)
            ∧ blank_text q = true)
           ∨ (generate_audio self q voice_profile w
              = render self q voice_profile
                       (if String.eqb t "" then d else t +:+ ". " +:+ d) w
              ∧ blank_text q = false)).
Proof.
  intros Ht.
  assert (t ≠ "" →
          ∃ s, tts_text q = PStr s ∧ "."%char ∈ chars s ∧ py_strip s ≠ ""
               ∧ blank_text q = false) as Htitled.
  { intros Hne. eexists. split; [by apply tts_text_titled |].
    assert ("."%char ∈ chars (t +:+ ". "
              +:+ py_str (py_or (description q) (PStr "")))) as Hdot.
    { rewrite !chars_app. simpl. set_solver. }
    assert (py_strip (t +:+ ". " +:+ py_str (py_or (description q) (PStr "")))
            ≠ "") as Hs.
    { rewrite py_strip_empty_iff. intros Hall.
      apply (proj1 (Forall_forall _ _) Hall) in Hdot. discriminate Hdot. }
    repeat split; [done | done |].
    destruct (blank_text q) eqn:Hb; [|done].
    apply (blank_text_spec q _ (tts_text_titled q t Ht Hne)) in Hb. done. }
  split.
  - intros Hne. destruct (Htitled Hne) as (s & Hs & Hdot & Hstrip & Hb).
    exists s. repeat split; try done.
    intros self c vp w Hc.
    by rewrite (generate_audio_with_client _ _ _ _ _ Hc), Hs, Hb.
  - intros d Hd.
    assert (tts_text q = PStr (if String.eqb t "" then d else t +:+ ". " +:+ d))
      as Htext.
    { destruct (String.eqb t "") eqn:E.
      - apply String.eqb_eq in E. subst. by apply tts_text_untitled.
      - assert (t ≠ "") as Hne by (intros ->; discriminate E).
        rewrite (tts_text_titled q t Ht Hne), Hd. unfold py_or. simpl.
        by destruct (String.eqb d "") eqn:E'; [apply String.eqb_eq in E' as ->|]. }
    split.
    + destruct (String.eqb t "") eqn:E.
      * apply String.eqb_eq in E. subst.
        rewrite (blank_text_spec q d Htext). tauto.
      * assert (t ≠ "") as Hne by (intros ->; discriminate E).
        destruct (Htitled Hne) as (_ & _ & _ & _ & Hb). rewrite Hb.
        split; [done | tauto].
    + intros self c vp w Hc.
      rewrite (generate_audio_with_client _ _ _ _ _ Hc), Htext.
      destruct (blank_text q); [by left | by right].
Qed.

(** The empty-text check for any quest: it skips exactly when the title
    counts as false (the empty string, [None], [False], 0) and the
    description counts as false too or is a string of whitespace. *)
Lemma blank_text_cases q :
  blank_text q = true
  ↔ truthy (title q) = false
    ∧ (truthy (description q) = false
       ∨ ∃ d, description q = PStr d
              ∧ Forall (λ c, isspace c = true) (chars d)).
Proof.
  rewrite blank_text_iff. unfold tts_text, py_or.
  destruct (truthy (title q)) eqn:Ht.
  { split; [|by intros [? _]]. intros (s & [= <-] & Hall).
    assert ("."%char ∈ chars (py_str (title q) +:+ ". "
              +:+ py_str (if truthy (description q) then description q
                          else PStr ""))) as Hdot.
    { rewrite !chars_app. simpl. set_solver. }
    apply (proj1 (Forall_forall _ _) Hall) in Hdot. discriminate Hdot. }
  destruct (truthy (description q)) eqn:Hd.
  - split.
    + intros (s & Hs & Hall). split; [done |]. right. by exists s.
    + intros [_ [?|(d & Hq & Hall)]]; [done |]. by exists d.
  - split; [intros _; split; [done | by left] |].
    intros _. exists "". split; [done | constructor].
Qed.

(** C9, as the code has it: a quest whose title is a non-empty string (a
    title of whitespace too) has a derived text with a period in it, so the
    text is not blank and, with a client, [generate_audio] goes on to
    render it.  The empty-text check skips exactly when the title counts as
    false (the empty string, but also [None], [False] or 0) and the
    description counts as false too or is a string of whitespace; for a
    title and a description that are strings this is: the title is empty
    and the description is empty or whitespace. *)
Theorem titled_quest_passes_the_text_check q :
  (∀ t, title q = PStr t → t ≠ "" →
     ∃ s, tts_text q = PStr s ∧ "."%char ∈ chars s ∧ py_strip s ≠ ""
          ∧ blank_text q = false
          ∧ ∀ self c voice_profile w, client self = Some c →
              generate_audio self q voice_profile w
              = render self q voice_profile s w)
  ∧ (blank_text q = true
     ↔ truthy (title q) = false
       ∧ (truthy (description q) = false
          ∨ ∃ d, description q = PStr d
                 ∧ Forall (λ c, isspace c = true) (chars d)))
  ∧ (∀ t d, title q = PStr t → description q = PStr d →
       (blank_text q = true ↔ t = "" ∧ py_strip d = "")
       ∧ ∀ self c voice_profile w, client self = Some c →
           (generate_audio self q voice_profile w
            = (Ok None, add_stdout (skip_line q) w)
            ∧ blank_text q = true)
           ∨ (generate_audio self q voice_profile w
              = render self q voice_profile
                       (if String.eqb t "" then d else t +:+ ". " +:+ d) w
              ∧ blank_text q = false)).
Proof.
  split; [|split].
  - intros t Ht. exact (proj1 (text_check_for_string_title q t Ht)).
  - apply blank_text_cases.
  - intros t d Ht. exact (proj2 (text_check_for_string_title q t Ht) d).
Qed.

Lemma titled_quest_passes_the_text_check_witness :
  ∃ s, tts_text (from_dict {[ "title" := PStr " " ]}) = PStr s
       ∧ "."%char ∈ chars s ∧ py_strip s ≠ ""
       ∧ blank_text (from_dict {[ "title" := PStr " " ]}) = false
       ∧ ∀ self c voice_profile w, client self = Some c →
           generate_audio self (from_dict {[ "title" := PStr " " ]})
                          voice_profile w
           = render self (from_dict {[ "title" := PStr " " ]})
                    voice_profile s w.
Proof.
  apply (proj1 (titled_quest_passes_the_text_check
                  (from_dict {[ "title" := PStr " " ]})) " ");
    [reflexivity |].
  discriminate.
Defined.

(** C9 as the specification states it fails in its second part: the check
    also skips a quest whose title is not the empty string but [null], when
    its description is whitespace. *)
Lemma null_title_is_skipped_counterexample :
  ¬ (∀ self c q voice_profile w,
       client self = Some c →
       generate_audio self q voice_profile w
       = (Ok None, add_stdout (skip_line q) w) →
       title q = PStr "").
Proof.
  intros H.
  specialize (H example_generator {| client_key := "sk-example" |}
                (from_dict {[ "quest_id" := PInt 4; "title" := PNone;
                              "description" := PStr " " ]})
                None (example_world []) eq_refl).
  discriminate H. vm_compute. reflexivity.
Qed.


(** ** The file name of a quest and the scanner agree *)

Lemma starts_with_app p l : starts_with p (p ++ l) = true.
Proof. induction p as [|c p IH]; simpl; [done | by rewrite Ascii.eqb_refl]. Qed.

Lemma glob_star_matches pre suf middle :
  glob_star pre suf (pre +:+ middle +:+ suf) = true.
Proof.
  unfold glob_star, ends_with. rewrite !chars_app, starts_with_app.
  rewrite !rev_app_distr, <- app_assoc, starts_with_app. simpl.
  apply Nat.leb_le. rewrite !length_app. lia.
Qed.

Lemma split_last_dot_none l :
  Forall (λ c, c ≠ "."%char) l → split_last_dot l = None.
Proof.
  induction 1 as [|c l Hc _ IH]; simpl; [done |]. rewrite IH.
  destruct (Ascii.eqb c ".") eqn:E; [by apply Ascii.eqb_eq in E | done].
Qed.

Lemma split_last_dot_app a b :
  Forall (λ c, c ≠ "."%char) b →
  split_last_dot (a ++ "."%char :: b) = Some (a, b).
Proof.
  intros Hb. induction a as [|c a IH]; simpl.
  - by rewrite (split_last_dot_none b Hb).
  - by rewrite IH.
Qed.

Lemma path_stem_mp3 base :
  base ≠ "" → path_stem (base +:+ ".mp3") = base.
Proof.
  intros Hne. unfold path_stem. rewrite chars_app. simpl.
  rewrite split_last_dot_app
    by (repeat constructor; discriminate).
  destruct (chars base) as [|c r] eqn:E.
  - apply (f_equal text_of) in E. rewrite text_of_chars in E. done.
  - by rewrite <- E, text_of_chars.
Qed.

Lemma replace_go_unchanged old new l :
  (∀ c r, old = c :: r → Forall (λ x, x ≠ c) l) → old ≠ [] →
  replace_go old new O l = l.
Proof.
  intros Hq Hne. destruct old as [|c r]; [done |].
  specialize (Hq c r eq_refl).
  induction Hq as [|x l Hx _ IH]; simpl; [done |].
  destruct (Ascii.eqb c x) eqn:E; [by apply Ascii.eqb_eq in E | by rewrite IH].
Qed.

Lemma py_replace_quest_prefix d :
  Forall (λ x, x ≠ "q"%char) (chars d) →
  py_replace "quest_" "" ("quest_" +:+ d) = d.
Proof.
  intros Hd. unfold py_replace. simpl.
  rewrite replace_go_unchanged; [apply text_of_chars | | done].
  intros c r [= <- <-]. exact Hd.
Qed.

(** The decimal digits of a number, read back. *)

Lemma digits_value_acc d : ∀ acc,
  digits_value (N.pos acc) true (chars (NilEmpty.string_of_uint d))
  = Some (N.pos (Pos.of_uint_acc d acc)).
Proof.
  induction d; intros acc; simpl; try reflexivity;
    unfold digit_of; simpl; rewrite <- IHd; f_equal; lia.
Qed.

Lemma digits_value_uint d : ∀ b,
  d ≠ Decimal.Nil ∨ b = true →
  digits_value 0 b (chars (NilEmpty.string_of_uint d)) = Some (Pos.of_uint d).
Proof.
  induction d; intros b Hb; simpl;
    try (unfold digit_of; simpl; apply digits_value_acc).
  - destruct Hb as [?| ->]; done.
  - unfold digit_of. simpl. apply IHd. by right.
Qed.

Lemma uint_chars_digits d :
  Forall (λ c, digit_of c ≠ None) (chars (NilEmpty.string_of_uint d)).
Proof. induction d; simpl; constructor; try done; by vm_compute. Qed.

Lemma digit_char_facts c :
  digit_of c ≠ None ∨ c = "-"%char →
  isspace c = false ∧ c ≠ "q"%char ∧ c ≠ "."%char ∧ c ≠ "+"%char
  ∧ c ≠ "/"%char ∧ c ≠ "000"%char.
Proof.
  destruct c as [[] [] [] [] [] [] [] []]; vm_compute;
    intros [H|H]; try congruence; repeat split; congruence.
Qed.

Lemma str_of_int_chars z :
  Forall (λ c, digit_of c ≠ None ∨ c = "-"%char) (chars (str_of_int z)).
Proof.
  assert (∀ d, Forall (λ c, digit_of c ≠ None ∨ c = "-"%char)
                      (chars (NilZero.string_of_uint d))) as Hu.
  { intros d. eapply Forall_impl with (P := λ c, digit_of c ≠ None).
    - destruct d; try apply uint_chars_digits.
      simpl. constructor; [by vm_compute | constructor].
    - intros c Hc. by left. }
  unfold str_of_int. destruct (Z.to_int z) as [d|d]; simpl; [apply Hu |].
  constructor; [by right | apply Hu].
Qed.

Lemma int_space_isspace c : int_space c = true → isspace c = true.
Proof. destruct c as [[] [] [] [] [] [] [] []]; vm_compute; congruence. Qed.

Lemma int_strip_unchanged l :
  Forall (λ c, isspace c = false) l → int_rstrip (int_lstrip l) = l.
Proof.
  assert (∀ c, isspace c = false → int_space c = false) as Hc.
  { intros c Hs. destruct (int_space c) eqn:E; [|done].
    apply int_space_isspace in E. congruence. }
  assert (∀ k, Forall (λ c, isspace c = false) k → int_lstrip k = k) as Hl.
  { intros [|c k] H; [done |]. simpl. inversion H; subst.
    by rewrite (Hc c). }
  intros H. unfold int_rstrip. rewrite (Hl l H), Hl, rev_involutive; [done |].
  apply Forall_forall. intros c Hin. apply (proj1 (Forall_forall _ _) H).
  apply list_elem_of_In, in_rev, list_elem_of_In in Hin. exact Hin.
Qed.

Lemma py_int_digits d :
  d ≠ Decimal.Nil →
  py_int (NilEmpty.string_of_uint d) = Some (Z.of_N (Pos.of_uint d))
  ∧ py_int (String "-" (NilEmpty.string_of_uint d))
    = Some (- Z.of_N (Pos.of_uint d)).
Proof.
  intros Hd.
  assert (Forall (λ c, isspace c = false)
                 (chars (NilEmpty.string_of_uint d))) as Hs.
  { eapply Forall_impl; [apply uint_chars_digits |].
    intros c Hc. apply digit_char_facts. by left. }
  unfold py_int. split.
  - rewrite (int_strip_unchanged _ Hs).
    pose proof (uint_chars_digits d) as Hdig.
    pose proof (digits_value_uint d false (or_introl Hd)) as Hv.
    destruct (chars (NilEmpty.string_of_uint d)) as [|c r] eqn:E.
    { destruct d; done. }
    inversion Hdig as [|? ? Hc _]; subst.
    destruct (digit_char_facts c (or_introl Hc)) as (_ & _ & _ & Hplus & _).
    assert (digit_of "-" = None) as Hminus by reflexivity.
    destruct (Ascii.eqb c "-") eqn:E1; [apply Ascii.eqb_eq in E1; congruence |].
    destruct (Ascii.eqb c "+") eqn:E2; [by apply Ascii.eqb_eq in E2 |].
    by rewrite Hv.
  - change (chars (String "-" (NilEmpty.string_of_uint d)))
      with ("-"%char :: chars (NilEmpty.string_of_uint d)).
    rewrite int_strip_unchanged by (constructor; [reflexivity | exact Hs]).
    simpl. by rewrite (digits_value_uint d false (or_introl Hd)).
Qed.

(** [int(str(z))] is [z]. *)
Lemma py_int_str_of_int z : py_int (str_of_int z) = Some z.
Proof.
  unfold str_of_int. destruct z as [|p|p]; simpl; [reflexivity | |].
  - pose proof (Unsigned.to_uint_nonnil p) as Hn.
    assert (NilZero.string_of_uint (Pos.to_uint p)
            = NilEmpty.string_of_uint (Pos.to_uint p)) as ->.
    { by destruct (Pos.to_uint p). }
    rewrite (proj1 (py_int_digits _ Hn)), Unsigned.of_to. reflexivity.
  - pose proof (Unsigned.to_uint_nonnil p) as Hn.
    assert (NilZero.string_of_uint (Pos.to_uint p)
            = NilEmpty.string_of_uint (Pos.to_uint p)) as ->.
    { by destruct (Pos.to_uint p). }
    rewrite (proj2 (py_int_digits _ Hn)), Unsigned.of_to. reflexivity.
Qed.

(** The file written for a quest with an int id is found by the scanner,
    which reads the id back from its name. *)
Lemma audio_file_name_scanned q z :
  quest_id q = PInt z →
  glob_star "quest_" ".mp3" (audio_file_name q) = true
  ∧ py_int (py_replace "quest_" "" (path_stem (audio_file_name q))) = Some z
  ∧ plain_file_name (audio_file_name q) = true.
Proof.
  intros Hq. unfold audio_file_name. rewrite Hq. simpl.
  pose proof (str_of_int_chars z) as Hc.
  split; [apply (glob_star_matches "quest_" ".mp3") | split].
  - change ("quest_" +:+ str_of_int z +:+ ".mp3")
      with (("quest_" +:+ str_of_int z) +:+ ".mp3").
    rewrite path_stem_mp3 by done.
    rewrite py_replace_quest_prefix; [apply py_int_str_of_int |].
    eapply Forall_impl; [exact Hc |]. intros c H.
    by apply digit_char_facts in H as (_ & ? & _).
  - unfold plain_file_name. rewrite !chars_app, !forallb_app.
    simpl. rewrite andb_true_r. apply forallb_forall.
    intros c Hin. apply list_elem_of_In in Hin.
    apply (proj1 (Forall_forall _ _) Hc) in Hin.
    apply digit_char_facts in Hin as (_ & _ & _ & _ & H1 & H2).
    destruct (Ascii.eqb c "/") eqn:E1; [by apply Ascii.eqb_eq in E1 |].
    destruct (Ascii.eqb c "000") eqn:E2; [by apply Ascii.eqb_eq in E2 |].
    reflexivity.
Qed.

Lemma existing_ids_of_audio_file files q z :
  quest_id q = PInt z → audio_file_name q ∈ dom files →
  z ∈ existing_ids files.
Proof.
  intros Hq Hin. apply existing_ids_spec. exists (audio_file_name q).
  destruct (audio_file_name_scanned q z Hq) as (Hg & Hi & _). done.
Qed.

(** ** A second run *)

Lemma try_except_inv {A : Type} (body : M A) handler w r w' :
  try_except body handler w = (r, w') →
  (∃ a, body w = (Ok a, w') ∧ r = Ok a)
  ∨ (∃ e w1, body w = (Raise e, w1) ∧ handler e w1 = (r, w')).
Proof.
  unfold try_except. destruct (body w) as [[a|e] w1]; intros H.
  - left. inversion H; subst. eauto.
  - right. eauto.
Qed.

Lemma write_file_inv name chunks w u w' :
  write_file name chunks w = (Ok u, w') →
  name ∈ dom (dir_files (audio_dir w')) ∧ api_log w' = api_log w.
Proof.
  unfold write_file. intros H.
  destruct (audio_dir w) as [| |files]; try done.
  destruct (plain_file_name name); [|done].
  destruct (file_fault w name) as [[e|kept e]|]; [done | done |].
  inversion H; subst. simpl.
  split; [|done]. rewrite dom_insert_L. set_solver.
Qed.

Lemma synthesize_success self quest voice text output_path w p w' :
  synthesize self quest voice text output_path w = (Ok (Some p), w') →
  audio_file_name quest ∈ dom (dir_files (audio_dir w')).
Proof.
  unfold synthesize. intros H.
  apply try_except_inv in H as [(a & H & [= <-])|(e & w1 & _ & H)].
  2:{ apply bind_inv in H as [(? & ? & _ & H)|(? & _ & ?)]; [|done].
      inversion H. }
  apply bind_inv in H as [(model & w1 & _ & H)|(? & _ & ?)]; [|done].
  apply bind_inv in H as [(settings & w2 & _ & H)|(? & _ & ?)]; [|done].
  apply bind_inv in H as [(audio & w3 & _ & H)|(? & _ & ?)]; [|done].
  apply bind_inv in H as [(u & w4 & Hw & H)|(? & _ & ?)]; [|done].
  apply write_file_inv in Hw as [Hw _].
  destruct (audio.2); inversion H; by subst.
Qed.

Lemma generate_audio_success self quest voice_profile w p w' :
  generate_audio self quest voice_profile w = (Ok (Some p), w') →
  audio_file_name quest ∈ dom (dir_files (audio_dir w')).
Proof.
  intros H. destruct (client self) as [c|] eqn:Hc.
  2:{ unfold generate_audio in H. rewrite Hc in H.
      apply bind_inv in H as [(? & ? & _ & H)|(? & _ & ?)]; [|done].
      inversion H. }
  rewrite (generate_audio_with_client _ _ _ _ _ Hc) in H.
  destruct (tts_text quest) as [| | |s]; try done.
  destruct (blank_text quest); [done |]. unfold render in H.
  apply bind_inv in H as [(voice & w1 & _ & H)|(? & _ & ?)]; [|done].
  apply bind_inv in H as [(dir & w2 & _ & H)|(? & _ & ?)]; [|done].
  apply bind_inv in H as [(u & w3 & _ & H)|(? & _ & ?)]; [|done].
  by apply synthesize_success in H.
Qed.

Lemma keeps_files_stay_batch_loop self voice_profile delay quests s f :
  keeps files_stay (batch_loop self voice_profile delay quests s f).
Proof.
  apply (keeps_batch_loop files_stay (λ _, True) files_stay_stdout
           files_stay_sleep files_stay_mkdir
           (λ entry w _, files_stay_call entry w) files_stay_write).
  done.
Qed.

Lemma rendered_by_loop_file self voice_profile delay quests : ∀ w q s f,
  q ∈ rendered_by_loop self voice_profile delay quests w →
  audio_file_name q
  ∈ dom (dir_files (audio_dir
                      (batch_loop self voice_profile delay quests s f w).2)).
Proof.
  induction quests as [|q0 rest IH]; intros w q s f Hq; simpl in Hq.
  { by inversion Hq. }
  simpl. rewrite bind_run.
  destruct (generate_audio self q0 voice_profile w) as [[result|e] w1] eqn:Hg;
    [|by inversion Hq].
  rewrite bind_run.
  apply elem_of_app in Hq as [Hq|Hq].
  - destruct result as [p|]; [|by inversion Hq].
    apply list_elem_of_singleton in Hq as ->.
    apply generate_audio_success in Hg.
    assert (files_stay w1
              (match sleep delay w1 with
               | (Ok a, w'0) =>
                   batch_loop self voice_profile delay rest (S s, f).1
                              (S s, f).2 w'0
               | (Raise e, w'0) => (Raise e, w'0)
               end).2) as Hstay.
    { destruct (sleep delay w1) as [[u|e] w2] eqn:Hs.
      - transitivity w2.
        + eapply (keeps_sleep files_stay files_stay_sleep);
            exact Hs.
        + eapply keeps_files_stay_batch_loop. apply surjective_pairing.
      - eapply (keeps_sleep files_stay files_stay_sleep);
          exact Hs. }
    apply Hstay, Hg.
  - destruct (sleep delay w1) as [[u|e] w2]; [|by inversion Hq].
    by apply IH.
Qed.

Lemma new_calls_same w w' : api_log w' = api_log w → new_calls w w' = [].
Proof. intros H. unfold new_calls. rewrite H. apply drop_all. Qed.

Lemma dispatch_calls_within self dry_run voice_profile delay quests w r w' :
  dispatch self dry_run voice_profile delay quests w = (r, w') →
  Forall (λ entry, entry.1 ∈ quests) (new_calls w w').
Proof.
  intros H.
  destruct (keeps_dispatch (log_grows (λ entry, entry.1 ∈ quests))
              (λ entry, entry.1 ∈ quests)
              (log_grows_stdout _) (log_grows_sleep _)
              (λ w, or_introl (log_grows_set_dir _ _ w))
              (log_grows_call _)
              (λ name content files w _, log_grows_set_dir _ _ w)
              self dry_run voice_profile delay quests
              (λ quest call w0 Hin _ _ _, Hin) w r w' H)
    as (new & Hnew & Hall).
  by rewrite (new_calls_app _ _ _ Hnew).
Qed.

Lemma run_with_file_makes_no_call self quest_ids from_export dry_run
    voice_profile delay w q z r w' :
  quest_id q = PInt z →
  audio_file_name q ∈ dom (dir_files (audio_dir w)) →
  run_batch self quest_ids from_export true dry_run voice_profile delay w
  = (r, w') →
  Forall (λ entry, as_int (quest_id entry.1) ≠ Some z) (new_calls w w').
Proof.
  intros Hq Hfile H. unfold run_batch in H.
  apply bind_inv in H as [(loaded & wa & Hl & H)|(e & Hl & _)].
  2:{ apply (keeps_load_selected quiet quiet_stdout) in Hl as [Hlog _].
      by rewrite (new_calls_same _ _ Hlog). }
  apply (keeps_load_selected quiet quiet_stdout) in Hl as [Hlog Hfiles].
  apply bind_inv in H as [(quests & wb & Hf & H)|(e & Hf & _)].
  2:{ apply (keeps_filter_existing quiet quiet_stdout quiet_mkdir) in Hf
        as [Hlog' _].
      rewrite new_calls_same; [done | congruence]. }
  apply filter_existing_inv in Hf as (Hquests & Hwb & _).
  assert (api_log wb = api_log w) as Hlogb.
  { rewrite Hwb. simpl. unfold with_audio_dir.
    by destruct (audio_dir wa); simpl. }
  apply dispatch_calls_within in H.
  unfold new_calls in *. rewrite Hlogb in H.
  eapply Forall_impl; [exact H |]. intros entry Hin Hz.
  rewrite Hquests in Hin. apply list_elem_of_filter in Hin as [Hin _].
  unfold py_in_set in Hin. rewrite Hz in Hin.
  apply bool_decide_eq_false in Hin. apply Hin.
  apply (existing_ids_of_audio_file _ q z Hq). by rewrite Hfiles.
Qed.

(** C7, as the code has it: when a run of [run_batch] renders a quest whose
    id is an int (so that [generate_audio] wrote [quest_<id>.mp3] and
    returned its path), the file is there at the end of the run, and a
    following run with skip-existing on makes no call for a quest with that
    id, whatever its other options are. *)
Theorem second_run_skips_rendered_ids self quest_ids from_export
    skip_existing voice_profile delay w0 q z
    quest_ids2 from_export2 dry_run2 voice_profile2 delay2 :
  q ∈ rendered_by_run self quest_ids from_export skip_existing voice_profile
                      delay w0 →
  quest_id q = PInt z →
  let w1 := (run_batch self quest_ids from_export skip_existing false
                       voice_profile delay w0).2 in
  let w2 := (run_batch self quest_ids2 from_export2 true dry_run2
                       voice_profile2 delay2 w1).2 in
  audio_file_name q ∈ dom (dir_files (audio_dir w1))
  ∧ Forall (λ entry, as_int (quest_id entry.1) ≠ Some z) (new_calls w1 w2).
Proof.
  intros Hr Hq w1 w2.
  assert (audio_file_name q ∈ dom (dir_files (audio_dir w1))) as Hfile.
  { unfold w1. rewrite run_batch_stages, bind_run.
    unfold rendered_by_run in Hr.
    destruct (selected_quests self quest_ids from_export skip_existing w0)
      as [[quests|e] wa]; [|by inversion Hr].
    destruct quests as [|q0 rest]; [by inversion Hr |].
    unfold dispatch. rewrite bind_run.
    change (print (start_line (length (q0 :: rest))) wa)
      with (Ok tt, add_stdout (start_line (length (q0 :: rest))) wa).
    cbv beta iota. rewrite bind_run.
    pose proof (rendered_by_loop_file self voice_profile delay (q0 :: rest)
                  _ q 0%nat 0%nat Hr) as Hin.
    destruct (batch_loop self voice_profile delay (q0 :: rest) 0 0
                (add_stdout (start_line (length (q0 :: rest))) wa))
      as [[counters|e] wb]; [|exact Hin].
    rewrite bind_run. exact Hin. }
  split; [exact Hfile |].
  eapply run_with_file_makes_no_call; [exact Hq | exact Hfile |].
  apply surjective_pairing.
Qed.

Lemma second_run_skips_rendered_ids_witness :
  let w0 := example_world [record_1; record_2; record_3] in
  let w1 := (run_batch example_generator None false true false
                       (Some "epic_narrator") (1 # 2) w0).2 in
  let w2 := (run_batch example_generator None false true false
                       (Some "epic_narrator") (1 # 2) w1).2 in
  audio_file_name (from_dict record_3) ∈ dom (dir_files (audio_dir w1))
  ∧ Forall (λ entry, as_int (quest_id entry.1) ≠ Some 3) (new_calls w1 w2).
Proof.
  apply (second_run_skips_rendered_ids example_generator None false true
           (Some "epic_narrator") (1 # 2)
           (example_world [record_1; record_2; record_3])
           (from_dict record_3) 3 None false false (Some "epic_narrator")
           (1 # 2)); [|reflexivity].
  vm_compute. set_solver.
Defined.

(** C7 as the specification states it, for every record set, fails: a
    record whose id is the string "7" is rendered by a first run, which
    writes [quest_7.mp3], and rendered again by a second run with
    skip-existing on: the scanner finds the int 7, which the string does not
    equal. *)
Lemma string_id_is_rendered_again_counterexample :
  ¬ (∀ self quest_ids from_export voice_profile delay w0 q,
       q ∈ rendered_by_run self quest_ids from_export true voice_profile
                           delay w0 →
       let w1 := (run_batch self quest_ids from_export true false
                            voice_profile delay w0).2 in
       let w2 := (run_batch self quest_ids from_export true false
                            voice_profile delay w1).2 in
       Forall (λ entry, quest_id entry.1 ≠ quest_id q) (new_calls w1 w2)).
Proof.
  intros H.
  specialize (H example_generator None false (Some "epic_narrator") (1 # 2)
                (example_world [record_7s]) (from_dict record_7s)).
  assert (from_dict record_7s
          ∈ rendered_by_run example_generator None false true
              (Some "epic_narrator") (1 # 2) (example_world [record_7s]))
    as Hin by (vm_compute; left).
  specialize (H Hin). cbv zeta in H. vm_compute in H.
  inversion H as [|entry rest Hne _]. by apply Hne.
Qed.

Example string_id_writes_the_file_of_the_int :
  "quest_7.mp3"
  ∈ dom (dir_files (audio_dir
           (run_batch example_generator None false true false
                      (Some "epic_narrator") (1 # 2)
                      (example_world [record_7s])).2)).
Proof. vm_compute. set_solver. Qed.

(** ** The voice of a call *)

Lemma resolve_voice_inv self voice_profile w v w' :
  resolve_voice self voice_profile w = (Ok v, w') →
  w' = w
  ∧ ((voice_profile = None ∨ voice_profile = Some "") →
     voice_id (elevenlabs (config self)) = Some v)
  ∧ (∀ name, voice_profile = Some name → name ≠ "" →
       ∃ table, voice_profiles (config self) = Some table
                ∧ match table !! name with
                  | Some profile => profile_voice_id profile = Some v
                  | None => voice_id (elevenlabs (config self)) = Some v
                  end).
Proof.
  unfold resolve_voice. intros H.
  destruct voice_profile as [name|].
  - destruct (String.eqb name "") eqn:E; simpl in H.
    + apply String.eqb_eq in E. subst.
      apply subscript_inv in H as [Hv ->].
      split; [done |]. split; [done |]. by intros name [= <-].
    + assert (name ≠ "") as Hne by (intros ->; discriminate E).
      apply bind_inv in H as [(table & w1 & Ht & H)|(? & _ & ?)]; [|done].
      apply subscript_inv in Ht as [Ht ->].
      split.
      { destruct (table !! name) as [profile|];
          by apply subscript_inv in H as [_ ->]. }
      split; [intros [?|[= ?]]; done |].
      intros name' [= <-] _. exists table. split; [done |].
      destruct (table !! name) as [profile|];
        by apply subscript_inv in H as [? _].
  - apply subscript_inv in H as [Hv ->].
    split; [done |]. split; [done |]. by intros name [=].
Qed.

Lemma generate_audio_calls self quest voice_profile w :
  Forall (λ entry, entry.1 = quest ∧ blank_text quest = false
                   ∧ tts_text quest = PStr (call_text entry.2)
                   ∧ resolve_voice self voice_profile w
                     = (Ok (call_voice_id entry.2), w))
         (new_calls w (generate_audio self quest voice_profile w).2).
Proof.
  set (P := λ entry : Quest * ApiCall,
         entry.1 = quest ∧ blank_text quest = false
         ∧ tts_text quest = PStr (call_text entry.2)
         ∧ resolve_voice self voice_profile w
           = (Ok (call_voice_id entry.2), w)).
  destruct (keeps_generate_audio (log_grows P) P
              (log_grows_stdout _)
              (λ w, or_introl (log_grows_set_dir _ _ w))
              (log_grows_call _)
              (λ name content files w _, log_grows_set_dir _ _ w)
              self quest voice_profile) with (w := w)
      (r := (generate_audio self quest voice_profile w).1)
      (w' := (generate_audio self quest voice_profile w).2)
    as (new & Hnew & Hall).
  - intros call w0 Hb Ht Hv. unfold P. simpl. repeat split; try done.
    destruct (resolve_voice_pure self voice_profile) as [r0 Hr].
    rewrite Hr in Hv |- *. by inversion Hv.
  - apply surjective_pairing.
  - by rewrite (new_calls_app _ _ _ Hnew).
Qed.

(** C5, as the code has it: the voice of a call of [generate_audio] is the
    default voice of the configuration when the profile name is omitted,
    empty, or not a key of the profile table, and the voice of the table
    entry when the name is non-empty and a key of the table. *)
Theorem voice_is_profile_or_default self quest voice_profile w entry :
  entry ∈ new_calls w (generate_audio self quest voice_profile w).2 →
  ((voice_profile = None ∨ voice_profile = Some "") →
   voice_id (elevenlabs (config self)) = Some (call_voice_id entry.2))
  ∧ (∀ name, voice_profile = Some name → name ≠ "" →
       ∃ table, voice_profiles (config self) = Some table
         ∧ (table !! name = None →
            voice_id (elevenlabs (config self))
            = Some (call_voice_id entry.2))
         ∧ (∀ profile, table !! name = Some profile →
              profile_voice_id profile = Some (call_voice_id entry.2))).
Proof.
  intros Hin.
  pose proof (generate_audio_calls self quest voice_profile w) as Hall.
  apply (proj1 (Forall_forall _ _) Hall) in Hin as (_ & _ & _ & Hv).
  apply resolve_voice_inv in Hv as (_ & Hd & Hn).
  split; [exact Hd |]. intros name Hname Hne.
  destruct (Hn name Hname Hne) as (table & Ht & Hm).
  exists table. split; [done |].
  destruct (table !! name) as [profile|]; split; try done.
  by intros profile' [= <-].
Qed.

Lemma voice_is_profile_or_default_witness :
  ∃ table, voice_profiles (config example_generator) = Some table
    ∧ (table !! "epic_narrator" = None →
       voice_id (elevenlabs (config example_generator)) = Some "X1")
    ∧ (∀ profile, table !! "epic_narrator" = Some profile →
         profile_voice_id profile = Some "X1").
Proof.
  apply (proj2 (voice_is_profile_or_default example_generator
                  (from_dict record_1) (Some "epic_narrator")
                  (example_world [record_1])
                  (from_dict record_1,
                   {| call_voice_id := "X1"; call_text := "A. B";
                      call_model_id := "eleven_multilingual_v2";
                      call_voice_settings := "{}" |})
                  ltac:(vm_compute; set_solver))
           "epic_narrator" eq_refl ltac:(discriminate)).
Defined.

(** C5 as the specification states it fails for the empty profile name: it
    is a key of the table here, and the call is made with the default
    voice, not with the voice of the entry. *)
Lemma empty_profile_name_counterexample :
  ¬ (∀ self quest name w table profile entry,
       voice_profiles (config self) = Some table →
       table !! name = Some profile →
       entry ∈ new_calls w (generate_audio self quest (Some name) w).2 →
       profile_voice_id profile = Some (call_voice_id entry.2)).
Proof.
  intros H.
  specialize (H unnamed_profile_generator (from_dict record_1) ""
                (example_world [record_1])
                {[ "" := {| profile_voice_id := Some "X1" |} ]}
                {| profile_voice_id := Some "X1" |}
                (from_dict record_1,
                 {| call_voice_id := "D0"; call_text := "A. B";
                    call_model_id := "eleven_multilingual_v2";
                    call_voice_settings := "{}" |})
                eq_refl eq_refl ltac:(vm_compute; set_solver)).
  discriminate H.
Qed.

(** ** What [generate_audio] returns *)

(** The [try] block and its handler, step by step. *)
Lemma synthesize_spec self quest voice text output_path w :
  synthesize self quest voice text output_path w
  = match model_id (elevenlabs (config self)),
          voice_settings (elevenlabs (config self)) with
    | None, _ => (Ok None, add_stdout (error_line quest (KeyError "model_id")) w)
    | Some _, None =>
        (Ok None, add_stdout (error_line quest (KeyError "voice_settings")) w)
    | Some model, Some settings =>
        let call := {| call_voice_id := voice; call_text := text;
                       call_model_id := model;
                       call_voice_settings := settings |} in
        let w1 := add_api_log (quest, call) w in
        match service w (length (api_log w)) call with
        | ConvertRaises e => (Ok None, add_stdout (error_line quest e) w1)
        | AudioStream chunks failure =>
            match write_file (audio_file_name quest) chunks w1 with
            | (Raise e, w2) => (Ok None, add_stdout (error_line quest e) w2)
            | (Ok _, w2) =>
                match failure with
                | Some e => (Ok None, add_stdout (error_line quest e) w2)
                | None => (Ok (Some output_path), w2)
                end
            end
        end
    end.
Proof.
  unfold synthesize, try_except.
  destruct (model_id (elevenlabs (config self))) as [model|]; [|reflexivity].
  destruct (voice_settings (elevenlabs (config self))) as [settings|];
    [|reflexivity].
  rewrite !bind_run. simpl. rewrite bind_run. simpl. rewrite bind_run.
  unfold convert.
  destruct (service w (length (api_log w)) _) as [e|chunks failure];
    [reflexivity |].
  rewrite bind_run. simpl.
  destruct (write_file (audio_file_name quest) chunks _) as [[u|e] w2];
    [|reflexivity].
  destruct failure; reflexivity.
Qed.

Lemma resolve_voice_runs self voice_profile w :
  voices_configured (config self) →
  ∃ voice, resolve_voice self voice_profile w = (Ok voice, w).
Proof.
  intros ([v Hv] & table & Ht & Hp). unfold resolve_voice.
  rewrite Hv, Ht. simpl.
  destruct voice_profile as [name|]; [|by eexists].
  destruct (negb (String.eqb name "")); [|by eexists].
  rewrite bind_run. simpl.
  destruct (table !! name) as [profile|] eqn:E; [|by eexists].
  destruct (Hp name profile E) as [v' ->]. by eexists.
Qed.

Lemma with_audio_dir_log w : api_log (with_audio_dir w) = api_log w.
Proof. unfold with_audio_dir. by destruct (audio_dir w). Qed.

Lemma with_audio_dir_service w : service (with_audio_dir w) = service w.
Proof. unfold with_audio_dir. by destruct (audio_dir w). Qed.

Lemma render_runs self quest voice_profile text w voice section dir :
  resolve_voice self voice_profile w = (Ok voice, w) →
  paths (config self) = Some section → audio_output section = Some dir →
  audio_dir w ≠ DirBlocked →
  render self quest voice_profile text w
  = synthesize self quest voice text
      (path_join (path_join (project_root self) dir) (audio_file_name quest))
      (with_audio_dir w).
Proof.
  intros Hv Hs Hd Hb. unfold render.
  rewrite bind_run, Hv, bind_run, (config_path_of_runs _ _ _ _ _ _ Hs Hd).
  rewrite bind_run.
  assert (mkdir_audio_dir w = (Ok tt, with_audio_dir w)) as ->.
  { unfold mkdir_audio_dir, with_audio_dir. by destruct (audio_dir w). }
  reflexivity.
Qed.

Lemma tts_text_is_str q :
  is_str (title q) → is_str (description q) → is_str (tts_text q).
Proof.
  intros [t Ht] [d Hd]. unfold tts_text, py_or. rewrite Ht, Hd. simpl.
  destruct (String.eqb t ""); simpl; [|by eexists].
  destruct (String.eqb d ""); by eexists.
Qed.

Lemma write_file_log name chunks w r w' :
  write_file name chunks w = (r, w') → api_log w' = api_log w.
Proof.
  unfold write_file. intros H.
  destruct (audio_dir w); try (by inversion H).
  destruct (plain_file_name name); [|by inversion H].
  destruct (file_fault w name) as [[e|kept e]|]; by inversion H.
Qed.

Lemma write_file_runs name chunks w files :
  writable w name = true → audio_dir w = DirPresent files →
  write_file name chunks w
  = (Ok tt, set_audio_dir (DirPresent (<[name := concat chunks]> files)) w).
Proof.
  unfold writable, write_file. intros Hw Hd. rewrite Hd.
  destruct (plain_file_name name); [|done].
  by destruct (file_fault w name).
Qed.

Lemma write_file_writable name chunks w u w' :
  write_file name chunks w = (Ok u, w') → writable w name = true.
Proof.
  unfold writable, write_file. intros H.
  destruct (audio_dir w); try done.
  destruct (plain_file_name name); [|done].
  by destruct (file_fault w name) as [[e|kept e]|].
Qed.

Lemma with_audio_dir_present w :
  audio_dir w ≠ DirBlocked →
  ∃ files, audio_dir (with_audio_dir w) = DirPresent files.
Proof.
  intros Hb. unfold with_audio_dir.
  destruct (audio_dir w) eqn:E; [| done |]; simpl; rewrite ?E; by eexists.
Qed.

Lemma with_audio_dir_writable w name :
  writable (with_audio_dir w) name = writable w name.
Proof. unfold with_audio_dir, writable. by destruct (audio_dir w). Qed.

(** What [generate_audio] does when nothing before its [try] block raises:
    it ends without a call, or with one call whose answer and whose file
    decide the result. *)
Lemma generate_audio_scenarios self quest voice_profile w section dir :
  is_str (title quest) → is_str (description quest) →
  voices_configured (config self) →
  paths (config self) = Some section → audio_output section = Some dir →
  audio_dir w ≠ DirBlocked →
  let out := generate_audio self quest voice_profile w in
  let path := path_join (path_join (project_root self) dir)
                        (audio_file_name quest) in
  (out.1 = Ok None ∧ new_calls w out.2 = []
   ∧ (client self = None ∨ blank_text quest = true
      ∨ model_id (elevenlabs (config self)) = None
      ∨ voice_settings (elevenlabs (config self)) = None))
  ∨ (is_Some (client self) ∧ blank_text quest = false
     ∧ is_Some (model_id (elevenlabs (config self)))
     ∧ is_Some (voice_settings (elevenlabs (config self)))
     ∧ ∃ call,
         new_calls w out.2 = [(quest, call)]
         ∧ match service w (length (api_log w)) call with
           | ConvertRaises e => out.1 = Ok None
           | AudioStream chunks failure =>
               if writable w (audio_file_name quest)
               then audio_file_name quest ∈ dom (dir_files (audio_dir out.2))
                    ∧ out.1 = match failure with
                              | Some _ => Ok None
                              | None => Ok (Some path)
                              end
               else out.1 = Ok None
           end).
Proof.
  intros Ht Hd Hvoices Hs Ha Hb out path. unfold out.
  destruct (client self) as [c|] eqn:Hc.
  2:{ left. unfold generate_audio. rewrite Hc, bind_run. simpl.
      rewrite new_calls_same by done. split; [done |]. split; [done |].
      by left. }
  rewrite (generate_audio_with_client _ _ _ _ _ Hc).
  destruct (tts_text_is_str quest Ht Hd) as [s ->].
  destruct (blank_text quest) eqn:Hblank.
  { left. simpl. rewrite new_calls_same by done. split; [done |].
    split; [done |]. by right; left. }
  destruct (resolve_voice_runs self voice_profile w Hvoices) as [voice Hv].
  rewrite (render_runs _ _ _ _ _ _ _ _ Hv Hs Ha Hb), synthesize_spec.
  fold path. rewrite with_audio_dir_log, with_audio_dir_service.
  destruct (model_id (elevenlabs (config self))) as [model|].
  2:{ left. simpl. rewrite new_calls_same by apply with_audio_dir_log.
      split; [done |]. split; [done |]. by right; right; left. }
  destruct (voice_settings (elevenlabs (config self))) as [settings|].
  2:{ left. simpl. rewrite new_calls_same by apply with_audio_dir_log.
      split; [done |]. split; [done |]. by right; right; right. }
  cbv zeta. right. do 4 (split; [done |]).
  set (call := {| call_voice_id := voice; call_text := s;
                  call_model_id := model; call_voice_settings := settings |}).
  exists call.
  destruct (service w (length (api_log w)) call) as [e|chunks failure].
  { simpl. split; try done. apply new_calls_app. simpl.
    by rewrite with_audio_dir_log. }
  destruct (with_audio_dir_present w Hb) as [files Hfiles].
  assert (∀ r w2,
            write_file (audio_file_name quest) chunks
              (add_api_log (quest, call) (with_audio_dir w)) = (r, w2) →
            new_calls w w2 = [(quest, call)]) as Hnew.
  { intros r w2 Hw. apply new_calls_app.
    rewrite (write_file_log _ _ _ _ _ Hw). simpl.
    by rewrite with_audio_dir_log. }
  destruct (writable w (audio_file_name quest)) eqn:Hwr.
  - rewrite (write_file_runs _ _ _ files);
      [| by rewrite <- Hwr, <- (with_audio_dir_writable w) | done].
    assert (new_calls w
              (set_audio_dir
                 (DirPresent (<[audio_file_name quest := concat chunks]> files))
                 (add_api_log (quest, call) (with_audio_dir w)))
            = [(quest, call)]) as Hn.
    { apply new_calls_app. simpl. by rewrite with_audio_dir_log. }
    destruct failure as [e|]; simpl; rewrite dom_insert_L;
      (split; [exact Hn |]); split; try done; set_solver.
  - destruct (write_file (audio_file_name quest) chunks
                (add_api_log (quest, call) (with_audio_dir w)))
      as [[u|e] w2] eqn:Hw.
    + apply write_file_writable in Hw.
      rewrite <- (with_audio_dir_writable w) in Hwr.
      unfold writable in *. simpl in Hw. congruence.
    + simpl. split; try done.
      change (new_calls w w2 = [(quest, call)]). by apply (Hnew (Raise e)).
Qed.

(** C2, as the code has it: for a quest whose title and description are
    strings, a configuration that has the voices and names the output
    directory, and an output directory that can be used, [generate_audio]
    does not raise.  It returns [None] without a client, for a blank text,
    without a model id or voice settings in the configuration, when the
    call it makes fails, and when the file cannot be written; it returns
    the output path when the call succeeds and the file system takes the
    file. *)
Theorem generate_audio_returns_path_or_none self quest voice_profile w
    section dir :
  is_str (title quest) → is_str (description quest) →
  voices_configured (config self) →
  paths (config self) = Some section → audio_output section = Some dir →
  audio_dir w ≠ DirBlocked →
  let out := generate_audio self quest voice_profile w in
  let path := path_join (path_join (project_root self) dir)
                        (audio_file_name quest) in
  (out.1 = Ok None ∨ out.1 = Ok (Some path))
  ∧ (client self = None → out.1 = Ok None)
  ∧ (blank_text quest = true → out.1 = Ok None)
  ∧ (model_id (elevenlabs (config self)) = None
     ∨ voice_settings (elevenlabs (config self)) = None → out.1 = Ok None)
  ∧ (∀ entry, entry ∈ new_calls w out.2 →
       api_fails (service w (length (api_log w)) entry.2) →
       out.1 = Ok None)
  ∧ (writable w (audio_file_name quest) = false → out.1 = Ok None)
  ∧ (out.1 = Ok (Some path) →
     audio_file_name quest ∈ dom (dir_files (audio_dir out.2))
     ∧ writable w (audio_file_name quest) = true
     ∧ ∃ entry, new_calls w out.2 = [entry]
                ∧ ¬ api_fails (service w (length (api_log w)) entry.2))
  ∧ (is_Some (client self) → blank_text quest = false →
     is_Some (model_id (elevenlabs (config self))) →
     is_Some (voice_settings (elevenlabs (config self))) →
     writable w (audio_file_name quest) = true →
     (∀ call, ¬ api_fails (service w (length (api_log w)) call)) →
     out.1 = Ok (Some path)).
Proof.
  intros Ht Hd Hvoices Hs Ha Hb out path.
  destruct (generate_audio_scenarios self quest voice_profile w section dir
              Ht Hd Hvoices Hs Ha Hb)
    as [(Hnone & Hno & Hwhy)|(Hc & Hbl & Hm & Hv & call & Hnew & Hcall)].
  { fold out in Hnone, Hno.
    split; [by left |]. split; [intros; exact Hnone |].
    split; [intros; exact Hnone |]. split; [intros; exact Hnone |].
    split; [intros entry Hin; rewrite Hno in Hin; by inversion Hin |].
    split; [intros; exact Hnone |].
    split; [intros Hp; congruence |].
    intros [c Hc] Hbl [m Hm] [v Hv] _ _.
    destruct Hwhy as [?|[?|[?|?]]]; congruence. }
  fold out in Hnew, Hcall. fold path in Hcall.
  assert (out.1 = Ok None ∨ out.1 = Ok (Some path)) as Hshape.
  { destruct (service w (length (api_log w)) call) as [e|chunks failure];
      [by left |].
    destruct (writable w (audio_file_name quest)); [|by left].
    destruct Hcall as [_ ->]. destruct failure; [by left | by right]. }
  split; [exact Hshape |].
  split; [intros Hn; destruct Hc as [c Hc]; congruence |].
  split; [intros Hn; congruence |].
  split; [intros [Hn|Hn]; [destruct Hm as [m Hm] | destruct Hv as [v Hv]];
          congruence |].
  split.
  { intros entry Hin Hf. rewrite Hnew in Hin.
    apply list_elem_of_singleton in Hin as ->. simpl in Hf.
    destruct (service w (length (api_log w)) call) as [e|chunks failure];
      [done |].
    destruct failure as [e|]; [|done].
    destruct (writable w (audio_file_name quest)); [by destruct Hcall | done]. }
  split.
  { intros Hw. rewrite Hw in Hcall.
    by destruct (service w (length (api_log w)) call). }
  split.
  { intros Hp.
    destruct (service w (length (api_log w)) call) as [e|chunks failure]
      eqn:Hsv; [congruence |].
    destruct (writable w (audio_file_name quest)); [|congruence].
    destruct Hcall as [Hin Hr]. split; [done |]. split; [done |].
    exists (quest, call). split; [done |]. simpl. rewrite Hsv.
    destruct failure; [congruence | tauto]. }
  intros _ _ _ _ Hw Hok. specialize (Hok call). rewrite Hw in Hcall.
  destruct (service w (length (api_log w)) call) as [e|chunks failure];
    [by destruct Hok |].
  destruct failure as [e|]; [by destruct Hok | by destruct Hcall].
Qed.

Lemma generate_audio_returns_path_or_none_witness :
  let out := generate_audio example_generator (from_dict record_1)
                            (Some "epic_narrator")
                            (example_world [record_1]) in
  out.1 = Ok (Some "/srv/tts/audio/quest_1.mp3").
Proof.
  intros out.
  destruct (generate_audio_returns_path_or_none example_generator
              (from_dict record_1) (Some "epic_narrator")
              (example_world [record_1])
              {| quests_json := Some "data/quests.json";
                 batch_export := Some "data/batch_export.json";
                 audio_output := Some "audio" |} "audio")
    as (_ & _ & _ & _ & _ & _ & _ & H).
  - by eexists.
  - by eexists.
  - split; [by eexists |]. eexists. split; [reflexivity |].
    intros name profile Hp. apply lookup_singleton_Some in Hp as [_ <-].
    by eexists.
  - reflexivity.
  - reflexivity.
  - discriminate.
  - apply H; try (by eexists); try reflexivity.
    intros call Hf. exact Hf.
Defined.

(** C2 as the specification states it fails: the lookups of the voice and
    of the output directory are before the [try] block, so with a
    configuration without a profile table the [KeyError] leaves
    [generate_audio]. *)
Lemma missing_profile_table_counterexample :
  ¬ (∀ self quest voice_profile w,
       ∃ result, (generate_audio self quest voice_profile w).1 = Ok result).
Proof.
  intros H.
  destruct (H no_profiles_generator (from_dict record_1)
              (Some "epic_narrator") (example_world [record_1])) as [r Hr].
  vm_compute in Hr. discriminate Hr.
Qed.

Example generate_audio_raises_without_profile_table :
  (generate_audio no_profiles_generator (from_dict record_1)
                  (Some "epic_narrator") (example_world [record_1])).1
  = Raise (KeyError "voice_profiles").
Proof. vm_compute. reflexivity. Qed.

(** A name the file system refuses: the record has an id of 301 digits, the
    name of its file is longer than 255 bytes, [open] raises and
    [generate_audio] returns [None] after its call. *)
Example generate_audio_returns_none_for_a_refused_name :
  let q := from_dict {[ "quest_id" := PInt (10 ^ 300); "title" := PStr "A" ]} in
  let w := {| audio_dir := DirAbsent; quests_file := None;
              export_file := None; service := example_service;
              file_fault :=
                λ name, if (255 <? String.length name)%nat
                        then Some (OpenFails (OSError "File name too long"))
                        else None;
              sleep_fault := λ _, None;
              api_log := []; stdout := []; sleeps := [] |} in
  (generate_audio example_generator q None w).1 = Ok None
  ∧ length (api_log (generate_audio example_generator q None w).2) = 1%nat
  ∧ dir_files (audio_dir (generate_audio example_generator q None w).2) = ∅.
Proof. vm_compute. repeat split; reflexivity. Qed.

Example generate_audio_raises_for_blocked_directory :
  (generate_audio example_generator (from_dict record_1)
                  (Some "epic_narrator")
                  (set_audio_dir DirBlocked (example_world [record_1]))).1
  = Raise (FileExistsError "File exists").
Proof. vm_compute. reflexivity. Qed.

(** ** The example of the specification *)

Lemma load_selected_all self w section sub data :
  paths (config self) = Some section → quests_json section = Some sub →
  quests_file w = Some data →
  load_selected self None false w
  = (Ok (from_dict <$> data),
     add_stdout ("Geladene Quests: "
                 +:+ str_of_nat (length (from_dict <$> data))) w).
Proof.
  intros Hs Hq Hd. unfold load_selected.
  rewrite bind_run, (load_quests_runs _ _ _ _ _ Hs Hq Hd), bind_run.
  reflexivity.
Qed.

Lemma existing_ids_empty : existing_ids ∅ = ∅.
Proof. reflexivity. Qed.

Lemma batch_loop_one self voice_profile delay quest w result w1 :
  generate_audio self quest voice_profile w = (Ok result, w1) →
  sleep_error w1 delay = None →
  batch_loop self voice_profile delay [quest] 0 0 w
  = (Ok (match result with Some _ => (1, 0) | None => (0, 1) end)%nat,
     add_sleep delay w1).
Proof.
  intros Hg Hd. simpl. rewrite bind_run, Hg, bind_run. unfold sleep.
  rewrite Hd. simpl. by destruct result.
Qed.

Lemma with_audio_dir_file_fault w :
  file_fault (with_audio_dir w) = file_fault w.
Proof. unfold with_audio_dir. by destruct (audio_dir w). Qed.

Lemma with_audio_dir_sleep_fault w :
  sleep_fault (with_audio_dir w) = sleep_fault w.
Proof. unfold with_audio_dir. by destruct (audio_dir w). Qed.

Lemma with_audio_dir_stdout line w :
  with_audio_dir (add_stdout line w) = add_stdout line (with_audio_dir w).
Proof. unfold with_audio_dir. simpl. by destruct (audio_dir w). Qed.

Lemma with_audio_dir_idem w files :
  audio_dir w = DirPresent files → with_audio_dir w = w.
Proof. intros H. unfold with_audio_dir. by rewrite H. Qed.

Lemma with_audio_dir_empty w :
  audio_dir w ≠ DirBlocked → dir_files (audio_dir w) = ∅ →
  audio_dir (with_audio_dir w) = DirPresent ∅.
Proof.
  intros Hb He. unfold with_audio_dir.
  destruct (audio_dir w) eqn:E; simpl in *; [done | done |].
  by rewrite E, He.
Qed.

(** C6, as the code has it: in the example of the specification (profile
    [epic_narrator] with voice [X1], one record with id 1, title "A" and
    description "B", no output yet, a service that answers, a file system
    that takes the file and a delay that [time.sleep] accepts) [run_batch]
    makes one call, with text "A. B" and voice "X1", creates [quest_1.mp3]
    and reports 1 successful and 0 failed.  The derived text is the title,
    a period and a space, and the description when the title is not empty,
    and the description alone otherwise, where a title or description that
    is [None] counts as the empty string. *)
Theorem spec_example_and_derived_text self c w table section quests_path dir
    model settings chunks delay :
  client self = Some c →
  voice_profiles (config self) = Some table →
  table !! "epic_narrator" = Some {| profile_voice_id := Some "X1" |} →
  paths (config self) = Some section →
  quests_json section = Some quests_path → audio_output section = Some dir →
  model_id (elevenlabs (config self)) = Some model →
  voice_settings (elevenlabs (config self)) = Some settings →
  quests_file w = Some [record_1] →
  audio_dir w ≠ DirBlocked → dir_files (audio_dir w) = ∅ →
  let call := {| call_voice_id := "X1"; call_text := "A. B";
                 call_model_id := model; call_voice_settings := settings |} in
  service w (length (api_log w)) call = AudioStream chunks None →
  file_fault w "quest_1.mp3" = None →
  sleep_error w delay = None →
  let out := run_batch self None false true false (Some "epic_narrator")
                       delay w in
  (out.1 = Ok (Completed 1 0)
   ∧ new_calls w out.2 = [(from_dict record_1, call)]
   ∧ dir_files (audio_dir out.2) = {[ "quest_1.mp3" := concat chunks ]}
   ∧ last (stdout out.2) = Some (summary_line 1 0))
  ∧ (∀ q t d, title q = PStr t → description q = PStr d →
       tts_text q = PStr (if String.eqb t "" then d else t +:+ ". " +:+ d))
  ∧ (∀ q t, title q = PStr t → t ≠ "" → description q = PNone →
       tts_text q = PStr (t +:+ ". "))
  ∧ (∀ q d, title q = PNone → description q = PStr d → tts_text q = PStr d)
  ∧ (∀ q, title q = PNone → description q = PNone → tts_text q = PStr "").
Proof.
  intros Hc Ht Hp Hs Hq Ha Hm Hv Hfile Hb Hempty call Hcall Hff Hdelay out.
  split.
  - unfold out, run_batch.
    rewrite bind_run, (load_selected_all _ _ _ _ _ Hs Hq Hfile), bind_run.
    set (w1 := add_stdout _ w).
    assert (has_audio_output (config self)) as Hout by (by exists section, dir).
    destruct (filter_existing_runs self (from_dict <$> [record_1]) w1 Hout Hb)
      as (quests & wb & Hf).
    rewrite Hf. apply filter_existing_inv in Hf as (Hquests & Hwb & _).
    change (dir_files (audio_dir w1)) with (dir_files (audio_dir w)) in Hquests.
    rewrite Hempty, existing_ids_empty in Hquests.
    assert (quests = [from_dict record_1]) as ->
      by (rewrite Hquests; vm_compute; reflexivity).
    clear Hquests. simpl length in Hwb.
    unfold w1 in Hwb. rewrite with_audio_dir_stdout in Hwb.
    pose proof (with_audio_dir_empty w Hb Hempty) as Hdir.
    pose proof (with_audio_dir_log w) as Hlog.
    pose proof (with_audio_dir_service w) as Hserv.
    pose proof (with_audio_dir_file_fault w) as Hfault.
    pose proof (with_audio_dir_sleep_fault w) as Hsleep.
    set (w' := with_audio_dir w) in *. clearbody w'. clear w1. subst wb.
    unfold dispatch. rewrite bind_run.
    match goal with
    | |- context [print (start_line _) ?wb] =>
        change (print (start_line (length [from_dict record_1])) wb)
          with (Ok tt, add_stdout (start_line 1) wb);
        set (wc := add_stdout (start_line 1) wb)
    end.
    cbv beta iota. rewrite bind_run.
    assert (audio_dir wc = DirPresent ∅) as Hdc by exact Hdir.
    assert (api_log wc = api_log w) as Hlc by exact Hlog.
    assert (service wc = service w) as Hsc by exact Hserv.
    assert (file_fault wc = file_fault w) as Hfc by exact Hfault.
    assert (sleep_fault wc = sleep_fault w) as Hsl by exact Hsleep.
    clearbody wc.
    set (path := path_join (path_join (project_root self) dir)
                           (audio_file_name (from_dict record_1))).
    set (wd := set_audio_dir
                 (DirPresent (<["quest_1.mp3" := concat chunks]> ∅))
                 (add_api_log (from_dict record_1, call) wc)).
    assert (generate_audio self (from_dict record_1) (Some "epic_narrator") wc
            = (Ok (Some path), wd)) as Hg.
    { rewrite (generate_audio_with_client _ _ _ _ _ Hc).
      change (tts_text (from_dict record_1)) with (PStr "A. B").
      change (blank_text (from_dict record_1)) with false. cbv iota.
      assert (resolve_voice self (Some "epic_narrator") wc = (Ok "X1", wc))
        as Hvoice.
      { unfold resolve_voice. simpl. rewrite Ht, bind_run. simpl.
        by rewrite Hp. }
      rewrite (render_runs _ _ _ _ _ _ _ _ Hvoice Hs Ha)
        by (rewrite Hdc; discriminate).
      rewrite (with_audio_dir_idem _ _ Hdc), synthesize_spec, Hm, Hv.
      cbv zeta. fold call. rewrite Hlc, Hsc, Hcall.
      unfold write_file. simpl audio_dir. rewrite Hdc.
      change (plain_file_name (audio_file_name (from_dict record_1)))
        with true.
      change (audio_file_name (from_dict record_1)) with "quest_1.mp3".
      simpl file_fault. rewrite Hfc, Hff. reflexivity. }
    assert (sleep_error wd delay = None) as Hdelay'.
    { unfold sleep_error, wd in *. simpl. by rewrite Hsl. }
    rewrite (batch_loop_one _ _ _ _ _ _ _ Hg Hdelay'), bind_run. simpl.
    split; [reflexivity |]. split; [|split].
    + apply new_calls_app. unfold wd. simpl. by rewrite Hlc.
    + reflexivity.
    + apply last_snoc.
  - repeat split.
    + intros q t d Hqt Hqd. destruct (String.eqb t "") eqn:E.
      * apply String.eqb_eq in E. subst. by apply tts_text_untitled.
      * assert (t ≠ "") as Hne by (intros ->; discriminate E).
        rewrite (tts_text_titled q t Hqt Hne), Hqd. unfold py_or. simpl.
        by destruct (String.eqb d "") eqn:E';
          [apply String.eqb_eq in E' as ->|].
    + intros q t Hqt Hne Hqd. by rewrite (tts_text_titled q t Hqt Hne), Hqd.
    + intros q d Hqt Hqd. unfold tts_text, py_or. rewrite Hqt, Hqd. simpl.
      by destruct (String.eqb d "") eqn:E';
        [apply String.eqb_eq in E' as ->|].
    + intros q Hqt Hqd. unfold tts_text, py_or. by rewrite Hqt, Hqd.
Qed.

Lemma spec_example_and_derived_text_witness :
  let w := example_world [record_1] in
  let call := {| call_voice_id := "X1"; call_text := "A. B";
                 call_model_id := "eleven_multilingual_v2";
                 call_voice_settings := "{}" |} in
  let out := run_batch example_generator None false true false
                       (Some "epic_narrator") (1 # 2) w in
  out.1 = Ok (Completed 1 0)
  ∧ new_calls w out.2 = [(from_dict record_1, call)]
  ∧ dir_files (audio_dir out.2)
    = {[ "quest_1.mp3" := [Byte.x49; Byte.x44; Byte.x33] ]}
  ∧ last (stdout out.2) = Some (summary_line 1 0).
Proof.
  apply (spec_example_and_derived_text example_generator
           {| client_key := "sk-example" |} (example_world [record_1])
           {[ "epic_narrator" := {| profile_voice_id := Some "X1" |} ]}
           {| quests_json := Some "data/quests.json";
              batch_export := Some "data/batch_export.json";
              audio_output := Some "audio" |}
           "data/quests.json" "audio" "eleven_multilingual_v2" "{}"
           [[Byte.x49; Byte.x44]; [Byte.x33]] (1 # 2));
    try reflexivity.
  discriminate.
Defined.

(** C6 as the specification states it fails in its general part: the
    derived text is not the title, a separator and the description, for any
    separator.  With a separator that is not empty (the example has a
    period and a space) a quest with an empty title is against it: its text
    is the description alone.  With the empty separator the example itself
    is against it. *)
Lemma derived_text_is_not_a_concatenation_counterexample :
  ¬ (∃ separator,
       ∀ q, tts_text q
            = PStr (py_str (py_or (title q) (PStr "")) +:+ separator
                    +:+ py_str (py_or (description q) (PStr "")))).
Proof.
  intros [separator H].
  pose proof (H (from_dict {[ "quest_id" := PInt 5; "title" := PStr "";
                              "description" := PStr "B" ]})) as Hempty.
  vm_compute in Hempty.
  destruct separator as [|c [|c' rest]]; try discriminate Hempty.
  specialize (H (from_dict record_1)). vm_compute in H. discriminate H.
Qed.

(** * Further properties of the code *)

(** ** File names and scanned ids *)

(** X1: the name [generate_audio] writes for a quest with an int id and the
    scanner of [get_existing_audio_files] are inverse to each other: adding
    the file of the quest to a directory adds exactly the id of the quest to
    the ids the scanner finds, and quests with different ids get different
    names. *)
Theorem audio_file_name_round_trip q q' z z' files content :
  quest_id q = PInt z → quest_id q' = PInt z' →
  existing_ids (<[audio_file_name q := content]> files)
  = existing_ids files ∪ {[ z ]}
  ∧ (audio_file_name q = audio_file_name q' → z = z').
Proof.
  intros Hq Hq'.
  destruct (audio_file_name_scanned q z Hq) as (Hg & Hi & _).
  destruct (audio_file_name_scanned q' z' Hq') as (_ & Hi' & _).
  split.
  - apply set_eq. intros y.
    rewrite elem_of_union, elem_of_singleton, !existing_ids_spec. split.
    + intros (name & Hn & Hgn & Hin).
      rewrite dom_insert_L, elem_of_union, elem_of_singleton in Hn.
      destruct Hn as [-> | Hn]; [right; congruence | left; by exists name].
    + intros [(name & Hn & Hgn & Hin) | ->].
      * exists name. rewrite dom_insert_L. set_solver.
      * exists (audio_file_name q). rewrite dom_insert_L. set_solver.
  - intros Heq. rewrite Heq in Hi. congruence.
Qed.

Lemma audio_file_name_round_trip_witness :
  existing_ids (<[audio_file_name (from_dict record_3) := [Byte.x49]]> ∅)
  = existing_ids ∅ ∪ {[ 3 ]}.
Proof.
  destruct (audio_file_name_round_trip (from_dict record_3)
              (from_dict record_1) 3 1 ∅ [Byte.x49]) as [H _];
    [reflexivity | reflexivity |].
  exact H.
Defined.

(** X2: the skip-existing filter never drops a quest whose id is a string
    (such as "7") or [None]: no int of the scanned set equals it, whatever
    files the output directory holds, the file [quest_7.mp3] too. *)
Theorem quest_with_string_id_is_never_skipped self loaded w quests w' q :
  quest_id q = PNone ∨ is_str (quest_id q) → q ∈ loaded →
  filter_existing self true loaded w = (Ok quests, w') →
  q ∈ quests.
Proof.
  intros Hid Hin H. apply filter_existing_inv in H as (-> & _).
  apply list_elem_of_filter. split; [|done].
  unfold py_in_set. by destruct Hid as [->|[s ->]].
Qed.

Lemma quest_with_string_id_is_never_skipped_witness :
  let w := set_audio_dir (DirPresent {[ "quest_7.mp3" := [Byte.x49] ]})
                         (example_world [record_7s]) in
  audio_file_name (from_dict record_7s) ∈ dom (dir_files (audio_dir w))
  ∧ ∃ quests,
      (filter_existing example_generator true [from_dict record_7s] w).1
      = Ok quests
      ∧ from_dict record_7s ∈ quests.
Proof.
  intros w. split; [vm_compute; set_solver |].
  eexists. split; [vm_compute; reflexivity |].
  apply (quest_with_string_id_is_never_skipped example_generator
           [from_dict record_7s] w _
           (add_stdout "Nach Filterung (ohne bereits vorhandene): 1"
                       w)).
  - right. by eexists.
  - set_solver.
  - vm_compute. reflexivity.
Defined.

(** ** What one [generate_audio] leaves behind *)

(** The ways [generate_audio] ends: without a call and without a change of
    the files, or with one call for the quest, whose answer decides the
    result and the file. *)
Lemma generate_audio_cases self quest voice_profile w r w' :
  generate_audio self quest voice_profile w = (r, w') →
  (api_log w' = api_log w
   ∧ dir_files (audio_dir w') = dir_files (audio_dir w)
   ∧ ∀ p, r ≠ Ok (Some p))
  ∨ ∃ call,
      api_log w' = (api_log w ++ [(quest, call)])%list
      ∧ match service w (length (api_log w)) call with
        | ConvertRaises e =>
            r = Ok None
            ∧ dir_files (audio_dir w') = dir_files (audio_dir w)
        | AudioStream chunks failure =>
            (writable w (audio_file_name quest) = true
             ∧ dir_files (audio_dir w')
               = <[audio_file_name quest := concat chunks]>
                   (dir_files (audio_dir w))
             ∧ match failure with
               | Some _ => r = Ok None
               | None => ∃ p, r = Ok (Some p)
               end)
            ∨ (writable w (audio_file_name quest) = false
               ∧ r = Ok None
               ∧ (dir_files (audio_dir w') = dir_files (audio_dir w)
                  ∨ ∃ kept,
                      dir_files (audio_dir w')
                      = <[audio_file_name quest := take kept (concat chunks)]>
                          (dir_files (audio_dir w))))
        end.
Proof.
  intros H. destruct (client self) as [c|] eqn:Hc.
  2:{ unfold generate_audio in H. rewrite Hc in H. inversion H; subst.
      left. done. }
  rewrite (generate_audio_with_client _ _ _ _ _ Hc) in H.
  destruct (tts_text quest) as [| | |s];
    try (inversion H; subst; left; done).
  destruct (blank_text quest); [inversion H; subst; left; done |].
  unfold render in H.
  apply bind_inv in H as [(voice & w1 & Hv & H)|(e & Hv & ->)].
  2:{ destruct (resolve_voice_pure self voice_profile) as [r0 Hr].
      rewrite Hr in Hv. inversion Hv; subst. left. done. }
  apply resolve_voice_inv in Hv as (-> & _).
  apply bind_inv in H as [(dir & w2 & Hd & H)|(e & Hd & ->)].
  2:{ apply (keeps_config_path_of quiet) in Hd as [? ?]. left. done. }
  apply config_path_of_inv in Hd as (-> & _).
  apply bind_inv in H as [(u & w3 & Hm & H)|(e & Hm & ->)].
  2:{ apply (keeps_mkdir quiet quiet_mkdir) in Hm as [? ?]. left. done. }
  apply mkdir_audio_dir_inv in Hm as (-> & Hb).
  rewrite synthesize_spec, with_audio_dir_log, with_audio_dir_service in H.
  destruct (model_id (elevenlabs (config self))) as [model|].
  2:{ inversion H; subst. left. simpl.
      by rewrite with_audio_dir_log, dir_files_with_audio_dir. }
  destruct (voice_settings (elevenlabs (config self))) as [settings|].
  2:{ inversion H; subst. left. simpl.
      by rewrite with_audio_dir_log, dir_files_with_audio_dir. }
  cbv zeta in H. right.
  exists {| call_voice_id := voice; call_text := s; call_model_id := model;
            call_voice_settings := settings |}.
  destruct (service w (length (api_log w)) _) as [e|chunks failure].
  { inversion H; subst. simpl.
    by rewrite with_audio_dir_log, dir_files_with_audio_dir. }
  destruct (with_audio_dir_present w Hb) as [files Hfiles].
  assert (files = dir_files (audio_dir w)) as Hf.
  { by rewrite <- (dir_files_with_audio_dir w), Hfiles. }
  unfold write_file in H. simpl in H.
  rewrite Hfiles, with_audio_dir_file_fault in H. unfold writable.
  destruct (plain_file_name (audio_file_name quest)).
  2:{ inversion H; subst. simpl.
      rewrite with_audio_dir_log, dir_files_with_audio_dir.
      split; [done |]. right. split; [done |]. split; [done |]. by left. }
  destruct (file_fault w (audio_file_name quest)) as [[e|kept e]|].
  - inversion H; subst. simpl.
    rewrite with_audio_dir_log, dir_files_with_audio_dir.
    split; [done |]. right. split; [done |]. split; [done |]. by left.
  - inversion H; subst. simpl. rewrite with_audio_dir_log.
    split; [done |]. right. split; [done |]. split; [done |]. right.
    by exists kept.
  - destruct failure; inversion H; subst; simpl;
      rewrite with_audio_dir_log; (split; [done |]); left; eauto.
Qed.

(** X3: when [generate_audio] returns a path it has made exactly one call,
    the stream of the answer ended without an error, and the file of the
    quest holds the bytes of the whole stream: what the file held before is
    replaced and the other files of the directory are as they were. *)
Theorem generate_audio_writes_the_stream self quest voice_profile w p w' :
  generate_audio self quest voice_profile w = (Ok (Some p), w') →
  ∃ call chunks,
    new_calls w w' = [(quest, call)]
    ∧ service w (length (api_log w)) call = AudioStream chunks None
    ∧ dir_files (audio_dir w')
      = <[audio_file_name quest := concat chunks]> (dir_files (audio_dir w)).
Proof.
  intros H.
  apply generate_audio_cases in H as [(_ & _ & Hno)|(call & Hlog & H)].
  { by destruct (Hno p). }
  destruct (service w (length (api_log w)) call) as [e|chunks failure]
    eqn:Hs.
  { by destruct H. }
  destruct H as [(_ & Hfiles & Hr)|(_ & ? & _)]; [|done].
  destruct failure as [e|]; [done |].
  exists call, chunks. split; [by apply new_calls_app | done].
Qed.

Lemma generate_audio_writes_the_stream_witness :
  let w := set_audio_dir (DirPresent {[ "quest_1.mp3" := [Byte.x00];
                                        "notes.txt" := [Byte.x01] ]})
                         (example_world [record_1]) in
  ∃ call chunks,
    new_calls w (generate_audio example_generator (from_dict record_1)
                                (Some "epic_narrator") w).2
    = [(from_dict record_1, call)]
    ∧ service w (length (api_log w)) call = AudioStream chunks None
    ∧ dir_files (audio_dir (generate_audio example_generator
                              (from_dict record_1) (Some "epic_narrator")
                              w).2)
      = <[audio_file_name (from_dict record_1) := concat chunks]>
          (dir_files (audio_dir w)).
Proof.
  intros w.
  apply (generate_audio_writes_the_stream example_generator
           (from_dict record_1) (Some "epic_narrator") w
           "/srv/tts/audio/quest_1.mp3").
  vm_compute. reflexivity.
Defined.



(** ** The calls and the waits of a run *)

Lemma keeps_selected_quests (R : relation World) `{!PreOrder R}
    (R_stdout : ∀ line w, R w (add_stdout line w))
    (R_mkdir : ∀ w, R w (set_audio_dir (DirPresent ∅) w)
                    ∨ audio_dir w ≠ DirAbsent)
    self quest_ids from_export skip_existing :
  keeps R (selected_quests self quest_ids from_export skip_existing).
Proof.
  unfold selected_quests.
  apply (keeps_bind R); [by apply keeps_load_selected | intros loaded].
  by apply keeps_filter_existing.
Qed.

Lemma batch_loop_calls self voice_profile delay quests : ∀ s0 f0 w r w',
  batch_loop self voice_profile delay quests s0 f0 w = (r, w') →
  ∃ new, api_log w' = (api_log w ++ new)%list
         ∧ new.*1 `sublist_of` quests
         ∧ ∀ s f, r = Ok (s, f) → (s ≤ s0 + length new)%nat.
Proof.
  induction quests as [|q rest IH]; intros s0 f0 w r w' H; simpl in H.
  { inversion H; subst. exists []. rewrite app_nil_r.
    split; [done |]. split; [constructor |].
    intros s f [= -> ->]. simpl. lia. }
  apply bind_inv in H as [(result & w1 & Hg & H)|(e & Hg & ->)].
  - apply bind_inv in H as [(u & w2 & Hs & H)|(e & Hs & ->)].
    + apply (keeps_sleep quiet quiet_sleep) in Hs as [Hs _].
      apply IH in H as (new & Hnew & Hsub & Hcount).
      apply generate_audio_cases in Hg as [(Hlog & _ & Hno)|(call & Hlog & _)].
      * exists new. split; [congruence |]. split; [by constructor |].
        intros s f Hr. specialize (Hcount s f Hr).
        destruct result as [p|]; [by destruct (Hno p) |]. simpl in Hcount. lia.
      * exists ((q, call) :: new).
        split; [rewrite Hnew, Hs, Hlog, <- app_assoc; done |].
        split; [simpl; by constructor |].
        intros s f Hr. specialize (Hcount s f Hr).
        destruct result; simpl in *; lia.
    + apply (keeps_sleep quiet quiet_sleep) in Hs as [Hs _].
      apply generate_audio_cases in Hg as [(Hlog & _)|(call & Hlog & _)].
      * exists []. rewrite app_nil_r.
        split; [congruence |]. split; [apply sublist_nil_l | done].
      * exists [(q, call)]. split; [congruence |].
        split; [simpl; constructor; apply sublist_nil_l | done].
  - apply generate_audio_cases in Hg as [(Hlog & _)|(call & Hlog & _)].
    + exists []. rewrite app_nil_r.
      split; [congruence |]. split; [apply sublist_nil_l | done].
    + exists [(q, call)]. split; [congruence |].
      split; [simpl; constructor; apply sublist_nil_l | done].
Qed.

Lemma dispatch_calls self dry_run voice_profile delay quests w r w' :
  dispatch self dry_run voice_profile delay quests w = (r, w') →
  ∃ new, api_log w' = (api_log w ++ new)%list
         ∧ new.*1 `sublist_of` quests
         ∧ ∀ s f, r = Ok (Completed s f) → (s ≤ length new)%nat.
Proof.
  intros H. destruct dry_run.
  { pose proof H as Hr.
    apply (keeps_dispatch_dry_run quiet quiet_stdout) in H
      as [Hlog _].
    exists []. rewrite app_nil_r. split; [done |].
    split; [apply sublist_nil_l |]. intros s f ->.
    unfold dispatch in Hr. destruct quests as [|q rest]; [by inversion Hr |].
    repeat (apply bind_inv in Hr as [(? & ? & _ & Hr)|(e & _ & ?)]; [|done]).
    inversion Hr. }
  unfold dispatch in H. destruct quests as [|q rest].
  { inversion H; subst. exists []. rewrite app_nil_r.
    split; [done |]. split; [constructor | done]. }
  apply bind_inv in H as [(u & w1 & Hp & H)|(e & Hp & _)]; [|by inversion Hp].
  inversion Hp; subst.
  apply bind_inv in H as [([s1 f1] & w2 & Hl & H)|(e & Hl & ->)].
  - apply batch_loop_calls in Hl as (new & Hnew & Hsub & Hcount).
    inversion H; subst. exists new. split; [done |]. split; [done |].
    intros s f [= <- <-]. by apply (Hcount s1 f1).
  - apply batch_loop_calls in Hl as (new & Hnew & Hsub & _).
    exists new. done.
Qed.

(** X5: [run_batch] sends each quest it processes at most once and in the
    order of its list: the quests of the calls of a run form a sublist of the
    selected quests.  Nothing is retried, and each quest counted as
    successful has made a call. *)
Theorem calls_follow_the_selected_quests self quest_ids from_export
    skip_existing dry_run voice_profile delay w quests w1 :
  selected_quests self quest_ids from_export skip_existing w
  = (Ok quests, w1) →
  let out := run_batch self quest_ids from_export skip_existing dry_run
                       voice_profile delay w in
  (new_calls w out.2).*1 `sublist_of` quests
  ∧ (length (new_calls w out.2) ≤ length quests)%nat
  ∧ ∀ s f, out.1 = Ok (Completed s f) →
           (s ≤ length (new_calls w out.2))%nat.
Proof.
  intros Hsel out. unfold out. rewrite run_batch_stages, bind_run, Hsel.
  apply (keeps_selected_quests quiet quiet_stdout quiet_mkdir) in Hsel
    as [Hlog _].
  destruct (dispatch self dry_run voice_profile delay quests w1)
    as [r w'] eqn:Hd.
  apply dispatch_calls in Hd as (new & Hnew & Hsub & Hcount).
  rewrite Hlog in Hnew. simpl. rewrite (new_calls_app _ _ _ Hnew).
  split; [done |]. split; [|done].
  apply sublist_length in Hsub. by rewrite length_fmap in Hsub.
Qed.

Lemma calls_follow_the_selected_quests_witness :
  let w := example_world [record_1; record_2; record_3] in
  let out := run_batch example_generator None false true false
                       (Some "epic_narrator") (1 # 2) w in
  (new_calls w out.2).*1
  `sublist_of` [from_dict record_1; from_dict record_2; from_dict record_3].
Proof.
  intros w out.
  destruct (calls_follow_the_selected_quests example_generator None false
              true false (Some "epic_narrator") (1 # 2) w
              [from_dict record_1; from_dict record_2; from_dict record_3]
              (add_stdout "Nach Filterung (ohne bereits vorhandene): 3"
                 (set_audio_dir (DirPresent ∅)
                    (add_stdout "Geladene Quests: 3" w))))
    as [H _]; [vm_compute; reflexivity |].
  exact H.
Defined.

#[local] Instance same_sleeps_preorder : PreOrder same_sleeps.
Proof.
  split.
  - intros w. reflexivity.
  - intros w1 w2 w3 H1 H2. unfold same_sleeps in *. congruence.
Qed.

Lemma generate_audio_same_sleeps self quest voice_profile :
  keeps same_sleeps (generate_audio self quest voice_profile).
Proof.
  apply (keeps_generate_audio same_sleeps (λ _, True)
           (λ line w, eq_refl) (λ w, or_introl eq_refl)
           (λ entry w _, eq_refl) (λ name content files w _, eq_refl)).
  done.
Qed.

Lemma sleep_inv delay w r w' :
  sleep delay w = (r, w') →
  (r = Ok tt ∧ w' = add_sleep delay w ∧ sleep_error w delay = None
   ∧ Qle_bool 0 delay = true)
  ∨ (∃ e, r = Raise e ∧ w' = w ∧ sleep_error w delay = Some e).
Proof.
  unfold sleep. intros H.
  destruct (sleep_error w delay) as [e|] eqn:E; inversion H; subst.
  - right. by exists e.
  - left. repeat split. unfold sleep_error in E.
    destruct (sleep_fault w delay); [done |].
    by destruct (Qle_bool 0 delay).
Qed.

Lemma batch_loop_sleeps self voice_profile delay quests : ∀ s0 f0 w r w',
  batch_loop self voice_profile delay quests s0 f0 w = (r, w') →
  ∃ n, sleeps w' = (sleeps w ++ replicate n delay)%list
       ∧ (n ≤ length quests)%nat
       ∧ ((0 < n)%nat → Qle_bool 0 delay = true)
       ∧ ∀ c, r = Ok c → n = length quests.
Proof.
  induction quests as [|q rest IH]; intros s0 f0 w r w' H; simpl in H.
  { inversion H; subst. exists 0%nat. simpl. rewrite app_nil_r.
    repeat split; try done. lia. }
  apply bind_inv in H as [(result & w1 & Hg & H)|(e & Hg & ->)].
  2:{ apply generate_audio_same_sleeps in Hg. exists 0%nat. simpl.
      rewrite app_nil_r. repeat split; try done; lia. }
  apply generate_audio_same_sleeps in Hg. unfold same_sleeps in Hg.
  apply bind_inv in H as [(u & w2 & Hs & H)|(e & Hs & ->)].
  - apply sleep_inv in Hs as [(_ & -> & _ & Hd)|(e & ? & _)]; [|done].
    apply IH in H as (n & Hn & Hle & _ & Hall).
    exists (S n). simpl in *.
    split; [rewrite Hn, Hg, <- app_assoc; done |].
    split; [lia |]. split; [done |].
    intros c Hc. by rewrite (Hall c Hc).
  - apply sleep_inv in Hs as [(? & _)|(e0 & _ & -> & _)]; [done |].
    exists 0%nat. simpl. rewrite app_nil_r.
    repeat split; try done; lia.
Qed.

(** X6: [run_batch] waits once after every quest it processes, also after
    the last one, each time for the given delay: a run that reaches its
    summary has added as many waits as the two counters add up to; a run
    that ends with nothing to do or with the preview of a dry run has not
    waited at all. *)
Theorem run_batch_waits_once_per_quest self quest_ids from_export
    skip_existing dry_run voice_profile delay w r w' :
  run_batch self quest_ids from_export skip_existing dry_run voice_profile
            delay w = (r, w') →
  ∃ n, sleeps w' = (sleeps w ++ replicate n delay)%list
       ∧ ((0 < n)%nat → Qle_bool 0 delay = true ∧ dry_run = false)
       ∧ match r with
         | Ok (Completed s f) => n = (s + f)%nat
         | Ok _ => n = 0%nat
         | Raise _ => True
         end.
Proof.
  intros H. rewrite run_batch_stages in H.
  assert (∀ (P : Prop), (0 < 0)%nat → P) as Hzero by lia.
  apply bind_inv in H as [(quests & w1 & Hsel & H)|(e & Hsel & ->)].
  2:{ apply (keeps_selected_quests same_sleeps (λ line w, eq_refl)
               (λ w, or_introl eq_refl)) in Hsel.
      exists 0%nat. simpl. rewrite app_nil_r. split; [done |].
      split; [apply Hzero | done]. }
  apply (keeps_selected_quests same_sleeps (λ line w, eq_refl)
           (λ w, or_introl eq_refl)) in Hsel.
  unfold same_sleeps in Hsel.
  destruct dry_run.
  { pose proof H as Hr.
    apply (keeps_dispatch_dry_run same_sleeps (λ line w, eq_refl)) in H.
    unfold same_sleeps in H. exists 0%nat. simpl. rewrite app_nil_r.
    split; [congruence |]. split; [apply Hzero |].
    destruct r as [[| |s f]|e]; try done.
    unfold dispatch in Hr. destruct quests as [|q rest]; [by inversion Hr |].
    repeat (apply bind_inv in Hr as [(? & ? & _ & Hr)|(? & _ & ?)]; [|done]).
    inversion Hr. }
  unfold dispatch in H. destruct quests as [|q rest].
  { inversion H; subst. exists 0%nat. simpl. rewrite app_nil_r.
    split; [done |]. split; [apply Hzero | done]. }
  apply bind_inv in H as [(u & w2 & Hp & H)|(e & Hp & _)]; [|by inversion Hp].
  inversion Hp; subst.
  apply bind_inv in H as [([s1 f1] & w3 & Hl & H)|(e & Hl & ->)].
  - pose proof Hl as Hcount. apply batch_loop_counters in Hcount as (Hc & _).
    apply batch_loop_sleeps in Hl as (n & Hn & _ & Hpos & Hall).
    inversion H; subst. exists n. simpl in *.
    split; [congruence |]. split; [by split; [apply Hpos |] |].
    rewrite (Hall _ eq_refl). simpl. lia.
  - apply batch_loop_sleeps in Hl as (n & Hn & _ & Hpos & _).
    exists n. simpl in *. split; [congruence |].
    split; [by split; [apply Hpos |] | done].
Qed.

Lemma run_batch_waits_once_per_quest_witness :
  let w := example_world [record_1; record_2; record_3] in
  ∃ n, sleeps (run_batch example_generator None false true false
                         (Some "epic_narrator") (1 # 2) w).2
       = (sleeps w ++ replicate n (1 # 2))%list
       ∧ n = 3%nat.
Proof.
  intros w.
  destruct (run_batch_waits_once_per_quest example_generator None false true
              false (Some "epic_narrator") (1 # 2) w
              (Ok (Completed 2 1))
              (run_batch example_generator None false true false
                         (Some "epic_narrator") (1 # 2) w).2)
    as (n & Hn & _ & Hc); [vm_compute; reflexivity |].
  exists n. split; [exact Hn | exact Hc].
Defined.

Lemma batch_loop_cons self voice_profile delay q rest s f w :
  batch_loop self voice_profile delay (q :: rest) s f w
  = match generate_audio self q voice_profile w with
    | (Ok result, w1) =>
        match sleep delay w1 with
        | (Ok _, w2) =>
            batch_loop self voice_profile delay rest
                       (match result with Some _ => S s | None => s end)
                       (match result with Some _ => f | None => S f end) w2
        | (Raise e, w2) => (Raise e, w2)
        end
    | (Raise e, w1) => (Raise e, w1)
    end.
Proof.
  simpl. rewrite bind_run.
  destruct (generate_audio self q voice_profile w) as [[result|e] w1];
    [|reflexivity].
  rewrite bind_run. destruct (sleep delay w1) as [[u|e] w2]; [|reflexivity].
  by destruct result.
Qed.

#[local] Instance same_faults_preorder : PreOrder same_faults.
Proof.
  split.
  - by intros w.
  - intros w1 w2 w3 [H1 H2] [H3 H4]. split; congruence.
Qed.

(** X7: a negative delay ends [run_batch] right after the first quest it
    processes: [time.sleep] raises once [generate_audio] has returned for
    that quest ([ValueError], or what the platform raises for a delay
    outside the range of its clock), so the call and the file of the first
    quest are there, the other quests are not looked at and no summary is
    printed. *)
Theorem negative_delay_stops_after_the_first_quest self quest_ids
    from_export skip_existing voice_profile delay w q rest w1 :
  Qle_bool 0 delay = false →
  selected_quests self quest_ids from_export skip_existing w
  = (Ok (q :: rest), w1) →
  let first := generate_audio self q voice_profile
                 (add_stdout (start_line (length (q :: rest))) w1) in
  let error := default (ValueError "sleep length must be non-negative")
                       (sleep_fault w delay) in
  run_batch self quest_ids from_export skip_existing false voice_profile
            delay w
  = (match first.1 with
     | Ok _ => Raise error
     | Raise e => Raise e
     end, first.2).
Proof.
  intros Hd Hsel first error. subst first error.
  rewrite run_batch_stages, bind_run, Hsel. unfold dispatch.
  rewrite bind_run.
  change (print (start_line (length (q :: rest))) w1)
    with (Ok tt, add_stdout (start_line (length (q :: rest))) w1).
  cbv beta iota. rewrite bind_run, batch_loop_cons.
  apply (keeps_selected_quests same_faults (λ line w0, conj eq_refl eq_refl)
           (λ w0, or_introl (conj eq_refl eq_refl))) in Hsel as [Hsl _].
  destruct (generate_audio self q voice_profile
              (add_stdout (start_line (length (q :: rest))) w1))
    as [[result|e] w2] eqn:Hg; [|reflexivity].
  apply (keeps_generate_audio same_faults (λ _, True)
           (λ line w0, conj eq_refl eq_refl)
           (λ w0, or_introl (conj eq_refl eq_refl))
           (λ entry w0 _, conj eq_refl eq_refl)
           (λ name content files w0 _, conj eq_refl eq_refl)
           self q voice_profile (λ _ _ _ _ _, I)) in Hg as [Hsl2 _].
  simpl in Hsl2. unfold sleep, sleep_error. rewrite Hsl2, Hsl, Hd.
  by destruct (sleep_fault w delay).
Qed.

Lemma negative_delay_stops_after_the_first_quest_witness :
  let w := example_world [record_1; record_3] in
  let out := run_batch example_generator None false false false
                       (Some "epic_narrator") (-1 # 2) w in
  out.1 = Raise (ValueError "sleep length must be non-negative")
  ∧ (new_calls w out.2).*1 = [from_dict record_1]
  ∧ is_Some (dir_files (audio_dir out.2) !! "quest_1.mp3")
  ∧ dir_files (audio_dir out.2) !! "quest_3.mp3" = None.
Proof.
  intros w out. unfold out.
  rewrite (negative_delay_stops_after_the_first_quest example_generator None
             false false (Some "epic_narrator") (-1 # 2) w
             (from_dict record_1) [from_dict record_3]
             (add_stdout "Geladene Quests: 2" w));
    [| reflexivity | vm_compute; reflexivity].
  split; [vm_compute; reflexivity |].
  split; [vm_compute; reflexivity |].
  split; [vm_compute; by eexists | vm_compute; reflexivity].
Defined.

(** ** The files a run touches *)

Lemma generate_audio_other_files self quest voice_profile w r w' name :
  generate_audio self quest voice_profile w = (r, w') →
  name ≠ audio_file_name quest →
  dir_files (audio_dir w') !! name = dir_files (audio_dir w) !! name.
Proof.
  intros H Hne.
  apply generate_audio_cases in H as [(_ & -> & _)|(call & _ & H)]; [done |].
  destruct (service w (length (api_log w)) call) as [e|chunks failure].
  { by destruct H as [_ ->]. }
  destruct H as [(_ & -> & _)|(_ & _ & [->|[kept ->]])];
    [by apply lookup_insert_ne | done | by apply lookup_insert_ne].
Qed.

Lemma batch_loop_other_files self voice_profile delay quests name :
  (∀ q, q ∈ quests → audio_file_name q ≠ name) →
  ∀ s0 f0 w r w',
    batch_loop self voice_profile delay quests s0 f0 w = (r, w') →
    dir_files (audio_dir w') !! name = dir_files (audio_dir w) !! name.
Proof.
  induction quests as [|q rest IH]; intros Hname s0 f0 w r w' H.
  { by inversion H. }
  assert (name ≠ audio_file_name q) as Hq.
  { intros ->. by apply (Hname q); [left |]. }
  rewrite batch_loop_cons in H.
  destruct (generate_audio self q voice_profile w) as [[result|e] w1] eqn:Hg.
  2:{ inversion H; subst.
      by apply (generate_audio_other_files _ _ _ _ _ _ _ Hg). }
  apply (generate_audio_other_files _ _ _ _ _ _ name) in Hg; [|done].
  destruct (sleep delay w1) as [[u|e] w2] eqn:Hs.
  - apply (keeps_sleep quiet quiet_sleep) in Hs as [_ Hs].
    apply IH in H; [|intros q0 Hq0; apply Hname; by right].
    by rewrite H, Hs.
  - apply (keeps_sleep quiet quiet_sleep) in Hs as [_ Hs].
    inversion H; subst. by rewrite Hs.
Qed.

(** X8: [run_batch] removes no file of the output directory, and the only
    files it creates or changes are the files [quest_<id>.mp3] of the quests
    it processes: every other name has the content it had, or is absent as
    it was. *)
Theorem run_batch_touches_only_the_files_of_its_quests self quest_ids
    from_export skip_existing dry_run voice_profile delay w quests w1 r w' :
  selected_quests self quest_ids from_export skip_existing w
  = (Ok quests, w1) →
  run_batch self quest_ids from_export skip_existing dry_run voice_profile
            delay w = (r, w') →
  dom (dir_files (audio_dir w)) ⊆ dom (dir_files (audio_dir w'))
  ∧ ∀ name, (∀ q, q ∈ quests → audio_file_name q ≠ name) →
            dir_files (audio_dir w') !! name
            = dir_files (audio_dir w) !! name.
Proof.
  intros Hsel H. split.
  { apply (keeps_run_batch files_stay (λ _, True) files_stay_stdout
             files_stay_sleep files_stay_mkdir
             (λ entry w0 _, files_stay_call entry w0) files_stay_write)
      in H; done. }
  intros name Hname.
  rewrite run_batch_stages, bind_run, Hsel in H.
  apply (keeps_selected_quests quiet quiet_stdout quiet_mkdir) in Hsel
    as [_ <-].
  destruct dry_run.
  { apply (keeps_dispatch_dry_run quiet quiet_stdout) in H as [_ H].
    by rewrite H. }
  unfold dispatch in H. destruct quests as [|q rest].
  { by inversion H. }
  apply bind_inv in H as [(u & w2 & Hp & H)|(e & Hp & _)]; [|by inversion Hp].
  inversion Hp; subst.
  apply bind_inv in H as [(counters & w3 & Hl & H)|(e & Hl & _)].
  - apply (batch_loop_other_files _ _ _ _ name Hname) in Hl.
    inversion H; subst. exact Hl.
  - by apply (batch_loop_other_files _ _ _ _ name Hname) in Hl.
Qed.

Lemma run_batch_touches_only_the_files_of_its_quests_witness :
  let w := set_audio_dir (DirPresent {[ "notes.txt" := [Byte.x01] ]})
                         (example_world [record_1; record_3]) in
  let out := run_batch example_generator None false true false
                       (Some "epic_narrator") (1 # 2) w in
  dir_files (audio_dir out.2) !! "notes.txt"
  = dir_files (audio_dir w) !! "notes.txt".
Proof.
  intros w out.
  destruct (run_batch_touches_only_the_files_of_its_quests example_generator
              None false true false (Some "epic_narrator") (1 # 2) w
              [from_dict record_1; from_dict record_3]
              (add_stdout "Nach Filterung (ohne bereits vorhandene): 2"
                 (add_stdout "Geladene Quests: 2" w))
              out.1 out.2) as [_ H].
  - vm_compute. reflexivity.
  - apply surjective_pairing.
  - apply H. intros q Hq.
    apply elem_of_cons in Hq as [->|Hq]; [by vm_compute |].
    apply list_elem_of_singleton in Hq as ->. by vm_compute.
Defined.

(** ** A generator without a client *)

Lemma batch_loop_without_client self voice_profile delay quests :
  client self = None →
  ∀ s0 f0 w r w',
    batch_loop self voice_profile delay quests s0 f0 w = (r, w') →
    quiet w w' ∧ ∀ s f, r = Ok (s, f) → s = s0.
Proof.
  intros Hc. induction quests as [|q rest IH]; intros s0 f0 w r w' H.
  { inversion H; subst. split; [reflexivity |]. by intros s f [= -> _]. }
  rewrite batch_loop_cons in H. unfold generate_audio in H. rewrite Hc in H.
  change ((print "Fehler: ElevenLabs-Client nicht initialisiert.";;
           mret None) w)
    with (@Ok (option string) None,
          add_stdout "Fehler: ElevenLabs-Client nicht initialisiert." w) in H.
  cbv beta iota in H.
  destruct (sleep delay _) as [[u|e] w2] eqn:Hs.
  - apply (keeps_sleep quiet quiet_sleep) in Hs.
    apply IH in H as [Hq Hs0]. split; [|done].
    transitivity w2; [|done].
    transitivity (add_stdout "Fehler: ElevenLabs-Client nicht initialisiert." w);
      [apply quiet_stdout | done].
  - apply (keeps_sleep quiet quiet_sleep) in Hs. inversion H; subst.
    split; [|done].
    transitivity (add_stdout "Fehler: ElevenLabs-Client nicht initialisiert." w);
      [apply quiet_stdout | done].
Qed.

(** X9: the constructor makes a client exactly when the API key of the
    settings is not the placeholder of the template; with the placeholder it
    prints its two warning lines and goes on, and every [run_batch] of such
    a generator makes no call, leaves the files of the output directory as
    they were and counts no quest as successful. *)
Theorem placeholder_key_renders_nothing root settings config_path w self w1 :
  __init__ root settings config_path w = (Ok self, w1) →
  (client self = None
   ↔ api_key (elevenlabs (config self)) = "YOUR_ELEVENLABS_API_KEY_HERE")
  ∧ (client self = None →
     w1 = print_lines
            ["WARNUNG: Kein API-Key konfiguriert!";
             "Bitte trage deinen Key in "
             +:+ config_path_or_default root config_path +:+ " ein."] w
     ∧ ∀ quest_ids from_export skip_existing dry_run voice_profile delay
         w2 r w3,
         run_batch self quest_ids from_export skip_existing dry_run
                   voice_profile delay w2 = (r, w3) →
         api_log w3 = api_log w2
         ∧ dir_files (audio_dir w3) = dir_files (audio_dir w2)
         ∧ ∀ s f, r = Ok (Completed s f) → s = 0%nat).
Proof.
  unfold __init__, _load_config. intros H.
  destruct (settings !! config_path_or_default root config_path) as [cfg|];
    [|by inversion H].
  rewrite bind_run, unfold_M_ret, bind_run in H. unfold _init_client in H.
  destruct (String.eqb (api_key (elevenlabs cfg))
              "YOUR_ELEVENLABS_API_KEY_HERE") eqn:Hkey.
  2:{ inversion H; subst. simpl. split; [|done].
      split; [done |]. intros Heq. rewrite Heq in Hkey. discriminate Hkey. }
  apply String.eqb_eq in Hkey. inversion H; subst. clear H. simpl.
  split; [done |]. intros _. split; [reflexivity |].
  intros quest_ids from_export skip_existing dry_run voice_profile delay
    w2 r w3 H.
  set (self := {| project_root := root; config := cfg; client := None |})
    in *.
  rewrite run_batch_stages in H.
  apply bind_inv in H as [(quests & wa & Hsel & H)|(e & Hsel & ->)].
  2:{ apply (keeps_selected_quests quiet quiet_stdout quiet_mkdir) in Hsel
        as [? ?]. done. }
  apply (keeps_selected_quests quiet quiet_stdout quiet_mkdir) in Hsel
    as [Hlog Hfiles].
  rewrite <- Hlog, <- Hfiles.
  destruct dry_run.
  { pose proof H as Hr.
    apply (keeps_dispatch_dry_run quiet quiet_stdout) in H as [? ?].
    split; [done |]. split; [done |]. intros s f ->.
    unfold dispatch in Hr. destruct quests as [|q rest]; [by inversion Hr |].
    repeat (apply bind_inv in Hr as [(? & ? & _ & Hr)|(? & _ & ?)]; [|done]).
    inversion Hr. }
  unfold dispatch in H. destruct quests as [|q rest].
  { inversion H; subst. done. }
  apply bind_inv in H as [(u & wb & Hp & H)|(e & Hp & _)]; [|by inversion Hp].
  inversion Hp; subst.
  apply bind_inv in H as [([s1 f1] & wc & Hl & H)|(e & Hl & ->)].
  - apply (batch_loop_without_client self) in Hl as [[? ?] Hs]; [|done].
    inversion H; subst. simpl in *.
    split; [done |]. split; [done |]. intros s f [= <- <-].
    by apply (Hs s1 f1).
  - apply (batch_loop_without_client self) in Hl as [[? ?] _]; [|done].
    done.
Qed.

Lemma placeholder_key_renders_nothing_witness :
  let settings : gmap string Config :=
    {[ "/srv/tts/config/tts_config.json" := template_config ]} in
  let w := example_world [record_1; record_3] in
  let built := __init__ "/srv/tts" settings None w in
  ∃ self, built.1 = Ok self ∧ client self = None
    ∧ (run_batch self None false true false (Some "epic_narrator") (1 # 2)
                 built.2).1 = Ok (Completed 0 2)
    ∧ api_log (run_batch self None false true false (Some "epic_narrator")
                         (1 # 2) built.2).2 = [].
Proof.
  intros settings w built.
  set (self := {| project_root := "/srv/tts"; config := template_config;
                  client := None |}).
  exists self.
  destruct (placeholder_key_renders_nothing "/srv/tts" settings None w self
              built.2) as [_ H]; [vm_compute; reflexivity |].
  destruct (H eq_refl) as [_ Hrun].
  split; [vm_compute; reflexivity |]. split; [reflexivity |].
  split; [vm_compute; reflexivity |].
  destruct (Hrun None false true false (Some "epic_narrator") (1 # 2)
              built.2
              (run_batch self None false true false (Some "epic_narrator")
                         (1 # 2) built.2).1
              (run_batch self None false true false (Some "epic_narrator")
                         (1 # 2) built.2).2) as [Hlog _];
    [apply surjective_pairing |].
  rewrite Hlog. vm_compute. reflexivity.
Defined.

(** ** Loading *)

(** X10: with [from_export] set, [run_batch] loads one quest per record of
    the batch export, in the order of the export; the list of ids given is
    not looked at, and neither is the quest file, which need not exist. *)
Theorem export_is_loaded_whole self quest_ids w section sub data :
  paths (config self) = Some section → batch_export section = Some sub →
  export_file w = Some data →
  load_selected self quest_ids true w
  = (Ok (from_dict <$> data),
     add_stdout ("Geladene Quests aus Batch-Export: "
                 +:+ str_of_nat (length data)) w).
Proof.
  intros Hs Hb Hd. unfold load_selected, load_batch_export.
  rewrite !bind_run, (config_path_of_runs _ _ _ _ _ _ Hs Hb), bind_run.
  unfold get_world. rewrite Hd, unfold_M_ret, bind_run, length_fmap.
  reflexivity.
Qed.

Lemma export_is_loaded_whole_witness :
  let w := {| audio_dir := DirAbsent; quests_file := None;
              export_file := Some [record_3; record_1];
              service := example_service; file_fault := λ _, None;
              sleep_fault := λ _, None; api_log := []; stdout := [];
              sleeps := [] |} in
  load_selected example_generator (Some [1]) true w
  = (Ok [from_dict record_3; from_dict record_1],
     add_stdout "Geladene Quests aus Batch-Export: 2" w).
Proof.
  intros w.
  apply (export_is_loaded_whole example_generator (Some [1]) w
           {| quests_json := Some "data/quests.json";
              batch_export := Some "data/batch_export.json";
              audio_output := Some "audio" |}
           "data/batch_export.json" [record_3; record_1]);
    reflexivity.
Defined.

(** X11: when the input file of a run does not exist (the quest file, or the
    batch export with [from_export]), [run_batch] raises [FileNotFoundError]
    with a message that names the path, before anything is printed: no
    output directory is made, no call, no wait. *)
Theorem missing_input_file_raises self quest_ids (from_export : bool)
    skip_existing dry_run voice_profile delay w section sub :
  paths (config self) = Some section →
  (if from_export then batch_export section else quests_json section)
  = Some sub →
  (if from_export then export_file w else quests_file w) = None →
  run_batch self quest_ids from_export skip_existing dry_run voice_profile
            delay w
  = (Raise (FileNotFoundError
              (if from_export
               then "Batch-Export nicht gefunden: "
                    +:+ path_join (project_root self) sub +:+ nl
                    +:+ "Bitte exportiere zuerst Quests aus der WPF-App."
               else "Quest-Datei nicht gefunden: "
                    +:+ path_join (project_root self) sub)), w).
Proof.
  intros Hs Hp Hf. unfold run_batch, load_selected.
  destruct from_export.
  - unfold load_batch_export.
    rewrite !bind_run, (config_path_of_runs _ _ _ _ _ _ Hs Hp), bind_run.
    unfold get_world. by rewrite Hf.
  - unfold load_quests.
    rewrite !bind_run, (config_path_of_runs _ _ _ _ _ _ Hs Hp), bind_run.
    unfold get_world. by rewrite Hf.
Qed.

Lemma missing_input_file_raises_witness :
  let self := {| project_root := "/srv/tts";
                 config :=
                   {| elevenlabs := elevenlabs example_config;
                      voice_profiles := voice_profiles example_config;
                      paths :=
                        Some {| quests_json := Some "/nonexistent/q.json";
                                batch_export := Some "data/export/";
                                audio_output := Some "audio" |} |};
                 client := None |} in
  let w := {| audio_dir := DirAbsent; quests_file := None;
              export_file := None; service := example_service;
              file_fault := λ _, None; sleep_fault := λ _, None;
              api_log := []; stdout := []; sleeps := [] |} in
  run_batch self None false true false None (1 # 2) w
  = (Raise (FileNotFoundError
              "Quest-Datei nicht gefunden: /nonexistent/q.json"), w)
  ∧ run_batch self None true true false None (1 # 2) w
    = (Raise (FileNotFoundError
                ("Batch-Export nicht gefunden: /srv/tts/data/export" +:+ nl
                 +:+ "Bitte exportiere zuerst Quests aus der WPF-App.")), w).
Proof.
  intros self w. split.
  - apply (missing_input_file_raises self None false true false None
             (1 # 2) w
             {| quests_json := Some "/nonexistent/q.json";
                batch_export := Some "data/export/";
                audio_output := Some "audio" |}
             "/nonexistent/q.json"); reflexivity.
  - apply (missing_input_file_raises self None true true false None
             (1 # 2) w
             {| quests_json := Some "/nonexistent/q.json";
                batch_export := Some "data/export/";
                audio_output := Some "audio" |}
             "data/export/"); reflexivity.
Defined.

(** ** The command line *)

Lemma keeps_quiet_init root settings config_path :
  keeps quiet (__init__ root settings config_path).
Proof.
  unfold __init__, _load_config.
  apply (keeps_bind quiet).
  { destruct (settings !! _); [apply (keeps_ret quiet) |
                               apply (keeps_raise quiet)]. }
  intros cfg. apply (keeps_bind quiet); [| intros c; apply (keeps_ret quiet)].
  unfold _init_client. destruct (String.eqb _ _); [|apply (keeps_ret quiet)].
  apply (keeps_bind quiet); [apply (keeps_print quiet quiet_stdout) | intros ?].
  apply (keeps_bind quiet); [apply (keeps_print quiet quiet_stdout) | intros ?].
  apply (keeps_ret quiet).
Qed.

Lemma exit_handler_runs e w :
  exit_handler e w
  = (Ok 1, add_stdout ((match e with
                        | FileNotFoundError _ => "Fehler: "
                        | _ => "Unerwarteter Fehler: "
                        end) +:+ exn_str e) w).
Proof. by destruct e. Qed.

Lemma main_runs root settings args w :
  main root settings args w
  = match construct_and_run root settings args w with
    | (Ok _, w1) => (Ok 0, w1)
    | (Raise e, w1) => exit_handler e w1
    end.
Proof.
  unfold main, try_except. rewrite bind_run.
  by destruct (construct_and_run root settings args w) as [[outcome|e] w1].
Qed.

(** X12: [main] lets no exception of the generator out.  The exit status is
    0 exactly when the constructor and [run_batch] return, whatever the two
    counters of the run are; when one of them raises, [main] prints one more
    line, the message of the exception after [Fehler: ] for a missing file
    and after [Unerwarteter Fehler: ] for anything else, and the exit status
    is 1. *)
Theorem main_exit_status root settings args w :
  ∃ code w',
    main root settings args w = (Ok code, w')
    ∧ match construct_and_run root settings args w with
      | (Ok _, w1) => code = 0 ∧ w' = w1
      | (Raise e, w1) =>
          code = 1
          ∧ w' = add_stdout ((match e with
                              | FileNotFoundError _ => "Fehler: "
                              | _ => "Unerwarteter Fehler: "
                              end) +:+ exn_str e) w1
      end.
Proof.
  rewrite main_runs.
  destruct (construct_and_run root settings args w) as [[outcome|e] w1].
  - by eexists _, _.
  - rewrite exit_handler_runs. by eexists _, _.
Qed.

(** X13: when the settings file is not there, at the path given on the
    command line or else at [config/tts_config.json] under the project
    root, [main] prints the one line that names the path and exits with
    status 1; nothing else happens. *)
Theorem main_without_settings_file root settings args w :
  settings !! config_path_or_default root (arg_config args) = None →
  main root settings args w
  = (Ok 1, add_stdout ("Fehler: Config nicht gefunden: "
                       +:+ config_path_or_default root (arg_config args)) w).
Proof.
  intros Hnone. unfold main, try_except, construct_and_run, __init__.
  rewrite !bind_run. unfold _load_config. rewrite Hnone. reflexivity.
Qed.

Lemma main_without_settings_file_witness :
  main "/srv/tts" ∅ default_args (example_world [record_1])
  = (Ok 1, add_stdout "Fehler: Config nicht gefunden: /srv/tts/config/tts_config.json"
                      (example_world [record_1])).
Proof.
  apply (main_without_settings_file "/srv/tts" ∅ default_args
           (example_world [record_1])).
  reflexivity.
Defined.

(** X14: [main] skips the quests that have audio unless
    [--no-skip-existing] is given; the option [--skip-existing] is not
    looked at.  So without [--no-skip-existing], whatever the other options
    are, [main] makes no call for an int id whose file [quest_<id>.mp3] is
    in the output directory. *)
Theorem main_skips_existing_by_default root settings args w q z r w' :
  arg_no_skip_existing args = false →
  quest_id q = PInt z →
  audio_file_name q ∈ dom (dir_files (audio_dir w)) →
  main root settings args w = (r, w') →
  Forall (λ entry, as_int (quest_id entry.1) ≠ Some z) (new_calls w w').
Proof.
  intros Hno Hq Hfile H. unfold main in H.
  assert (∀ e w1 w2, exit_handler e w1 = (r, w2) → api_log w2 = api_log w1)
    as Hexit.
  { intros e w1 w2 He. rewrite exit_handler_runs in He. by inversion He. }
  assert (∀ r0 w1,
            construct_and_run root settings args w = (r0, w1) →
            Forall (λ entry, as_int (quest_id entry.1) ≠ Some z)
                   (new_calls w w1)) as Hbody.
  { intros r0 w1 Hb. unfold construct_and_run in Hb.
    apply bind_inv in Hb as [(self & wa & Hi & Hb)|(e & Hi & _)].
    2:{ apply keeps_quiet_init in Hi as [Hlog _].
        by rewrite (new_calls_same _ _ Hlog). }
    apply keeps_quiet_init in Hi as [Hlog Hfiles].
    rewrite Hno in Hb. simpl in Hb.
    apply (run_with_file_makes_no_call _ _ _ _ _ _ _ q z) in Hb;
      [| done | by rewrite Hfiles].
    unfold new_calls in *. by rewrite <- Hlog. }
  apply try_except_inv in H as [(code & H & _)|(e & w1 & H & He)].
  - apply bind_inv in H as [(outcome & wa & Hb & H)|(e & _ & ?)]; [|done].
    inversion H; subst. by apply (Hbody (Ok outcome)).
  - apply bind_inv in H as [(outcome & wa & Hb & H)|(e0 & Hb & _)];
      [by inversion H |].
    apply Hexit in He. unfold new_calls. rewrite He.
    by apply (Hbody (Raise e0)).
Qed.

Lemma main_skips_existing_by_default_witness :
  let settings : gmap string Config :=
    {[ "/srv/tts/config/tts_config.json" := example_config ]} in
  let w := set_audio_dir (DirPresent {[ "quest_1.mp3" := [Byte.x00] ]})
                         (example_world [record_1; record_3]) in
  let args := {| arg_quest_id := None; arg_from_export := false;
                 arg_skip_existing := false; arg_no_skip_existing := false;
                 arg_dry_run := false; arg_voice := "epic_narrator";
                 arg_delay := 1 # 2; arg_config := None |} in
  Forall (λ entry, as_int (quest_id entry.1) ≠ Some 1)
         (new_calls w (main "/srv/tts" settings args w).2).
Proof.
  intros settings w args.
  apply (main_skips_existing_by_default "/srv/tts" settings args w
           (from_dict record_1) 1 (main "/srv/tts" settings args w).1).
  - reflexivity.
  - reflexivity.
  - vm_compute. set_solver.
  - apply surjective_pairing.
Defined.

(** ** The preview of a dry run *)

Lemma print_lines_app l1 l2 w :
  print_lines (l1 ++ l2) w = print_lines l2 (print_lines l1 w).
Proof. apply foldl_app. Qed.

Lemma stdout_print_lines lines : ∀ w,
  stdout (print_lines lines w) = (stdout w ++ lines)%list.
Proof.
  induction lines as [|line rest IH]; intros w.
  - simpl. by rewrite app_nil_r.
  - change (print_lines (line :: rest) w)
      with (print_lines rest (add_stdout line w)).
    rewrite IH. simpl. by rewrite <- app_assoc.
Qed.

Lemma preview_loop_runs quests : ∀ w,
  Forall (λ q, is_str (title q)) quests →
  preview_loop quests w = (Ok tt, print_lines (preview_line <$> quests) w).
Proof.
  induction quests as [|q rest IH]; intros w Hall; [reflexivity |].
  apply Forall_cons in Hall as [[t Ht] Hall]. simpl.
  rewrite bind_run. unfold title_prefix, preview_line. rewrite Ht.
  rewrite unfold_M_ret, bind_run.
  change (print ?line w) with (Ok tt, add_stdout line w).
  cbv beta iota. by rewrite IH.
Qed.

Lemma preview_loop_raises pre q rest : ∀ w,
  Forall (λ q, is_str (title q)) pre → ¬ is_str (title q) →
  ∃ msg, preview_loop (pre ++ q :: rest) w
         = (Raise (TypeError msg), print_lines (preview_line <$> pre) w).
Proof.
  induction pre as [|q0 pre IH]; intros w Hall Hq; simpl.
  - rewrite bind_run. unfold title_prefix.
    destruct (title q) as [| | |t]; try by eexists.
    destruct Hq. by exists t.
  - apply Forall_cons in Hall as [[t Ht] Hall].
    rewrite bind_run. unfold title_prefix, preview_line. rewrite Ht.
    rewrite unfold_M_ret, bind_run.
    change (print ?line w) with (Ok tt, add_stdout line w).
    cbv beta iota. by apply IH.
Qed.

(** X15: for quests whose titles are strings, a dry run that has something
    to show prints the heading, one line for each of the first twenty quests
    (id, and the first fifty characters of the title) and, when there are
    more than twenty, one line with the number of the others: at most 22
    lines, and nothing else changes. *)
Theorem dry_run_preview_lines self voice_profile delay quests w :
  quests ≠ [] →
  Forall (λ q, is_str (title q)) (take 20 quests) →
  let lines := ([preview_header] ++ (preview_line <$> take 20 quests)
                ++ preview_rest quests)%list in
  dispatch self true voice_profile delay quests w
  = (Ok DryRunPreview, print_lines lines w)
  ∧ stdout (print_lines lines w) = (stdout w ++ lines)%list
  ∧ (length lines ≤ 22)%nat
  ∧ (length lines = 22%nat ↔ (20 < length quests)%nat).
Proof.
  intros Hne Hall lines. split; [|split].
  - unfold dispatch. destruct quests as [|q rest]; [done |].
    rewrite bind_run.
    change (print ?line w) with (Ok tt, add_stdout line w).
    cbv beta iota. rewrite bind_run, (preview_loop_runs _ _ Hall), bind_run.
    unfold lines. rewrite !print_lines_app. unfold preview_rest.
    destruct (20 <? length (q :: rest))%nat; reflexivity.
  - apply stdout_print_lines.
  - unfold lines, preview_rest.
    rewrite !length_app, length_fmap, length_take.
    destruct (20 <? length quests)%nat eqn:E; cbn [length].
    + apply Nat.ltb_lt in E. lia.
    + apply Nat.ltb_ge in E. lia.
Qed.

Lemma dry_run_preview_lines_witness :
  dispatch example_generator true None (1 # 2)
           [from_dict record_1; from_dict record_3]
           (example_world [record_1; record_3])
  = (Ok DryRunPreview,
     print_lines [preview_header; "  - Quest 1: A..."; "  - Quest 3: C..."]
                 (example_world [record_1; record_3])).
Proof.
  destruct (dry_run_preview_lines example_generator None (1 # 2)
              [from_dict record_1; from_dict record_3]
              (example_world [record_1; record_3])) as [H _].
  - discriminate.
  - repeat constructor; by eexists.
  - exact H.
Defined.

(** X16: the preview of a dry run takes the first fifty characters of each
    title, so it raises [TypeError] at the first of its twenty quests whose
    title is [null], a number or a truth value, after the lines of the
    quests before it.  A run without [dry_run] does not look at the title
    that way: with a client, [generate_audio] goes on to render a quest
    whose title is [null] and whose description is a string that is not
    made of whitespace. *)
Theorem dry_run_raises_for_a_null_or_number_title self voice_profile
    delay pre q post w :
  (length pre < 20)%nat →
  Forall (λ q, is_str (title q)) pre →
  title q = PNone ∨ is_int (title q) ∨ (∃ b, title q = PBool b) →
  (∃ msg,
     dispatch self true voice_profile delay (pre ++ q :: post) w
     = (Raise (TypeError msg),
        print_lines ([preview_header] ++ (preview_line <$> pre)) w))
  ∧ (∀ d c w0,
       title q = PNone → description q = PStr d →
       ¬ Forall (λ c, isspace c = true) (chars d) →
       client self = Some c →
       generate_audio self q voice_profile w0
       = render self q voice_profile d w0).
Proof.
  intros Hlen Hall Htitle. split.
  - assert (¬ is_str (title q)) as Hq.
    { intros [t Ht].
      destruct Htitle as [H|[[z H]|[b H]]]; congruence. }
    unfold dispatch.
    destruct (pre ++ q :: post)%list as [|q0 rest] eqn:E.
    { by destruct pre. }
    rewrite <- E. clear E.
    assert (take 20 (pre ++ q :: post)
            = (pre ++ q :: take (19 - length pre) post)%list) as ->.
    { rewrite take_app_ge by lia.
      replace (20 - length pre)%nat with (S (19 - length pre)) by lia.
      reflexivity. }
    destruct (preview_loop_raises pre q (take (19 - length pre) post)
                (add_stdout preview_header w) Hall Hq) as [msg Hmsg].
    exists msg. rewrite bind_run.
    change (print ?line w) with (Ok tt, add_stdout line w).
    cbv beta iota. rewrite bind_run.
    fold preview_header. rewrite Hmsg. by rewrite print_lines_app.
  - intros d c w0 Ht Hd Hws Hc.
    rewrite (generate_audio_with_client _ _ _ _ _ Hc).
    assert (truthy (description q) = true) as Htr.
    { rewrite Hd. simpl. destruct (String.eqb d "") eqn:E; [|done].
      apply String.eqb_eq in E. subst d. destruct Hws. constructor. }
    assert (tts_text q = PStr d) as Htext.
    { unfold tts_text, py_or. by rewrite Ht, Htr. }
    rewrite Htext.
    destruct (blank_text q) eqn:Hb; [|done].
    apply blank_text_iff in Hb as (s & Hs & Hall').
    rewrite Htext in Hs. injection Hs as <-. by destruct Hws.
Qed.

Lemma dry_run_raises_for_a_null_or_number_title_witness :
  let w := example_world [record_1; record_4n] in
  (∃ msg, dispatch example_generator true None (1 # 2)
                   [from_dict record_1; from_dict record_4n] w
          = (Raise (TypeError msg),
             print_lines [preview_header; "  - Quest 1: A..."] w))
  ∧ (generate_audio example_generator (from_dict record_4n) None w).1
    = Ok (Some "/srv/tts/audio/quest_4.mp3").
Proof.
  intros w. split; [|vm_compute; reflexivity].
  apply (dry_run_raises_for_a_null_or_number_title example_generator None
           (1 # 2) [from_dict record_1] (from_dict record_4n) [] w).
  - simpl. lia.
  - repeat constructor. by eexists.
  - by left.
Defined.

(** ** The output directory *)

#[local] Instance dir_stays_preorder : PreOrder dir_stays.
Proof.
  split.
  - by intros w H.
  - intros w1 w2 w3 H1 H2 H. by apply H2, H1.
Qed.

Lemma keeps_dir_stays_dispatch self dry_run voice_profile delay quests :
  keeps dir_stays (dispatch self dry_run voice_profile delay quests).
Proof.
  apply (keeps_dispatch dir_stays (λ _, True)).
  - by intros line w [files H]; exists files.
  - by intros d w [files H]; exists files.
  - intros w. left. intros _. by exists ∅.
  - by intros entry w _ [files H]; exists files.
  - intros name content files w _ _. by eexists.
  - done.
Qed.

(** X17: a [run_batch] with skip-existing on that returns has made sure the
    output directory is there, also when it is a dry run or finds nothing to
    do: a dry run started without the directory leaves an empty one
    behind. *)
Theorem skip_existing_makes_the_output_directory self quest_ids from_export
    dry_run voice_profile delay w outcome w' :
  run_batch self quest_ids from_export true dry_run voice_profile delay w
  = (Ok outcome, w') →
  dir_present w'
  ∧ (dry_run = true → audio_dir w = DirAbsent → audio_dir w' = DirPresent ∅).
Proof.
  intros H.
  assert (dir_present w') as Hp.
  { unfold run_batch in H.
    apply bind_inv in H as [(loaded & wa & _ & H)|(e & _ & ?)]; [|done].
    apply bind_inv in H as [(quests & wb & Hf & H)|(e & _ & ?)]; [|done].
    apply filter_existing_inv in Hf as (_ & -> & Hb & _).
    apply keeps_dir_stays_dispatch in H. apply H.
    destruct (with_audio_dir_present wa Hb) as [files Hfiles].
    by exists files. }
  split; [exact Hp |]. intros -> Habsent.
  apply (keeps_run_batch_dry_run quiet quiet_stdout quiet_mkdir) in H
    as [_ Hfiles].
  destruct Hp as [files Hp]. rewrite Hp, Habsent in Hfiles. simpl in Hfiles.
  by rewrite Hp, Hfiles.
Qed.

Lemma skip_existing_makes_the_output_directory_witness :
  let w := example_world [record_1] in
  audio_dir w = DirAbsent
  ∧ audio_dir (run_batch example_generator None false true true None (1 # 2)
                         w).2 = DirPresent ∅.
Proof.
  intros w. split; [reflexivity |].
  destruct (skip_existing_makes_the_output_directory example_generator None
              false true None (1 # 2) w DryRunPreview
              (run_batch example_generator None false true true None (1 # 2)
                         w).2) as [_ H]; [vm_compute; reflexivity |].
  by apply H.
Defined.

(** ** Records with more keys *)

(** X18: [Quest.from_dict] reads its seven keys and no other: a record with
    further keys gives the same quest as the record without them. *)
Theorem from_dict_ignores_other_keys data key v :
  key ∉ ["quest_id"; "title"; "description"; "objectives"; "completion";
         "zone"; "is_main_story"] →
  from_dict (<[key := v]> data) = from_dict data.
Proof.
  intros Hkey. unfold from_dict, dict_get.
  rewrite !lookup_insert_ne; [done | | | | | | |];
    intros ?; subst key; apply Hkey; set_solver.
Qed.

Lemma from_dict_ignores_other_keys_witness :
  from_dict (<["level" := PInt 60]> record_1) = from_dict record_1.
Proof.
  apply (from_dict_ignores_other_keys record_1 "level" (PInt 60)).
  intros H. repeat (apply elem_of_cons in H as [H|H]; [discriminate H |]).
  by apply elem_of_nil in H.
Defined.

(** ** A run after a complete run *)

#[local] Instance same_inputs_preorder : PreOrder same_inputs.
Proof.
  split.
  - by intros w.
  - intros w1 w2 w3 [H1 H2] [H3 H4]. split; congruence.
Qed.

Lemma keeps_same_inputs_run_batch self quest_ids from_export skip_existing
    dry_run voice_profile delay :
  keeps same_inputs (run_batch self quest_ids from_export skip_existing
                               dry_run voice_profile delay).
Proof.
  apply (keeps_run_batch same_inputs (λ _, True)); try done.
  intros w. by left.
Qed.

Lemma config_path_of_pure self key field :
  ∃ r, ∀ w, config_path_of self key field w = (r, w).
Proof.
  unfold config_path_of, subscript.
  destruct (paths (config self)) as [section|]; [|by eexists].
  destruct (field section) as [sub|] eqn:E; eexists; intros w;
    rewrite bind_run, unfold_M_ret, bind_run, E; reflexivity.
Qed.

(** What [load_selected] returns depends on the two input files only. *)
Lemma load_selected_inputs self quest_ids from_export w w' :
  same_inputs w w' →
  (load_selected self quest_ids from_export w').1
  = (load_selected self quest_ids from_export w).1.
Proof.
  intros [Hq He]. unfold load_selected. destruct from_export.
  - unfold load_batch_export.
    destruct (config_path_of_pure self "batch_export" batch_export)
      as [r Hr].
    rewrite !bind_run, !Hr. destruct r as [path|e]; [|reflexivity].
    rewrite !bind_run. unfold get_world. rewrite He.
    by destruct (export_file w).
  - unfold load_quests.
    destruct (config_path_of_pure self "quests_json" quests_json) as [r Hr].
    rewrite !bind_run, !Hr. destruct r as [path|e]; [|reflexivity].
    rewrite !bind_run. unfold get_world. rewrite Hq.
    by destruct (quests_file w).
Qed.

Lemma generate_audio_success_config self quest voice_profile w p w' :
  generate_audio self quest voice_profile w = (Ok (Some p), w') →
  has_audio_output (config self).
Proof.
  intros H. destruct (client self) as [c|] eqn:Hc.
  2:{ unfold generate_audio in H. rewrite Hc in H. inversion H. }
  rewrite (generate_audio_with_client _ _ _ _ _ Hc) in H.
  destruct (tts_text quest) as [| | |s]; try done.
  destruct (blank_text quest); [done |]. unfold render in H.
  apply bind_inv in H as [(voice & w1 & _ & H)|(? & _ & ?)]; [|done].
  apply bind_inv in H as [(dir & w2 & Hd & H)|(? & _ & ?)]; [|done].
  apply config_path_of_inv in Hd as (_ & section & sub & Hs & Hf & _).
  by exists section, sub.
Qed.

Lemma batch_loop_all_rendered self voice_profile delay quests :
  ∀ s0 f0 w s w' q,
    batch_loop self voice_profile delay quests s0 f0 w = (Ok (s, f0), w') →
    q ∈ quests →
    audio_file_name q ∈ dom (dir_files (audio_dir w'))
    ∧ has_audio_output (config self).
Proof.
  induction quests as [|q0 rest IH]; intros s0 f0 w s w' q H Hq.
  { by inversion Hq. }
  rewrite batch_loop_cons in H.
  destruct (generate_audio self q0 voice_profile w) as [[result|e] w1] eqn:Hg;
    [|done].
  destruct (sleep delay w1) as [[u|e] w2] eqn:Hs; [|done].
  destruct result as [p|].
  2:{ apply batch_loop_counters in H as (_ & H & _). lia. }
  apply elem_of_cons in Hq as [->|Hq]; [|by apply (IH _ _ _ _ _ _ H)].
  split; [|by apply generate_audio_success_config in Hg].
  apply generate_audio_success in Hg.
  apply (keeps_sleep files_stay files_stay_sleep) in Hs.
  apply keeps_files_stay_batch_loop in H. by apply H, Hs.
Qed.

Lemma existing_ids_mono files files' :
  dom files ⊆ dom files' → existing_ids files ⊆ existing_ids files'.
Proof.
  intros Hsub z. rewrite !existing_ids_spec.
  intros (name & Hn & H). exists name. split; [by apply Hsub | done].
Qed.

Lemma filter_none {A : Type} (P : A → Prop) `{!∀ x, Decision (P x)}
    (l : list A) :
  (∀ x, x ∈ l → ¬ P x) → filter P l = [].
Proof.
  induction l as [|x l IH]; intros Hno; [done |].
  rewrite filter_cons. destruct (decide (P x)) as [HP|_].
  - destruct (Hno x); [left | done].
  - apply IH. intros y Hy. apply Hno. by right.
Qed.

(** X19: when a [run_batch] over quests with int ids reaches its summary
    with no quest failed, running [run_batch] again on the same input with
    skip-existing on finds nothing to do: every quest of the input has its
    file by then, so the second run makes no call and changes no file. *)
Theorem complete_run_leaves_nothing_to_do self quest_ids from_export
    skip_existing voice_profile delay w loaded w0 s w1 dry_run2
    voice_profile2 delay2 :
  load_selected self quest_ids from_export w = (Ok loaded, w0) →
  Forall (λ q, is_int (quest_id q)) loaded →
  run_batch self quest_ids from_export skip_existing false voice_profile
            delay w = (Ok (Completed s 0), w1) →
  ∃ w2,
    run_batch self quest_ids from_export true dry_run2 voice_profile2 delay2
              w1 = (Ok NothingToDo, w2)
    ∧ api_log w2 = api_log w1
    ∧ dir_files (audio_dir w2) = dir_files (audio_dir w1).
Proof.
  intros Hl Hint H.
  pose proof (keeps_same_inputs_run_batch _ _ _ _ _ _ _ _ _ _ H) as Hin.
  unfold run_batch in H. rewrite bind_run, Hl in H.
  apply bind_inv in H as [(quests & wb & Hf & H)|(e & _ & ?)]; [|done].
  pose proof (keeps_filter_existing files_stay files_stay_stdout
                files_stay_mkdir _ _ _ _ _ _ Hf) as Hstay1.
  pose proof (keeps_dispatch files_stay (λ _, True) files_stay_stdout
                files_stay_sleep files_stay_mkdir
                (λ entry w _, files_stay_call entry w) files_stay_write
                self false voice_profile delay quests
                (λ _ _ _ _ _ _ _, I) _ _ _ H) as Hstay2.
  (* the quests of the first run have their files at its end *)
  assert (quests ≠ []
          ∧ ∀ q, q ∈ quests →
                 audio_file_name q ∈ dom (dir_files (audio_dir w1))
                 ∧ has_audio_output (config self)) as [Hne Hfiles].
  { unfold dispatch in H. destruct quests as [|q0 rest]; [by inversion H |].
    split; [done |].
    apply bind_inv in H as [(u & wc & Hp & H)|(e & _ & ?)]; [|done].
    apply bind_inv in H as [([s1 f1] & wd & Hloop & H)|(e & _ & ?)]; [|done].
    inversion H; subst. simpl. intros q Hq.
    by apply (batch_loop_all_rendered _ _ _ _ _ _ _ _ _ q Hloop). }
  assert (has_audio_output (config self)) as Hcfg.
  { destruct quests as [|q0 rest]; [done |].
    by destruct (Hfiles q0); [left |]. }
  (* every loaded quest has its id among the scanned ids *)
  assert (∀ q, q ∈ loaded →
               py_in_set (quest_id q)
                         (existing_ids (dir_files (audio_dir w1))) = true)
    as Hall.
  { intros q Hq.
    destruct (proj1 (Forall_forall _ _) Hint q Hq) as [z Hz].
    unfold py_in_set. rewrite Hz. simpl. apply bool_decide_eq_true.
    assert (q ∈ quests → z ∈ existing_ids (dir_files (audio_dir w1))) as Hr.
    { intros Hqs. apply (existing_ids_of_audio_file _ q z Hz).
      by apply Hfiles. }
    destruct skip_existing.
    - apply filter_existing_inv in Hf as (Hquests & _).
      destruct (py_in_set (quest_id q)
                  (existing_ids (dir_files (audio_dir w0)))) eqn:Hs.
      + unfold py_in_set in Hs. rewrite Hz in Hs. simpl in Hs.
        apply bool_decide_eq_true in Hs.
        apply (existing_ids_mono (dir_files (audio_dir w0))); [|done].
        transitivity (dom (dir_files (audio_dir wb)));
          [exact Hstay1 | exact Hstay2].
      + apply Hr. rewrite Hquests. by apply list_elem_of_filter.
    - inversion Hf; subst. by apply Hr. }
  (* the second run *)
  unfold run_batch. rewrite bind_run.
  pose proof (load_selected_inputs self quest_ids from_export w w1 Hin)
    as Hsame.
  rewrite Hl in Hsame. simpl in Hsame.
  destruct (load_selected self quest_ids from_export w1) as [r2 wa2] eqn:Hl2.
  simpl in Hsame. subst r2.
  apply (keeps_load_selected quiet quiet_stdout) in Hl2 as [Hlog2 Hdir2].
  assert (audio_dir wa2 ≠ DirBlocked) as Hnb.
  { intros Hb. destruct quests as [|q0 rest]; [done |].
    destruct (Hfiles q0) as [Hq0 _]; [left |].
    rewrite <- Hdir2, Hb in Hq0. simpl in Hq0. set_solver. }
  unfold filter_existing.
  rewrite !bind_run, (get_existing_audio_files_runs _ _ Hcfg Hnb), bind_run.
  rewrite Hdir2, filter_none.
  2:{ intros q Hq. rewrite (Hall q Hq). done. }
  eexists. split; [reflexivity |]. simpl.
  by rewrite with_audio_dir_log, dir_files_with_audio_dir.
Qed.

Lemma complete_run_leaves_nothing_to_do_witness :
  let w := example_world [record_1; record_3] in
  let w1 := (run_batch example_generator None false true false
                       (Some "epic_narrator") (1 # 2) w).2 in
  ∃ w2,
    run_batch example_generator None false true false (Some "epic_narrator")
              (1 # 2) w1 = (Ok NothingToDo, w2)
    ∧ api_log w2 = api_log w1
    ∧ dir_files (audio_dir w2) = dir_files (audio_dir w1).
Proof.
  intros w w1.
  apply (complete_run_leaves_nothing_to_do example_generator None false true
           (Some "epic_narrator") (1 # 2) w
           [from_dict record_1; from_dict record_3]
           (add_stdout "Geladene Quests: 2" w) 2 w1 false
           (Some "epic_narrator") (1 # 2)).
  - vm_compute. reflexivity.
  - repeat constructor; by eexists.
  - vm_compute. reflexivity.
Defined.

(** ** Settings without a profile table *)

Lemma init_inv root settings config_path w self w1 :
  __init__ root settings config_path w = (Ok self, w1) →
  settings !! config_path_or_default root config_path = Some (config self)
  ∧ project_root self = root.
Proof.
  unfold __init__, _load_config. intros H.
  destruct (settings !! config_path_or_default root config_path) as [cfg|];
    [|by inversion H].
  rewrite bind_run, unfold_M_ret in H.
  apply bind_inv in H as [(c & w2 & _ & H)|(e & _ & ?)]; [|done].
  by inversion H.
Qed.

Lemma run_batch_without_profile_table self quest_ids from_export
    skip_existing dry_run name delay w r w' :
  voice_profiles (config self) = None → name ≠ "" →
  run_batch self quest_ids from_export skip_existing dry_run (Some name)
            delay w = (r, w') →
  api_log w' = api_log w.
Proof.
  intros Hnone Hname H.
  destruct (keeps_run_batch (log_grows (λ _, False)) (λ _, False)
              (log_grows_stdout _) (log_grows_sleep _)
              (λ w0, or_introl (log_grows_set_dir _ _ w0))
              (log_grows_call _)
              (λ name0 content files w0 _, log_grows_set_dir _ _ w0)
              self quest_ids from_export skip_existing dry_run (Some name)
              delay) with (w := w) (r := r) (w' := w')
    as (new & Hnew & Hall); [| exact H |].
  - intros quest call w0 _ _ Hv. unfold resolve_voice in Hv.
    destruct (String.eqb name "") eqn:E;
      [by apply String.eqb_eq in E |].
    simpl in Hv. by rewrite Hnone in Hv.
  - destruct new as [|entry new]; [by rewrite app_nil_r in Hnew |].
    by apply Forall_cons in Hall as [? _].
Qed.

(** X20: [main] always passes a profile name to [run_batch] (the option
    [--voice] has a default), and [generate_audio] looks the name up in the
    profile table before its [try] block.  So with a settings file that has
    no profile table, [main] makes no call at all: the first quest with text
    ends the run. *)
Theorem main_without_profile_table_makes_no_call root settings args w cfg :
  settings !! config_path_or_default root (arg_config args) = Some cfg →
  voice_profiles cfg = None →
  arg_voice args ≠ "" →
  api_log (main root settings args w).2 = api_log w.
Proof.
  intros Hcfg Hnone Hvoice.
  assert (∀ r0 w1, construct_and_run root settings args w = (r0, w1) →
                   api_log w1 = api_log w) as Hbody.
  { intros r0 w1 Hb. unfold construct_and_run in Hb.
    apply bind_inv in Hb as [(self & wa & Hi & Hb)|(e & Hi & _)].
    2:{ by apply keeps_quiet_init in Hi as [Hlog _]. }
    pose proof (init_inv _ _ _ _ _ _ Hi) as [Hself _].
    apply keeps_quiet_init in Hi as [Hlog _].
    apply run_batch_without_profile_table in Hb; [congruence | | done].
    rewrite Hcfg in Hself. by injection Hself as <-. }
  rewrite main_runs.
  destruct (construct_and_run root settings args w) as [[outcome|e] w1] eqn:Hb.
  - by apply (Hbody (Ok outcome)).
  - rewrite exit_handler_runs. simpl. by apply (Hbody (Raise e)).
Qed.

Lemma main_without_profile_table_makes_no_call_witness :
  let settings : gmap string Config :=
    {[ "/srv/tts/config/tts_config.json" := config no_profiles_generator ]} in
  let out := main "/srv/tts" settings default_args
                  (example_world [record_1]) in
  api_log out.2 = [].
Proof.
  intros settings out.
  apply (main_without_profile_table_makes_no_call "/srv/tts" settings
           default_args (example_world [record_1])
           (config no_profiles_generator)); [reflexivity | reflexivity |].
  discriminate.
Defined.
